(** * AIChat3D: the per-frame avatar animation loop

    A shallow embedding of the frame callbacks of the avatar chat client:
    - [App.getAvatarState]         (App component),
    - [VRMAvatar.useFrame]         (components/VRMAvatar.tsx),
    - [DefaultAvatar.useFrame]     (components/DefaultAvatar.tsx),
    - [MMDModel.useFrame]          (components/Scene.tsx, second component).

    Modelling conventions.
    - A JavaScript number that is tracked by the animation (rotations,
      scales, expression weights, the elapsed time) is a real number of
      [R]; the byte samples of a [Uint8Array] and their running sum are
      integers of [Z].  Rounding of binary64 arithmetic is not modelled.
    - A frame callback returns an [outcome]: [Done] with the mutated
      objects, [TypeError] where JavaScript would throw on a member access
      through [null]/[undefined], and [NotANumber] where a [NaN] or an
      infinity would be stored into the tracked state (a read past the end
      of a typed array, a division by zero), which leaves the real-number
      model.
    - Objects mutated in place by the source are threaded explicitly. *)

From Stdlib Require Import Reals Lra Lia ZArith List String Bool.
Import ListNotations.
Local Open Scope R_scope.

(** ** Outcomes of a callback *)

Inductive outcome (A : Type) : Type :=
| Done (a : A)
| TypeError
| NotANumber.

Arguments Done {A} a.
Arguments TypeError {A}.
Arguments NotANumber {A}.

Definition bind {A B : Type} (m : outcome A) (k : A -> outcome B) : outcome B :=
  match m with
  | Done a => k a
  | TypeError => TypeError
  | NotANumber => NotANumber
  end.

Notation "x <- m ;; k" := (bind m (fun x => k))
  (at level 61, m at next level, right associativity).

(** [if (v)] on a reference that is an object or [null]. *)
Definition truthy {A : Type} (v : option A) : bool :=
  match v with Some _ => true | None => false end.

(** [v.member] : throws when [v] is [null] or [undefined]. *)
Definition deref {A : Type} (v : option A) : outcome A :=
  match v with Some a => Done a | None => TypeError end.

(** A number computed from array reads: [None] is [NaN]. *)
Definition number (v : option R) : outcome R :=
  match v with Some r => Done r | None => NotANumber end.

(** ** three.js values used by the callbacks *)

Module THREE.

Record Vector3 : Type := { x : R; y : R; z : R }.

(** Only the three angles of an [Euler] are read and written. *)
Definition Euler : Type := Vector3.

Record Object3D : Type :=
  { position : Vector3; rotation : Euler; scale : Vector3 }.

(** [Color]: three channels; the values a hexadecimal string denotes are
    computed by three.js and are parameters of the model. *)
Record Color : Type := { r : R; g : R; b : R }.

Module MathUtils.
(** Modelled from the spec: [THREE.MathUtils.lerp] is a function of the
    three.js library, which is not part of the sources; section 4.1
    gives its contract, [lerp(current, target, factor) ->
    current + (target - current) * factor]. *)
Definition lerp (x y t : R) : R := x + (y - x) * t.
End MathUtils.

(** [Color.lerp(color, alpha)]: channel-wise interpolation. *)
Definition Color_lerp (c color : Color) (alpha : R) : Color :=
  {| r := MathUtils.lerp (r c) (r color) alpha;
     g := MathUtils.lerp (g c) (g color) alpha;
     b := MathUtils.lerp (b c) (b color) alpha |}.

End THREE.

(** ** Audio state (the [AudioState] prop)

    [AnalyserNode.getByteFrequencyData] fills a fresh [Uint8Array] of
    [frequencyBinCount] bytes; the analyser is represented by the bytes
    it delivers at the current frame. *)

Definition Uint8Array : Type := list Z.

Record AnalyserNode : Type := { getByteFrequencyData : Uint8Array }.

Record AudioState : Type :=
  { isPlaying : bool; analyser : option AnalyserNode }.

(** [initAudioContext] sets [fftSize = 256]; the Web Audio API defines
    [frequencyBinCount] as half of it. *)
Definition fftSize : nat := 256.
Definition frequencyBinCount : nat := Nat.div fftSize 2.

(** A frame as the application's analyser delivers it. *)
Definition wellFormedFrame (dataArray : Uint8Array) : Prop :=
  List.length dataArray = frequencyBinCount /\
  Forall (fun d => (0 <= d <= 255)%Z) dataArray.

(** The accumulation loop shared by the three drivers,
    [for (let i = startBin; i < endBin; i++) sum += dataArray[i]],
    with [n] iterations left.  A read past the end is [undefined], which
    turns the sum into [NaN] for good. *)
Fixpoint sumLoop (dataArray : Uint8Array) (i n : nat) (sum : Z) : option Z :=
  match n with
  | O => Some sum
  | S n' =>
      match nth_error dataArray i with
      | Some d => sumLoop dataArray (S i) n' (sum + d)
      | None => None
      end
  end.

(** [average = sum / (endBin - startBin)] after the loop. *)
Definition averageBins (dataArray : Uint8Array) (startBin endBin : nat) : option R :=
  match sumLoop dataArray startBin (endBin - startBin) 0%Z with
  | Some sum => Some (IZR sum / INR (endBin - startBin))
  | None => None
  end.

(** ** App: the conversational state *)

Module App.

(** The string union [AvatarState]. *)
Inductive AvatarState : Type := speaking | thinking | typing | idle.

Definition getAvatarState (audioState : AudioState)
    (isProcessing isUserTyping : bool) : AvatarState :=
  if isPlaying audioState then speaking
  else if isProcessing then thinking
  else if isUserTyping then typing
  else idle.

End App.

(** ** VRMAvatar: the humanoid rig driver *)

Module VRMAvatar.

(** The bones the callback names. *)
Inductive VRMHumanBoneName : Type :=
| Head | Neck | Spine | Hips
| LeftUpperArm | LeftLowerArm | LeftHand
| RightUpperArm | RightLowerArm | RightHand.

Definition VRMHumanBoneName_eq_dec (a b : VRMHumanBoneName) : {a = b} + {a <> b}.
Proof. decide equality. Defined.

(** [humanoid.getRawBoneNode(boneName)]: the node, or [null] when the
    rig has no such bone. *)
Definition VRMHumanoid : Type := VRMHumanBoneName -> option THREE.Object3D.

Definition getRawBoneNode (humanoid : VRMHumanoid) (boneName : VRMHumanBoneName)
  : option THREE.Object3D := humanoid boneName.

(** The in-place write [node.rotation.{x,y,z} = ...] seen from the rig. *)
Definition setNodeRotation (humanoid : VRMHumanoid) (boneName : VRMHumanBoneName)
    (node : THREE.Object3D) (rotation : THREE.Euler) : VRMHumanoid :=
  fun b =>
    if VRMHumanBoneName_eq_dec b boneName
    then Some {| THREE.position := THREE.position node;
                 THREE.rotation := rotation;
                 THREE.scale := THREE.scale node |}
    else humanoid b.

(** Modelled from the spec: the expression manager belongs to the
    three-vrm library, which is not part of the sources; section 6 gives
    [setExpressionWeight(name, value)] and [getExpressionWeight(name)]
    over named scalar weights. *)
Record VRMExpressionManager : Type := { weights : string -> R }.

Definition getValue (em : VRMExpressionManager) (name : string) : R :=
  weights em name.

Definition setValue (em : VRMExpressionManager) (name : string) (weight : R)
  : VRMExpressionManager :=
  {| weights := fun n => if String.eqb n name then weight else weights em n |}.

Record VRM : Type :=
  { humanoid : VRMHumanoid;
    expressionManager : option VRMExpressionManager }.

(** [vrm.expressionManager.getValue(name)] and [.setValue(name, weight)]
    as the callback writes them: a member access on the manager. *)
Definition expressionManager_getValue (vrm : VRM) (name : string) : outcome R :=
  em <- deref (expressionManager vrm) ;;
  Done (getValue em name).

Definition expressionManager_setValue (vrm : VRM) (name : string) (weight : R)
  : outcome VRM :=
  em <- deref (expressionManager vrm) ;;
  Done {| humanoid := humanoid vrm;
          expressionManager := Some (setValue em name weight) |}.

(** What one frame reads: the clock, and the sample [Math.random()]
    returns if it is called during the frame. *)
Record FrameState : Type := { elapsedTime : R; delta : R; random : R }.

(** [rotateBone]: the helper closed over [humanoid]. *)
Definition rotateBone (humanoid : VRMHumanoid) (boneName : VRMHumanBoneName)
    (x y z speed : R) : outcome VRMHumanoid :=
  let node := getRawBoneNode humanoid boneName in
  if truthy node then
    n <- deref node ;;
    let rx := THREE.MathUtils.lerp (THREE.x (THREE.rotation n)) x speed in
    let ry := THREE.MathUtils.lerp (THREE.y (THREE.rotation n)) y speed in
    let rz := THREE.MathUtils.lerp (THREE.z (THREE.rotation n)) z speed in
    Done (setNodeRotation humanoid boneName n
            {| THREE.x := rx; THREE.y := ry; THREE.z := rz |})
  else Done humanoid.

(** One [rotateBone(boneName, x, y, z, speed)] statement. *)
Record BoneCall : Type :=
  { boneName : VRMHumanBoneName; tx : R; ty : R; tz : R; speed : R }.

Definition rb (b : VRMHumanBoneName) (x y z s : R) : BoneCall :=
  {| boneName := b; tx := x; ty := y; tz := z; speed := s |}.

(** The statements of each branch of step 2, in source order. *)
Definition thinkingCalls : list BoneCall :=
  [ rb Head 0.1 0.3 (-0.1) 0.05;
    rb Neck 0 0.1 0 0.05;
    rb Spine 0.05 0 0 0.05;
    rb LeftUpperArm 0 0 0.9 0.05;
    rb LeftLowerArm 0 1.4 0 0.05;
    rb LeftHand 0 (-0.5) 0.5 0.05;
    rb RightUpperArm (-0.5) (-0.6) (-0.8) 0.05;
    rb RightLowerArm 0 (-2.0) 0 0.05;
    rb RightHand 0 0 0 0.05 ].

Definition typingCalls : list BoneCall :=
  [ rb Head 0.3 0 0 0.1;
    rb Neck 0.2 0 0 0.1;
    rb Spine 0.2 0 0 0.1;
    rb LeftUpperArm 0.2 0.2 1.2 0.1;
    rb LeftLowerArm 0 1.5 0 0.1;
    rb RightUpperArm 0.2 (-0.2) (-1.2) 0.1;
    rb RightLowerArm 0 (-1.5) 0 0.1 ].

Definition speakingCalls (t : R) : list BoneCall :=
  let headBob := sin (t * 12) * 0.08 in
  let headSway := cos (t * 3) * 0.1 in
  let armGesture := sin (t * 5) * 0.2 in
  [ rb Head headBob headSway 0 0.1;
    rb Neck 0 (headSway * 0.5) 0 0.1;
    rb Spine 0.05 0 0 0.05;
    rb LeftUpperArm 0 0 0.9 0.05;
    rb LeftLowerArm 0 1.4 0 0.05;
    rb RightUpperArm 0 0 (-1.1 - armGesture) 0.05;
    rb RightLowerArm 0 (-0.8 - (armGesture * 0.5)) 0 0.05 ].

Definition idleCalls (t : R) : list BoneCall :=
  let breathTime := t * 2.0 in
  let breathe := sin breathTime * 0.04 in
  let driftTime := t * 0.5 in
  let drift := sin driftTime * 0.02 in
  [ rb Head 0 (drift * 0.5) 0 0.02;
    rb Neck 0 0 0 0.02;
    rb Spine breathe 0 drift 0.02;
    rb Hips 0 0 (drift * 0.5) 0.02;
    rb LeftUpperArm 0 0 0.9 0.05;
    rb LeftLowerArm 0 1.4 0 0.05;
    rb LeftHand 0.2 (-0.2) 0.5 0.05;
    rb RightUpperArm 0 0 (-0.9) 0.05;
    rb RightLowerArm 0 (-1.4) 0 0.05;
    rb RightHand 0.2 0.2 (-0.5) 0.05 ].

Definition poseCalls (avatarState : App.AvatarState) (t : R) : list BoneCall :=
  match avatarState with
  | App.thinking => thinkingCalls
  | App.typing => typingCalls
  | App.speaking => speakingCalls t
  | App.idle => idleCalls t
  end.

(** Running the statements one after the other. *)
Fixpoint rotateBones (humanoid : VRMHumanoid) (calls : list BoneCall)
  : outcome VRMHumanoid :=
  match calls with
  | [] => Done humanoid
  | c :: rest =>
      h <- rotateBone humanoid (boneName c) (tx c) (ty c) (tz c) (speed c) ;;
      rotateBones h rest
  end.

(** The same [rotateBone] statement on [n] consecutive frames. *)
Fixpoint rotateBoneTicks (n : nat) (humanoid : VRMHumanoid)
    (boneName : VRMHumanBoneName) (x y z speed : R) : outcome VRMHumanoid :=
  match n with
  | O => Done humanoid
  | S n' =>
      h <- rotateBone humanoid boneName x y z speed ;;
      rotateBoneTicks n' h boneName x y z speed
  end.

(** Step 2 of the callback, "Procedural Animation logic". *)
Definition proceduralAnimation (avatarState : App.AvatarState) (t : R) (vrm : VRM)
  : outcome VRM :=
  h <- rotateBones (humanoid vrm) (poseCalls avatarState t) ;;
  Done {| humanoid := h; expressionManager := expressionManager vrm |}.

(** [volume], computed in the playing branch of step 3. *)
Definition volume (dataArray : Uint8Array) : option R :=
  let startBin := 2%nat in
  let endBin := 30%nat in
  match averageBins dataArray startBin endBin with
  | Some average => Some (Rmin 1.0 (Rmax 0 ((average / 255) * 3.5)))
  | None => None
  end.

(** Step 3 of the callback, "Lip Sync". *)
Definition lipSync (audioState : AudioState) (frame : FrameState) (vrm : VRM)
  : outcome VRM :=
  match isPlaying audioState, analyser audioState with
  | true, Some node =>
      let dataArray := getByteFrequencyData node in
      let volume := volume dataArray in
      if truthy (expressionManager vrm) then
        volume <- number volume ;;
        vrm1 <- expressionManager_setValue vrm "aa" volume ;;
        if Rgt_dec volume 0.6 then
          currentBlink <- expressionManager_getValue vrm1 "blink" ;;
          expressionManager_setValue vrm1 "blink"
            (THREE.MathUtils.lerp currentBlink 0.5 0.2)
        else Done vrm1
      else Done vrm
  | _, _ =>
      if truthy (expressionManager vrm) then
        currentAa <- expressionManager_getValue vrm "aa" ;;
        vrm1 <- expressionManager_setValue vrm "aa"
                  (THREE.MathUtils.lerp currentAa 0 0.2) ;;
        let blinkTrigger := sin (elapsedTime frame * 2) in
        let isBlinking := Rgt_dec (random frame) 0.992 in
        currentBlink <- expressionManager_getValue vrm1 "blink" ;;
        if isBlinking then
          expressionManager_setValue vrm1 "blink" 1
        else
          expressionManager_setValue vrm1 "blink"
            (THREE.MathUtils.lerp currentBlink 0 0.2)
      else Done vrm
  end.

Section UseFrame.

(** [vrm.update(delta)]: the library's own update of the instance
    (spring bones and the like). *)
Variable update : VRM -> R -> VRM.

(** The frame callback; [vrm] is the component state, [null] until the
    asset is loaded. *)
Definition useFrame (audioState : AudioState) (avatarState : App.AvatarState)
    (frame : FrameState) (vrm : option VRM) : outcome (option VRM) :=
  match vrm with
  | Some vrm0 =>
      let vrm1 := update vrm0 (delta frame) in
      let t := elapsedTime frame in
      vrm2 <- proceduralAnimation avatarState t vrm1 ;;
      vrm3 <- lipSync audioState frame vrm2 ;;
      Done (Some vrm3)
  | None => Done None
  end.

(** The callback over consecutive frames, each with its own props. *)
Fixpoint useFrames
    (frames : list (AudioState * App.AvatarState * FrameState))
    (vrm : option VRM) : outcome (option VRM) :=
  match frames with
  | [] => Done vrm
  | (audioState, avatarState, frame) :: rest =>
      vrm' <- useFrame audioState avatarState frame vrm ;;
      useFrames rest vrm'
  end.

End UseFrame.

End VRMAvatar.

(** ** DefaultAvatar: the fallback shape driver *)

Module DefaultAvatar.

Record MeshStandardMaterial : Type :=
  { color : THREE.Color; emissive : THREE.Color }.

(** The two refs of the component; [null] until the element is mounted. *)
Record Refs : Type :=
  { meshRef : option THREE.Object3D;
    materialRef : option MeshStandardMaterial }.

(** [volume], computed in the playing branch. *)
Definition volume (dataArray : Uint8Array) : option R :=
  let startBin := 2%nat in
  let endBin := 30%nat in
  match averageBins dataArray startBin endBin with
  | Some average => Some (Rmin 1 (average / 100))
  | None => None
  end.

(** [1 / Math.sqrt(scaleY)]; not a finite number unless [scaleY > 0]. *)
Definition inverseSqrt (scaleY : R) : outcome R :=
  if Rlt_dec 0 scaleY then Done (1 / sqrt scaleY) else NotANumber.

Section UseFrame.

(** [new THREE.Color("#4f46e5")] and [new THREE.Color("#818cf8")]. *)
Variables baseBlue lighterBlue : THREE.Color.

(** The locals [targetScaleY] and [targetColor] after the audio branch.
    A [NaN] volume fails the test [volume > 0.2]. *)
Definition targets (audioState : AudioState) : option R * THREE.Color :=
  match isPlaying audioState, analyser audioState with
  | true, Some node =>
      let dataArray := getByteFrequencyData node in
      match volume dataArray with
      | Some volume =>
          (Some (1 + (volume * 0.5)),
           if Rgt_dec volume 0.2 then lighterBlue else baseBlue)
      | None => (None, baseBlue)
      end
  | _, _ => (Some 1, baseBlue)
  end.

Definition useFrame (audioState : AudioState) (elapsedTime : R) (refs : Refs)
  : outcome Refs :=
  match meshRef refs with
  | None => Done refs
  | Some mesh =>
      let (targetScaleY, targetColor) := targets audioState in
      targetScaleY <- number targetScaleY ;;
      let scale_y :=
        THREE.MathUtils.lerp (THREE.y (THREE.scale mesh)) targetScaleY 0.2 in
      inverseScale <- inverseSqrt scale_y ;;
      let scale_x :=
        THREE.MathUtils.lerp (THREE.x (THREE.scale mesh)) inverseScale 0.2 in
      let scale_z :=
        THREE.MathUtils.lerp (THREE.z (THREE.scale mesh)) inverseScale 0.2 in
      let material :=
        match materialRef refs with
        | Some m =>
            Some {| color := THREE.Color_lerp (color m) targetColor 0.1;
                    emissive := THREE.Color_lerp (emissive m) targetColor 0.1 |}
        | None => None
        end in
      let position_y := sin (elapsedTime * 2) * 0.2 + 0.5 in
      let rotation_y := THREE.y (THREE.rotation mesh) + 0.01 in
      Done
        {| meshRef :=
             Some
               {| THREE.position :=
                    {| THREE.x := THREE.x (THREE.position mesh);
                       THREE.y := position_y;
                       THREE.z := THREE.z (THREE.position mesh) |};
                  THREE.rotation :=
                    {| THREE.x := THREE.x (THREE.rotation mesh);
                       THREE.y := rotation_y;
                       THREE.z := THREE.z (THREE.rotation mesh) |};
                  THREE.scale :=
                    {| THREE.x := scale_x;
                       THREE.y := scale_y;
                       THREE.z := scale_z |} |};
           materialRef := material |}
  end.

(** The callback over consecutive frames: the props and the clock of
    each. *)
Fixpoint useFrames (frames : list (AudioState * R)) (refs : Refs) : outcome Refs :=
  match frames with
  | [] => Done refs
  | (audioState, elapsedTime) :: rest =>
      refs' <- useFrame audioState elapsedTime refs ;;
      useFrames rest refs'
  end.

End UseFrame.

(** The box as it is mounted: unit scale, at the origin. *)
Definition mountedMesh : THREE.Object3D :=
  {| THREE.position := {| THREE.x := 0; THREE.y := 0; THREE.z := 0 |};
     THREE.rotation := {| THREE.x := 0; THREE.y := 0; THREE.z := 0 |};
     THREE.scale := {| THREE.x := 1; THREE.y := 1; THREE.z := 1 |} |}.

End DefaultAvatar.

(** ** MMDModel: the morph-target driver *)

Module MMDModel.

(** [morphTargetInfluences] is optional on a mesh. *)
Record SkinnedMesh : Type := { morphTargetInfluences : option (list R) }.

Record State : Type :=
  { meshRef : option SkinnedMesh;
    morphIndex : option nat }.

(** [influences[index] = v] for an index inside the array. *)
Fixpoint setInfluence (influences : list R) (index : nat) (v : R) : list R :=
  match influences, index with
  | [], _ => []
  | _ :: rest, O => v :: rest
  | a :: rest, S i => a :: setInfluence rest i v
  end.

(** [value], computed from the frequency data. *)
Definition value (dataArray : Uint8Array) : option R :=
  let startBin := 2%nat in
  let endBin := 50%nat in
  match averageBins dataArray startBin endBin with
  | Some average =>
      let sensitivity := 2.0 in
      Some (Rmin 1 (Rmax 0 ((average / 100) * sensitivity)))
  | None => None
  end.

(** [influences[morphIndex] = lerp(influences[morphIndex], target, factor)];
    reading past the end yields [undefined]. *)
Definition lerpInfluence (mesh : SkinnedMesh) (index : nat) (target factor : R)
  : outcome SkinnedMesh :=
  match morphTargetInfluences mesh with
  | Some influences =>
      current <- number (nth_error influences index) ;;
      Done {| morphTargetInfluences :=
                Some (setInfluence influences index
                        (THREE.MathUtils.lerp current target factor)) |}
  | None => Done mesh
  end.

Definition useFrame (audioState : AudioState) (st : State) : outcome State :=
  if negb (truthy (meshRef st)) || negb (truthy (morphIndex st))
     || negb (truthy (analyser audioState)) || negb (isPlaying audioState)
  then
    (* Reset mouth if not playing *)
    if truthy (meshRef st) && truthy (morphIndex st)
       && negb (isPlaying audioState)
    then
      mesh <- deref (meshRef st) ;;
      index <- deref (morphIndex st) ;;
      mesh' <- lerpInfluence mesh index 0 0.2 ;;
      Done {| meshRef := Some mesh'; morphIndex := morphIndex st |}
    else Done st
  else
    node <- deref (analyser audioState) ;;
    let dataArray := getByteFrequencyData node in
    let value := value dataArray in
    mesh <- deref (meshRef st) ;;
    index <- deref (morphIndex st) ;;
    match morphTargetInfluences mesh with
    | Some _ =>
        value <- number value ;;
        mesh' <- lerpInfluence mesh index value 0.4 ;;
        Done {| meshRef := Some mesh'; morphIndex := morphIndex st |}
    | None => Done st
    end.

(** The callback over consecutive frames, each with its own props. *)
Fixpoint useFrames (audioStates : list AudioState) (st : State) : outcome State :=
  match audioStates with
  | [] => Done st
  | audioState :: rest =>
      st' <- useFrame audioState st ;;
      useFrames rest st'
  end.

End MMDModel.

(** ** The envelope of section 4.2, as the specification words it

    [voiceEnergy = clamp((average(samples[startBin:endBin]) / scaleDivisor)
    * sensitivity, 0, 1)], over the slice of the samples. *)

Definition clamp (v lo hi : R) : R := Rmax lo (Rmin hi v).

Definition slice (samples : Uint8Array) (startBin endBin : nat) : list Z :=
  firstn (endBin - startBin) (skipn startBin samples).

Definition total (window : list Z) : Z := fold_right Z.add 0%Z window.

Definition average (window : list Z) : R :=
  IZR (total window) / INR (List.length window).

Definition spec_voiceEnergy (startBin endBin : nat) (scaleDivisor sensitivity : R)
    (samples : Uint8Array) : R :=
  clamp ((average (slice samples startBin endBin) / scaleDivisor) * sensitivity) 0 1.

(** ** Vocabulary of the statements *)

(** A window whose samples are all [c]. *)
Definition constantWindow (d : Uint8Array) (startBin endBin : nat) (c : Z) : Prop :=
  forall i, (startBin <= i < endBin)%nat -> nth_error d i = Some c.

(** The frame of 128 bins whose samples are all [c]. *)
Definition constantFrame (c : Z) : Uint8Array := repeat c frequencyBinCount.

(** [n] ticks of the smoothing primitive toward a fixed target. *)
Definition ticks (target factor : R) (n : nat) (current : R) : R :=
  Nat.iter n (fun c => THREE.MathUtils.lerp c target factor) current.

(** The bones a rig has are the bones it keeps. *)
Definition sameBones (h h' : VRMAvatar.VRMHumanoid) : Prop :=
  forall b, VRMAvatar.getRawBoneNode h b = None <->
            VRMAvatar.getRawBoneNode h' b = None.

(** The condition of the else branch of [if (isPlaying && analyser)]. *)
Definition silent (audioState : AudioState) : Prop :=
  isPlaying audioState = false \/ analyser audioState = None.

(** Sample props and objects. *)
Definition playing (dataArray : Uint8Array) : AudioState :=
  {| isPlaying := true;
     analyser := Some {| getByteFrequencyData := dataArray |} |}.

Definition stopped : AudioState := {| isPlaying := false; analyser := None |}.

Definition playingWithoutAnalyser : AudioState :=
  {| isPlaying := true; analyser := None |}.

Definition frame0 : VRMAvatar.FrameState :=
  {| VRMAvatar.elapsedTime := 0; VRMAvatar.delta := 0; VRMAvatar.random := 0 |}.

Definition noBones : VRMAvatar.VRMHumanoid := fun _ => None.

Definition restManager : VRMAvatar.VRMExpressionManager :=
  {| VRMAvatar.weights := fun _ => 0 |}.

Definition openMouthManager : VRMAvatar.VRMExpressionManager :=
  {| VRMAvatar.weights := fun _ => 1 |}.

Definition faceOnly (em : VRMAvatar.VRMExpressionManager) : VRMAvatar.VRM :=
  {| VRMAvatar.humanoid := noBones; VRMAvatar.expressionManager := Some em |}.

Definition bodyOnly : VRMAvatar.VRM :=
  {| VRMAvatar.humanoid := noBones; VRMAvatar.expressionManager := None |}.

(** A mesh with the given morph influences, the mouth morph at [index]. *)
Definition morphMesh (influences : list R) (index : nat) : MMDModel.State :=
  {| MMDModel.meshRef := Some {| MMDModel.morphTargetInfluences := Some influences |};
     MMDModel.morphIndex := Some index |}.

(** A [vrm.update] that leaves the instance as it is. *)
Definition noUpdate (vrm : VRMAvatar.VRM) (delta : R) : VRMAvatar.VRM := vrm.

(** The props of a frame of [VRMAvatar.useFrames] are silent. *)
Definition silentFrame (p : AudioState * App.AvatarState * VRMAvatar.FrameState) : Prop :=
  silent (fst (fst p)).

(** A frame of 128 bins that is 0 below bin 30 and 255 from bin 30 on. *)
Definition upperBand : Uint8Array := repeat 0%Z 30 ++ repeat 255%Z 98.

(** Every frame the analyser delivers, if there is one, is well formed. *)
Definition deliversBytes (audioState : AudioState) : Prop :=
  forall node, analyser audioState = Some node ->
               wellFormedFrame (getByteFrequencyData node).

(** Sample values for the two colours of the fallback shape. *)
Definition indigo : THREE.Color :=
  {| THREE.r := 79 / 255; THREE.g := 70 / 255; THREE.b := 229 / 255 |}.
Definition periwinkle : THREE.Color :=
  {| THREE.r := 129 / 255; THREE.g := 140 / 255; THREE.b := 248 / 255 |}.

(** The refs once the box is mounted, before the material is. *)
Definition mountedRefs : DefaultAvatar.Refs :=
  {| DefaultAvatar.meshRef := Some DefaultAvatar.mountedMesh;
     DefaultAvatar.materialRef := None |}.

(** The scale of the mesh of the refs, when there is one. *)
Definition scaleOf (refs : DefaultAvatar.Refs) : option THREE.Vector3 :=
  match DefaultAvatar.meshRef refs with
  | Some mesh => Some (THREE.scale mesh)
  | None => None
  end.

(** ** Further vocabulary *)

(** The bones the statements of a branch of the pose step name. *)
Definition namedBones (calls : list VRMAvatar.BoneCall) : list VRMAvatar.VRMHumanBoneName :=
  map VRMAvatar.boneName calls.

(** A weight of the unit interval. *)
Definition unitWeight (w : R) : Prop := 0 <= w <= 1.

(** All the weights of an expression manager lie in the unit interval. *)
Definition unitWeights (em : VRMAvatar.VRMExpressionManager) : Prop :=
  forall name, unitWeight (VRMAvatar.getValue em name).

(** The props of a frame of [VRMAvatar.useFrames] carry well-formed bytes. *)
Definition bytesFrame (p : AudioState * App.AvatarState * VRMAvatar.FrameState) : Prop :=
  deliversBytes (fst (fst p)).

(** A node at rest: at the origin, unrotated, of unit scale. *)
Definition restNode : THREE.Object3D :=
  {| THREE.position := {| THREE.x := 0; THREE.y := 0; THREE.z := 0 |};
     THREE.rotation := {| THREE.x := 0; THREE.y := 0; THREE.z := 0 |};
     THREE.scale := {| THREE.x := 1; THREE.y := 1; THREE.z := 1 |} |}.

(** A rig that has a single joint. *)
Definition singleBone (boneName : VRMAvatar.VRMHumanBoneName) (node : THREE.Object3D)
  : VRMAvatar.VRMHumanoid :=
  fun b => if VRMAvatar.VRMHumanBoneName_eq_dec b boneName then Some node else None.

Definition singleBoneVRM (boneName : VRMAvatar.VRMHumanBoneName) : VRMAvatar.VRM :=
  {| VRMAvatar.humanoid := singleBone boneName restNode;
     VRMAvatar.expressionManager := None |}.

(** One interpolation step of the three angles of a node toward the
    target of a [rotateBone] statement. *)
Definition steppedRotation (node : THREE.Object3D) (c : VRMAvatar.BoneCall) : THREE.Euler :=
  {| THREE.x := THREE.MathUtils.lerp (THREE.x (THREE.rotation node))
                  (VRMAvatar.tx c) (VRMAvatar.speed c);
     THREE.y := THREE.MathUtils.lerp (THREE.y (THREE.rotation node))
                  (VRMAvatar.ty c) (VRMAvatar.speed c);
     THREE.z := THREE.MathUtils.lerp (THREE.z (THREE.rotation node))
                  (VRMAvatar.tz c) (VRMAvatar.speed c) |}.

(** The narrowest horizontal scale of the fallback box: the inverse square
    root of the tallest smoothed height, 1.5. *)
Definition squashLimit : R := 1 / sqrt 1.5.

(** The scales the fallback box moves within. *)
Definition scaleInRange (s : THREE.Vector3) : Prop :=
  1 <= THREE.y s <= 1.5
  /\ squashLimit <= THREE.x s <= 1
  /\ squashLimit <= THREE.z s <= 1.

(** The props of a frame of [DefaultAvatar.useFrames] carry well-formed
    bytes, or are silent. *)
Definition bytesTick (f : AudioState * R) : Prop := deliversBytes (fst f).
Definition silentTick (f : AudioState * R) : Prop := silent (fst f).

(** The mesh after one tick of the fallback driver toward [targetScaleY]
    at clock [elapsedTime]. *)
Definition tickedMesh (mesh : THREE.Object3D) (targetScaleY elapsedTime : R)
  : THREE.Object3D :=
  let scale_y := THREE.MathUtils.lerp (THREE.y (THREE.scale mesh)) targetScaleY 0.2 in
  {| THREE.position :=
       {| THREE.x := THREE.x (THREE.position mesh);
          THREE.y := sin (elapsedTime * 2) * 0.2 + 0.5;
          THREE.z := THREE.z (THREE.position mesh) |};
     THREE.rotation :=
       {| THREE.x := THREE.x (THREE.rotation mesh);
          THREE.y := THREE.y (THREE.rotation mesh) + 0.01;
          THREE.z := THREE.z (THREE.rotation mesh) |};
     THREE.scale :=
       {| THREE.x := THREE.MathUtils.lerp (THREE.x (THREE.scale mesh)) (1 / sqrt scale_y) 0.2;
          THREE.y := scale_y;
          THREE.z := THREE.MathUtils.lerp (THREE.z (THREE.scale mesh)) (1 / sqrt scale_y) 0.2 |} |}.

(** The material after one tick toward [targetColor], when it is mounted. *)
Definition tickedMaterial (material : option DefaultAvatar.MeshStandardMaterial)
    (targetColor : THREE.Color) : option DefaultAvatar.MeshStandardMaterial :=
  match material with
  | Some m =>
      Some {| DefaultAvatar.color := THREE.Color_lerp (DefaultAvatar.color m) targetColor 0.1;
              DefaultAvatar.emissive :=
                THREE.Color_lerp (DefaultAvatar.emissive m) targetColor 0.1 |}
  | None => None
  end.

(** The material as it is mounted: both colours are the base colour. *)
Definition mountedMaterial (baseBlue : THREE.Color) : DefaultAvatar.MeshStandardMaterial :=
  {| DefaultAvatar.color := baseBlue; DefaultAvatar.emissive := baseBlue |}.

(** The clock of the last frame of a run. *)
Definition lastClock (frames : list (AudioState * R)) : R :=
  snd (last frames (stopped, 0)).

(** A colour after [n] ticks toward [target] with factor 0.1, channel by
    channel. *)
Definition Color_ticks (target : THREE.Color) (n : nat) (c : THREE.Color) : THREE.Color :=
  {| THREE.r := ticks (THREE.r target) 0.1 n (THREE.r c);
     THREE.g := ticks (THREE.g target) 0.1 n (THREE.g c);
     THREE.b := ticks (THREE.b target) 0.1 n (THREE.b c) |}.

(** ** Values shared by the chat components (types.ts) *)

Module types.

Inductive Role : Type := user | model.

Record Message : Type :=
  { role : Role; text : string; isAudio : option bool }.

Inductive ModelStatus : Type := IDLE | LOADING | READY | ERROR.

End types.

(** ** JavaScript values the chat code tests or awaits *)

(** [if (s)], [!s] and [s || d] on a value that is a string or
    [undefined]: the empty string and [undefined] are falsy. *)
Definition truthyString (v : option string) : bool :=
  match v with
  | Some s => negb (String.eqb s "")
  | None => false
  end.

Definition orElse (v : option string) (fallback : string) : string :=
  match v with
  | Some s => if String.eqb s "" then fallback else s
  | None => fallback
  end.

(** A thrown value: an [Error] with its message, or anything else. *)
Inductive Thrown : Type :=
| ErrorObject (message : string)
| OtherValue.

(** What an awaited promise comes to. *)
Inductive Settled (A : Type) : Type :=
| Fulfilled (a : A)
| Rejected (e : Thrown).

Arguments Fulfilled {A} a.
Arguments Rejected {A} e.

(** [str.endsWith(search)]. *)
Definition endsWith (str search : string) : bool :=
  let n := String.length str in
  let m := String.length search in
  (m <=? n)%nat && String.eqb (substring (n - m) m str) search.

(** ** config.ts *)

Module config.

(** [process.env], as far as the configuration reads it. *)
Definition ProcessEnv : Type := string -> option string.

Definition OPENAI_API_KEY (env : ProcessEnv) : string :=
  orElse (env "OPENAI_API_KEY"%string) "YOUR_OPENAI_API_KEY_HERE".

Definition ELEVENLABS_API_KEY (env : ProcessEnv) : string :=
  orElse (env "ELEVENLABS_API_KEY"%string) "YOUR_ELEVENLABS_API_KEY_HERE".

Definition ELEVENLABS_VOICE_ID (env : ProcessEnv) : string :=
  orElse (env "ELEVENLABS_VOICE_ID"%string) "YOUR_ELEVENLABS_VOICE_ID_HERE".

End config.

(** ** services/apiService.ts

    The network is the environment: [fetch] is a function from the
    request to what the awaited calls come to.  A response is read the
    way the code reads it: [ok], and the values of the two access paths
    [err.error?.message] (resp. [err.detail?.message]) and
    [data.choices[0]?.message?.content], each a string or [undefined];
    a failing [fetch] or [json()], or a body on which an access throws,
    is a rejection. *)

Module apiService.

Record ApiMessage : Type := { role : string; content : string }.

Record ChatRequest : Type :=
  { url : string;
    authorization : string;
    model : string;
    messages : list ApiMessage;
    max_tokens : Z;
    temperature : R }.

Record ChatResponse : Type :=
  { ok : bool;
    error_message : option string;
    choice_content : option string }.

Definition toApiMessage (m : types.Message) : ApiMessage :=
  {| role := match types.role m with
             | types.model => "assistant"
             | types.user => "user"
             end;
     content := types.text m |}.

(** [apiMessages] after the [push] of the current prompt. *)
Definition apiMessages (messages : list types.Message) (userPrompt : string)
  : list ApiMessage :=
  map toApiMessage messages ++ [{| role := "user"; content := userPrompt |}].

Definition systemMessage : ApiMessage :=
  {| role := "system";
     content := "You are a helpful, cheerful 3D virtual assistant. Keep your responses concise (under 2 sentences) so the conversation flows quickly and the text-to-speech doesn't take too long." |}.

Definition chatRequest (OPENAI_API_KEY : string) (messages : list types.Message)
    (userPrompt : string) : ChatRequest :=
  {| url := "https://api.openai.com/v1/chat/completions";
     authorization := String.append "Bearer " OPENAI_API_KEY;
     model := "gpt-3.5-turbo";
     messages := systemMessage :: apiMessages messages userPrompt;
     max_tokens := 150;
     temperature := 0.7 |}.

Definition generateTextResponse (OPENAI_API_KEY : string)
    (fetch : ChatRequest -> Settled ChatResponse)
    (messages : list types.Message) (userPrompt : string) : Settled string :=
  if negb (truthyString (Some OPENAI_API_KEY)) then
    Fulfilled "Error: OPENAI_API_KEY is missing in configuration."%string
  else
    match fetch (chatRequest OPENAI_API_KEY messages userPrompt) with
    | Fulfilled response =>
        if negb (ok response) then
          Rejected (ErrorObject (orElse (error_message response) "OpenAI API Error"))
        else
          Fulfilled (orElse (choice_content response) "I couldn't think of a response.")
    | Rejected error => Rejected error
    end.

Record SpeechRequest : Type :=
  { speech_url : string;
    xi_api_key : string;
    speech_text : string;
    model_id : string;
    stability : R;
    similarity_boost : R }.

Record SpeechResponse : Type :=
  { speech_ok : bool;
    detail_message : option string;
    arrayBuffer : Settled (list Z) }.

Definition speechRequest (ELEVENLABS_API_KEY ELEVENLABS_VOICE_ID text : string)
  : SpeechRequest :=
  {| speech_url :=
       String.append "https://api.elevenlabs.io/v1/text-to-speech/" ELEVENLABS_VOICE_ID;
     xi_api_key := ELEVENLABS_API_KEY;
     speech_text := text;
     model_id := "eleven_multilingual_v2";
     stability := 0.5;
     similarity_boost := 0.75 |}.

Definition generateSpeech (ELEVENLABS_API_KEY ELEVENLABS_VOICE_ID : string)
    (fetch : SpeechRequest -> Settled SpeechResponse) (text : string)
  : Settled (list Z) :=
  if negb (truthyString (Some ELEVENLABS_API_KEY)) then
    Rejected (ErrorObject "ELEVENLABS_API_KEY is missing.")
  else
    match fetch (speechRequest ELEVENLABS_API_KEY ELEVENLABS_VOICE_ID text) with
    | Fulfilled response =>
        if negb (speech_ok response) then
          Rejected (ErrorObject (orElse (detail_message response) "ElevenLabs API Error"))
        else arrayBuffer response
    | Rejected error => Rejected error
    end.

End apiService.

(** ** services/geminiService.ts *)

Module geminiService.

Record Content : Type := { role : types.Role; parts : list string }.

(** [messages.slice(0, -1)]: all but the last element. *)
Definition historyMessages (messages : list types.Message) : list types.Message :=
  removelast messages.

Definition history (messages : list types.Message) : list Content :=
  map (fun m => {| role := types.role m; parts := [types.text m] |})
      (historyMessages messages).

Record ChatSession : Type :=
  { model : string; chat_history : list Content; systemInstruction : string }.

Definition chatSession (messages : list types.Message) : ChatSession :=
  {| model := "gemini-3-flash-preview";
     chat_history := history messages;
     systemInstruction := "You are a helpful, cheerful anime character assistant. Keep your responses concise (under 2 sentences) so the conversation flows quickly." |}.

(** [sendMessage] is the SDK's call; it settles to [response.text], a
    string or [undefined]. *)
Definition generateTextResponse
    (sendMessage : ChatSession -> string -> Settled (option string))
    (messages : list types.Message) (prompt : string) : Settled string :=
  match sendMessage (chatSession messages) prompt with
  | Fulfilled text => Fulfilled (orElse text "I couldn't think of a response.")
  | Rejected error => Rejected error
  end.

(** [bytes[i] = v] on a [Uint8Array]: the value is stored modulo 256, and a
    write past the end is ignored. *)
Fixpoint Uint8Array_set (bytes : Uint8Array) (i : nat) (v : Z) : Uint8Array :=
  match bytes, i with
  | [], _ => []
  | _ :: rest, O => (v mod 256)%Z :: rest
  | b :: rest, S i' => b :: Uint8Array_set rest i' v
  end.

(** The decoding loop, [for (let i = 0; i < len; i++)
    bytes[i] = binaryString.charCodeAt(i)], with [n] iterations left; a
    binary string is the list of its code units, and [charCodeAt] past the
    end is [NaN], stored as 0. *)
Fixpoint decodeLoop (binaryString : list Z) (bytes : Uint8Array) (i n : nat)
  : Uint8Array :=
  match n with
  | O => bytes
  | S n' =>
      decodeLoop binaryString
        (Uint8Array_set bytes i (nth i binaryString 0%Z)) (S i) n'
  end.

(** [new Uint8Array(len)] followed by the loop. *)
Definition decodeBinaryString (binaryString : list Z) : Uint8Array :=
  let len := List.length binaryString in
  decodeLoop binaryString (repeat 0%Z len) 0 len.

Record SpeechRequest : Type :=
  { speech_model : string;
    contents : list (list string);
    responseModalities : list string;
    voiceName : string }.

Definition speechRequest (text : string) : SpeechRequest :=
  {| speech_model := "gemini-2.5-flash-preview-tts";
     contents := [[text]];
     responseModalities := ["AUDIO"%string];
     voiceName := "Kore" |}.

(** [generateContent] is the SDK's call; it settles to the value of the
    access path [response.candidates?.[0]?...?.inlineData?.data], a string
    or [undefined].  [atob] is the browser's decoder: it returns the
    binary string or throws. *)
Definition generateSpeech
    (generateContent : SpeechRequest -> Settled (option string))
    (atob : string -> Settled (list Z)) (text : string) : Settled Uint8Array :=
  match generateContent (speechRequest text) with
  | Fulfilled base64Audio =>
      if negb (truthyString base64Audio) then
        Rejected (ErrorObject "No audio data received from Gemini.")
      else
        match base64Audio with
        | Some data =>
            match atob data with
            | Fulfilled binaryString => Fulfilled (decodeBinaryString binaryString)
            | Rejected error => Rejected error
            end
        | None => Rejected (ErrorObject "No audio data received from Gemini.")
        end
  | Rejected error => Rejected error
  end.

End geminiService.

(** ** components/ChatInterface.tsx

    The handlers run against the browser and the parent component: the
    calls they make, in order, are their result, beside the component's
    own state.  [window.setTimeout] returns the handle the browser
    chooses; it is an input of the handler that arms a timeout. *)

Module ChatInterface.

Record File : Type := { name : string }.

Inductive Call : Type :=
| onUserTyping (isTyping : bool)
| onSendMessage (text : string)
| onModelUpload (file : File)
| clearTimeout (handle : nat)
| setTimeout (handle : nat) (delay : nat)
| preventDefault
| alert (message : string).

(** The state [input] and the ref [typingTimeoutRef]. *)
Record State : Type :=
  { input : string;
    typingTimeoutRef : option nat }.

Definition initialState : State := {| input := ""; typingTimeoutRef := None |}.

(** [if (typingTimeoutRef.current)] on a number or [null]: 0 is falsy. *)
Definition truthyHandle (ref : option nat) : bool :=
  match ref with
  | Some (S _) => true
  | _ => false
  end.

(** [if (typingTimeoutRef.current) clearTimeout(typingTimeoutRef.current)]. *)
Definition clearTypingTimeout (st : State) : list Call :=
  match typingTimeoutRef st with
  | Some handle => if truthyHandle (Some handle) then [clearTimeout handle] else []
  | None => []
  end.

(** [handleInputChange]; [handle] is what [window.setTimeout] returns. *)
Definition handleInputChange (value : string) (handle : nat) (st : State)
  : State * list Call :=
  ({| input := value; typingTimeoutRef := Some handle |},
   [onUserTyping true] ++ clearTypingTimeout st ++ [setTimeout handle 1000]).

(** The callback armed by [handleInputChange]. *)
Definition typingTimeoutCallback : list Call := [onUserTyping false].

Section HandleSubmit.

(** [String.prototype.trim], the engine's. *)
Variable trim : string -> string.

Definition handleSubmit (isProcessing : bool) (st : State) : State * list Call :=
  if truthyString (Some (trim (input st))) && negb isProcessing then
    ({| input := ""; typingTimeoutRef := typingTimeoutRef st |},
     [preventDefault] ++ clearTypingTimeout st
       ++ [onUserTyping false; onSendMessage (input st)])
  else (st, [preventDefault]).

End HandleSubmit.

(** [handleFileChange]; [files] is [e.target.files], a list or [null]. *)
Definition handleFileChange (files : option (list File)) : list Call :=
  match files with
  | Some (file :: _) =>
      if endsWith (name file) ".vrm" then [onModelUpload file]
      else [alert "Please select a valid .vrm file"]
  | _ => []
  end.

(** *** The typing indicator against the browser's timers

    [armed] are the handles of the timeouts not yet fired nor cleared,
    [nextHandle] the handle the browser hands out next (handles are
    positive and never reused), [isUserTyping] the parent's state, which
    only [onUserTyping] sets, and [sent] the texts passed to
    [onSendMessage]. *)

Record Page : Type :=
  { chat : State;
    armed : list nat;
    nextHandle : nat;
    isUserTyping : bool;
    sent : list string }.

Definition initialPage : Page :=
  {| chat := initialState; armed := []; nextHandle := 1;
     isUserTyping := false; sent := [] |}.

Definition perform (call : Call) (page : Page) : Page :=
  match call with
  | onUserTyping isTyping =>
      {| chat := chat page; armed := armed page; nextHandle := nextHandle page;
         isUserTyping := isTyping; sent := sent page |}
  | onSendMessage text =>
      {| chat := chat page; armed := armed page; nextHandle := nextHandle page;
         isUserTyping := isUserTyping page; sent := sent page ++ [text] |}
  | clearTimeout handle =>
      {| chat := chat page; armed := remove Nat.eq_dec handle (armed page);
         nextHandle := nextHandle page;
         isUserTyping := isUserTyping page; sent := sent page |}
  | setTimeout handle _ =>
      {| chat := chat page; armed := handle :: armed page;
         nextHandle := S handle;
         isUserTyping := isUserTyping page; sent := sent page |}
  | onModelUpload _ | preventDefault | alert _ => page
  end.

Definition performAll (calls : list Call) (page : Page) : Page :=
  fold_left (fun p c => perform c p) calls page.

Definition withChat (st : State) (page : Page) : Page :=
  {| chat := st; armed := armed page; nextHandle := nextHandle page;
     isUserTyping := isUserTyping page; sent := sent page |}.

Inductive Event : Type :=
| change (value : string)
| submit (isProcessing : bool)
| timeoutFires (handle : nat).

Section Page.

Variable trim : string -> string.

Definition step (page : Page) (event : Event) : Page :=
  match event with
  | change value =>
      let (st, calls) := handleInputChange value (nextHandle page) (chat page) in
      performAll calls (withChat st page)
  | submit isProcessing =>
      let (st, calls) := handleSubmit trim isProcessing (chat page) in
      performAll calls (withChat st page)
  | timeoutFires handle =>
      if in_dec Nat.eq_dec handle (armed page) then
        performAll typingTimeoutCallback
          {| chat := chat page; armed := remove Nat.eq_dec handle (armed page);
             nextHandle := nextHandle page;
             isUserTyping := isUserTyping page; sent := sent page |}
      else page
  end.

Definition run (events : list Event) (page : Page) : Page :=
  fold_left step events page.

End Page.

End ChatInterface.

(** What every page reached from the initial one satisfies: at most one
    timeout is armed, it is the one the ref holds, and the indicator is on
    only while it is armed. *)
Definition typingInvariant (page : ChatInterface.Page) : Prop :=
  (ChatInterface.armed page = []
   \/ exists handle,
        ChatInterface.armed page = [handle]
        /\ ChatInterface.typingTimeoutRef (ChatInterface.chat page) = Some handle
        /\ (1 <= handle < ChatInterface.nextHandle page)%nat)
  /\ (ChatInterface.isUserTyping page = true -> ChatInterface.armed page <> [])
  /\ (1 <= ChatInterface.nextHandle page)%nat.

(** ** components/Scene.tsx: the choice of the avatar *)

Module Scene.

Inductive Avatar : Type :=
| VRMAvatar (url : string) (audioState : AudioState) (avatarState : App.AvatarState)
| DefaultAvatar (audioState : AudioState).

(** [modelUrl ? <VRMAvatar .../> : <DefaultAvatar .../>]. *)
Definition avatar (modelUrl : option string) (audioState : AudioState)
    (avatarState : App.AvatarState) : Avatar :=
  match modelUrl with
  | Some url =>
      if truthyString (Some url) then VRMAvatar url audioState avatarState
      else DefaultAvatar audioState
  | None => DefaultAvatar audioState
  end.

End Scene.

(** ** The App component: state, refs and handlers

    The objects the browser creates are handles; a call of
    [handleSendMessage] suspended at one of its awaits is a
    [Continuation], resumed by the event that settles the awaited
    promise.  Several calls may be suspended at once. *)

Module AppComponent.

Definition AudioContext : Type := nat.
Definition AudioBufferSourceNode : Type := nat.
Definition AudioBuffer : Type := nat.
Definition ArrayBuffer : Type := list Z.

(** What the browser answers when [initAudioContext] runs: the context
    and analyser it would create, and whether the existing context is
    suspended. *)
Record Browser : Type :=
  { newAudioContext : AudioContext;
    newAnalyser : AnalyserNode;
    contextSuspended : bool }.

Inductive Call : Type :=
| resume (ctx : AudioContext)
| stop (source : AudioBufferSourceNode)
| start (source : AudioBufferSourceNode)
| console_error (label : string)
| setTimeout_ready.

Inductive Continuation : Type :=
| awaitingText (newMessages : list types.Message) (text : string)
| awaitingSpeech (responseText : string)
| awaitingDecode (arrayBuffer : ArrayBuffer).

Record State : Type :=
  { messages : list types.Message;
    modelUrl : option string;
    modelStatus : types.ModelStatus;
    isProcessing : bool;
    isUserTyping : bool;
    audioContextRef : option AudioContext;
    analyserRef : option AnalyserNode;
    sourceRef : option AudioBufferSourceNode;
    audioState : AudioState;
    audioState_audioContext : option AudioContext;
    audioState_source : option AudioBufferSourceNode;
    suspended : list Continuation;
    calls : list Call }.

Definition initialState : State :=
  {| messages := [];
     modelUrl := Some "/models/vivian.vrm#model.vrm"%string;
     modelStatus := types.READY;
     isProcessing := false;
     isUserTyping := false;
     audioContextRef := None;
     analyserRef := None;
     sourceRef := None;
     audioState := {| isPlaying := false; analyser := None |};
     audioState_audioContext := None;
     audioState_source := None;
     suspended := [];
     calls := [] |}.

Definition setMessages (f : list types.Message -> list types.Message) (st : State) : State :=
  {| messages := f (messages st); modelUrl := modelUrl st; modelStatus := modelStatus st;
     isProcessing := isProcessing st; isUserTyping := isUserTyping st;
     audioContextRef := audioContextRef st; analyserRef := analyserRef st;
     sourceRef := sourceRef st; audioState := audioState st;
     audioState_audioContext := audioState_audioContext st;
     audioState_source := audioState_source st;
     suspended := suspended st; calls := calls st |}.

Definition setModel (url : option string) (status : types.ModelStatus) (st : State) : State :=
  {| messages := messages st; modelUrl := url; modelStatus := status;
     isProcessing := isProcessing st; isUserTyping := isUserTyping st;
     audioContextRef := audioContextRef st; analyserRef := analyserRef st;
     sourceRef := sourceRef st; audioState := audioState st;
     audioState_audioContext := audioState_audioContext st;
     audioState_source := audioState_source st;
     suspended := suspended st; calls := calls st |}.

Definition setIsProcessing (b : bool) (st : State) : State :=
  {| messages := messages st; modelUrl := modelUrl st; modelStatus := modelStatus st;
     isProcessing := b; isUserTyping := isUserTyping st;
     audioContextRef := audioContextRef st; analyserRef := analyserRef st;
     sourceRef := sourceRef st; audioState := audioState st;
     audioState_audioContext := audioState_audioContext st;
     audioState_source := audioState_source st;
     suspended := suspended st; calls := calls st |}.

Definition setIsUserTyping (b : bool) (st : State) : State :=
  {| messages := messages st; modelUrl := modelUrl st; modelStatus := modelStatus st;
     isProcessing := isProcessing st; isUserTyping := b;
     audioContextRef := audioContextRef st; analyserRef := analyserRef st;
     sourceRef := sourceRef st; audioState := audioState st;
     audioState_audioContext := audioState_audioContext st;
     audioState_source := audioState_source st;
     suspended := suspended st; calls := calls st |}.

(** The three refs. *)
Definition setRefs (ctx : option AudioContext) (node : option AnalyserNode)
    (source : option AudioBufferSourceNode) (st : State) : State :=
  {| messages := messages st; modelUrl := modelUrl st; modelStatus := modelStatus st;
     isProcessing := isProcessing st; isUserTyping := isUserTyping st;
     audioContextRef := ctx; analyserRef := node; sourceRef := source;
     audioState := audioState st;
     audioState_audioContext := audioState_audioContext st;
     audioState_source := audioState_source st;
     suspended := suspended st; calls := calls st |}.

(** The four fields of the [audioState] object. *)
Definition setAudioState (playing : bool) (ctx : option AudioContext)
    (node : option AnalyserNode) (source : option AudioBufferSourceNode)
    (st : State) : State :=
  {| messages := messages st; modelUrl := modelUrl st; modelStatus := modelStatus st;
     isProcessing := isProcessing st; isUserTyping := isUserTyping st;
     audioContextRef := audioContextRef st; analyserRef := analyserRef st;
     sourceRef := sourceRef st;
     audioState := {| isPlaying := playing; analyser := node |};
     audioState_audioContext := ctx;
     audioState_source := source;
     suspended := suspended st; calls := calls st |}.

Definition setSuspended (k : list Continuation) (st : State) : State :=
  {| messages := messages st; modelUrl := modelUrl st; modelStatus := modelStatus st;
     isProcessing := isProcessing st; isUserTyping := isUserTyping st;
     audioContextRef := audioContextRef st; analyserRef := analyserRef st;
     sourceRef := sourceRef st; audioState := audioState st;
     audioState_audioContext := audioState_audioContext st;
     audioState_source := audioState_source st;
     suspended := k; calls := calls st |}.

Definition call (c : Call) (st : State) : State :=
  {| messages := messages st; modelUrl := modelUrl st; modelStatus := modelStatus st;
     isProcessing := isProcessing st; isUserTyping := isUserTyping st;
     audioContextRef := audioContextRef st; analyserRef := analyserRef st;
     sourceRef := sourceRef st; audioState := audioState st;
     audioState_audioContext := audioState_audioContext st;
     audioState_source := audioState_source st;
     suspended := suspended st; calls := calls st ++ [c] |}.

Definition suspend (k : Continuation) (st : State) : State :=
  setSuspended (suspended st ++ [k]) st.

(** [initAudioContext]. *)
Definition initAudioContext (browser : Browser) (st : State) : State :=
  match audioContextRef st with
  | None =>
      let ctx := newAudioContext browser in
      let analyser := newAnalyser browser in
      let st1 := setRefs (Some ctx) (Some analyser) (sourceRef st) st in
      setAudioState (isPlaying (audioState st1)) (Some ctx) (Some analyser)
        (audioState_source st1) st1
  | Some ctx =>
      if contextSuspended browser then call (resume ctx) st else st
  end.

(** [handleModelUpload]; [blobUrl] is what [URL.createObjectURL] returns. *)
Definition handleModelUpload (blobUrl : string) (st : State) : State :=
  let url := String.append blobUrl "#model.vrm" in
  call setTimeout_ready (setModel (Some url) types.LOADING st).

(** The callback of the timeout armed by [handleModelUpload]. *)
Definition modelReady (st : State) : State :=
  setModel (modelUrl st) types.READY st.

Definition modelMessage (text : string) : types.Message :=
  {| types.role := types.model; types.text := text; types.isAudio := None |}.

Definition userMessage (text : string) : types.Message :=
  {| types.role := types.user; types.text := text; types.isAudio := None |}.

(** [playAudio] up to its await: [None] when it returns at once, the
    state at the await otherwise. *)
Definition playAudio_begin (st : State) : option State :=
  if negb (truthy (audioContextRef st)) || negb (truthy (analyserRef st)) then None
  else
    match sourceRef st with
    | Some source => Some (call (stop source) st)
    | None => Some st
    end.

(** [playAudio] from the settling of [decodeAudioData] on; [source] is
    what [createBufferSource] returns. *)
Definition playAudio_resume (result : Settled AudioBuffer)
    (source : AudioBufferSourceNode) (st : State) : State :=
  match result with
  | Fulfilled audioBuffer =>
      let st1 := setRefs (audioContextRef st) (analyserRef st) (Some source) st in
      let st2 := call (start source) st1 in
      setAudioState true (audioState_audioContext st2) (analyser (audioState st2))
        (Some source) st2
  | Rejected err =>
      setMessages
        (fun prev => prev ++ [modelMessage "(Audio playback failed: Check API Key or format)"])
        (call (console_error "Error decoding audio") st)
  end.

(** [source.onended]. *)
Definition onended (st : State) : State :=
  setAudioState false (audioState_audioContext st) (analyser (audioState st))
    (audioState_source st) st.

(** [handleSendMessage] up to its first await. *)
Definition handleSendMessage_begin (browser : Browser) (text : string) (st : State)
  : State :=
  let st1 := initAudioContext browser st in
  let st2 := setIsProcessing true st1 in
  let newMessages := messages st ++ [userMessage text] in
  let st3 := setMessages (fun _ => newMessages) st2 in
  suspend (awaitingText newMessages text) st3.

(** The [catch] and [finally] blocks. *)
Definition errorMessage (error : Thrown) : string :=
  match error with
  | ErrorObject message =>
      String.append "Sorry, I encountered an error." (String.append " " message)
  | OtherValue => "Sorry, I encountered an error."
  end.

Definition catchError (error : Thrown) (st : State) : State :=
  setMessages (fun prev => prev ++ [modelMessage (errorMessage error)])
    (call (console_error "Chat flow error:") st).

Definition finally (st : State) : State := setIsProcessing false st.

(** After [await generateTextResponse(newMessages, text)]. *)
Definition afterText (result : Settled string) (st : State) : State :=
  match result with
  | Fulfilled responseText =>
      suspend (awaitingSpeech responseText)
        (setMessages (fun prev => prev ++ [modelMessage responseText]) st)
  | Rejected error => finally (catchError error st)
  end.

(** After [await generateSpeech(responseText)]. *)
Definition afterSpeech (result : Settled ArrayBuffer) (st : State) : State :=
  match result with
  | Fulfilled audioData =>
      match playAudio_begin st with
      | Some st1 => suspend (awaitingDecode audioData) st1
      | None => finally st
      end
  | Rejected error => finally (catchError error st)
  end.

(** After [await decodeAudioData(arrayBuffer)], to the end of the call. *)
Definition afterDecode (result : Settled AudioBuffer) (source : AudioBufferSourceNode)
    (st : State) : State :=
  finally (playAudio_resume result source st).

Inductive Event : Type :=
| click (browser : Browser)
| onSendMessage (browser : Browser) (text : string)
| onUserTyping (isTyping : bool)
| onModelUpload (blobUrl : string)
| readyTimeout
| textSettles (i : nat) (result : Settled string)
| speechSettles (i : nat) (result : Settled ArrayBuffer)
| decodeSettles (i : nat) (result : Settled AudioBuffer) (source : AudioBufferSourceNode)
| ended.

(** The suspended calls without the one at position [i]. *)
Fixpoint without (i : nat) (ks : list Continuation) : list Continuation :=
  match ks, i with
  | [], _ => []
  | _ :: rest, O => rest
  | k :: rest, S i' => k :: without i' rest
  end.

Definition step (st : State) (event : Event) : State :=
  match event with
  | click browser => initAudioContext browser st
  | onSendMessage browser text => handleSendMessage_begin browser text st
  | onUserTyping isTyping => setIsUserTyping isTyping st
  | onModelUpload blobUrl => handleModelUpload blobUrl st
  | readyTimeout => modelReady st
  | textSettles i result =>
      match nth_error (suspended st) i with
      | Some (awaitingText _ _) =>
          afterText result (setSuspended (without i (suspended st)) st)
      | _ => st
      end
  | speechSettles i result =>
      match nth_error (suspended st) i with
      | Some (awaitingSpeech _) =>
          afterSpeech result (setSuspended (without i (suspended st)) st)
      | _ => st
      end
  | decodeSettles i result source =>
      match nth_error (suspended st) i with
      | Some (awaitingDecode _) =>
          afterDecode result source (setSuspended (without i (suspended st)) st)
      | _ => st
      end
  | ended => onended st
  end.

Definition run (events : list Event) (st : State) : State :=
  fold_left step events st.

(** What the component hands to [Scene] when it renders. *)
Definition render (st : State) : Scene.Avatar :=
  Scene.avatar (modelUrl st) (audioState st)
    (App.getAvatarState (audioState st) (isProcessing st) (isUserTyping st)).

End AppComponent.

(** What every state of the App component reached from the initial one
    satisfies about the audio objects. *)
Definition audioInvariant (st : AppComponent.State) : Prop :=
  analyser (AppComponent.audioState st) = AppComponent.analyserRef st
  /\ AppComponent.audioState_audioContext st = AppComponent.audioContextRef st
  /\ (AppComponent.audioContextRef st = None <-> AppComponent.analyserRef st = None)
  /\ (isPlaying (AppComponent.audioState st) = true -> AppComponent.analyserRef st <> None)
  /\ (AppComponent.suspended st <> [] -> AppComponent.analyserRef st <> None).

(** One turn of the conversation: a message is sent and the three awaited
    promises of its call settle in turn. *)
Definition turn (browser : AppComponent.Browser) (text : string)
    (reply : Settled string) (speech : Settled AppComponent.ArrayBuffer)
    (decoded : Settled AppComponent.AudioBuffer)
    (source : AppComponent.AudioBufferSourceNode) : list AppComponent.Event :=
  [AppComponent.onSendMessage browser text;
   AppComponent.textSettles 0 reply;
   AppComponent.speechSettles 0 speech;
   AppComponent.decodeSettles 0 decoded source].

(** The messages a turn adds after the user's. *)
Definition turnReplies (reply : Settled string) (speech : Settled AppComponent.ArrayBuffer)
    (decoded : Settled AppComponent.AudioBuffer) : list types.Message :=
  match reply with
  | Rejected error => [AppComponent.modelMessage (AppComponent.errorMessage error)]
  | Fulfilled responseText =>
      AppComponent.modelMessage responseText ::
      match speech with
      | Rejected error => [AppComponent.modelMessage (AppComponent.errorMessage error)]
      | Fulfilled _ =>
          match decoded with
          | Rejected _ =>
              [AppComponent.modelMessage "(Audio playback failed: Check API Key or format)"]
          | Fulfilled _ => []
          end
      end
  end.

(** A browser that answers [initAudioContext] with fixed handles. *)
Definition sampleBrowser : AppComponent.Browser :=
  {| AppComponent.newAudioContext := 1%nat;
     AppComponent.newAnalyser := {| getByteFrequencyData := constantFrame 0 |};
     AppComponent.contextSuspended := false |}.

(** The texts passed to [handleSendMessage] by a sequence of events. *)
Definition sentTexts (events : list AppComponent.Event) : list string :=
  flat_map (fun e => match e with
                     | AppComponent.onSendMessage _ text => [text]
                     | _ => []
                     end) events.

(** The messages of the user in a transcript. *)
Definition userMessages (messages : list types.Message) : list types.Message :=
  filter (fun m => match types.role m with types.user => true | types.model => false end)
    messages.

(** ** The application: the chat panel wired to the App component

    [App] passes [handleSendMessage], [handleModelUpload],
    [setIsUserTyping] and its state [isProcessing] to [ChatInterface];
    the calls the panel's handlers make to their parent are run against
    the App component, the others against the browser's timers. *)

Module Application.

Record World : Type :=
  { app : AppComponent.State;
    page : ChatInterface.Page }.

Definition initialWorld : World :=
  {| app := AppComponent.initialState; page := ChatInterface.initialPage |}.

Inductive Event : Type :=
| keystroke (value : string)
| submit (browser : AppComponent.Browser)
| timeoutFires (handle : nat)
| fileChosen (files : option (list ChatInterface.File)) (blobUrl : string)
| click (browser : AppComponent.Browser)
| readyTimeout
| textSettles (i : nat) (result : Settled string)
| speechSettles (i : nat) (result : Settled AppComponent.ArrayBuffer)
| decodeSettles (i : nat) (result : Settled AppComponent.AudioBuffer)
    (source : AppComponent.AudioBufferSourceNode)
| ended.

(** A call of a panel handler to its parent, run by the App component;
    [browser] and [blobUrl] are what the browser answers if the call
    comes to ask. *)
Definition dispatch (browser : AppComponent.Browser) (blobUrl : string)
    (st : AppComponent.State) (call : ChatInterface.Call) : AppComponent.State :=
  match call with
  | ChatInterface.onUserTyping isTyping =>
      AppComponent.step st (AppComponent.onUserTyping isTyping)
  | ChatInterface.onSendMessage text =>
      AppComponent.step st (AppComponent.onSendMessage browser text)
  | ChatInterface.onModelUpload _ =>
      AppComponent.step st (AppComponent.onModelUpload blobUrl)
  | _ => st
  end.

Definition dispatchAll (browser : AppComponent.Browser) (blobUrl : string)
    (calls : list ChatInterface.Call) (st : AppComponent.State) : AppComponent.State :=
  fold_left (dispatch browser blobUrl) calls st.

Section World.

Variable trim : string -> string.

(** A browser and an object URL for the handlers that ask for neither. *)
Variable idleBrowser : AppComponent.Browser.

Definition step (w : World) (event : Event) : World :=
  match event with
  | keystroke value =>
      let calls :=
        snd (ChatInterface.handleInputChange value
               (ChatInterface.nextHandle (page w)) (ChatInterface.chat (page w))) in
      {| app := dispatchAll idleBrowser "" calls (app w);
         page := ChatInterface.step trim (page w) (ChatInterface.change value) |}
  | submit browser =>
      let isProcessing := AppComponent.isProcessing (app w) in
      let calls :=
        snd (ChatInterface.handleSubmit trim isProcessing (ChatInterface.chat (page w))) in
      {| app := dispatchAll browser "" calls (app w);
         page := ChatInterface.step trim (page w) (ChatInterface.submit isProcessing) |}
  | timeoutFires handle =>
      let calls :=
        if in_dec Nat.eq_dec handle (ChatInterface.armed (page w))
        then ChatInterface.typingTimeoutCallback else [] in
      {| app := dispatchAll idleBrowser "" calls (app w);
         page := ChatInterface.step trim (page w) (ChatInterface.timeoutFires handle) |}
  | fileChosen files blobUrl =>
      {| app := dispatchAll idleBrowser blobUrl
                  (ChatInterface.handleFileChange files) (app w);
         page := page w |}
  | click browser =>
      {| app := AppComponent.step (app w) (AppComponent.click browser); page := page w |}
  | readyTimeout =>
      {| app := AppComponent.step (app w) AppComponent.readyTimeout; page := page w |}
  | textSettles i result =>
      {| app := AppComponent.step (app w) (AppComponent.textSettles i result);
         page := page w |}
  | speechSettles i result =>
      {| app := AppComponent.step (app w) (AppComponent.speechSettles i result);
         page := page w |}
  | decodeSettles i result source =>
      {| app := AppComponent.step (app w) (AppComponent.decodeSettles i result source);
         page := page w |}
  | ended =>
      {| app := AppComponent.step (app w) AppComponent.ended; page := page w |}
  end.

Definition run (events : list Event) (w : World) : World :=
  fold_left step events w.

End World.

End Application.

(** What every world reached from the initial one satisfies. *)
Definition worldInvariant (w : Application.World) : Prop :=
  typingInvariant (Application.page w)
  /\ AppComponent.isUserTyping (Application.app w) =
     ChatInterface.isUserTyping (Application.page w)
  /\ (List.length (AppComponent.suspended (Application.app w)) <= 1)%nat
  /\ (AppComponent.isProcessing (Application.app w) = true <->
      AppComponent.suspended (Application.app w) <> [])
  /\ userMessages (AppComponent.messages (Application.app w)) =
     map AppComponent.userMessage (ChatInterface.sent (Application.page w)).

(** At most one call of [handleSendMessage] is suspended, and
    [isProcessing] tells whether one is. *)
Definition oneFlight (st : AppComponent.State) : Prop :=
  (List.length (AppComponent.suspended st) <= 1)%nat
  /\ (AppComponent.isProcessing st = true <-> AppComponent.suspended st <> []).

(** The angles the pose targets span: from the sharpest bend of the right
    forearm (-2.0) to that of the left forearm (1.5). *)
Definition angleInRange (a : R) : Prop := -2 <= a <= 1.5.

Definition rotationInRange (e : THREE.Euler) : Prop :=
  angleInRange (THREE.x e) /\ angleInRange (THREE.y e) /\ angleInRange (THREE.z e).

Definition rigInRange (humanoid : VRMAvatar.VRMHumanoid) : Prop :=
  forall b node,
    VRMAvatar.getRawBoneNode humanoid b = Some node ->
    rotationInRange (THREE.rotation node).

(** * Properties *)

(** ** The smoothing primitive *)

Lemma lerp_convex (x y t : R) :
  THREE.MathUtils.lerp x y t = (1 - t) * x + t * y.
Proof. unfold THREE.MathUtils.lerp. ring. Qed.

Lemma lerp_fixed (y t : R) : THREE.MathUtils.lerp y y t = y.
Proof. unfold THREE.MathUtils.lerp. ring. Qed.

Lemma lerp_error (x y t : R) :
  THREE.MathUtils.lerp x y t - y = (1 - t) * (x - y).
Proof. unfold THREE.MathUtils.lerp. ring. Qed.

Lemma clamp_unit (v : R) : Rmin 1 (Rmax 0 v) = clamp v 0 1.
Proof.
  unfold clamp, Rmin, Rmax.
  repeat (destruct (Rle_dec _ _)); lra.
Qed.

Lemma clamp_unit_bounds (v : R) : 0 <= clamp v 0 1 <= 1.
Proof.
  unfold clamp, Rmin, Rmax.
  repeat (destruct (Rle_dec _ _)); lra.
Qed.

(** ** The accumulation loop *)

Lemma skipn_nth_error (d : list Z) :
  forall i a, nth_error d i = Some a -> skipn i d = a :: skipn (S i) d.
Proof.
  induction d as [|b d IH]; intros [|i] a H; simpl in *; try discriminate.
  - now inversion H.
  - now apply IH.
Qed.

Lemma sumLoop_slice (d : Uint8Array) :
  forall n i sum, (i + n <= List.length d)%nat ->
    sumLoop d i n sum = Some (sum + total (firstn n (skipn i d)))%Z.
Proof.
  induction n as [|n IH]; intros i sum Hlen; cbn [sumLoop].
  - f_equal. unfold total. simpl. lia.
  - destruct (nth_error d i) as [a|] eqn:Ha.
    + rewrite (skipn_nth_error d i a Ha). cbn [firstn].
      rewrite IH by lia. f_equal. unfold total. cbn [fold_right]. lia.
    + apply nth_error_None in Ha. lia.
Qed.

Lemma sumLoop_short (d : Uint8Array) :
  forall n i sum, (i <= List.length d < i + n)%nat -> sumLoop d i n sum = None.
Proof.
  induction n as [|n IH]; intros i sum Hlen; simpl.
  - lia.
  - destruct (nth_error d i) as [a|] eqn:Ha; [|reflexivity].
    apply IH.
    assert (i < List.length d)%nat by (apply nth_error_Some; congruence).
    lia.
Qed.

Lemma slice_length (d : Uint8Array) (startBin endBin : nat) :
  (endBin <= List.length d)%nat ->
  List.length (slice d startBin endBin) = (endBin - startBin)%nat.
Proof.
  intros H. unfold slice.
  rewrite length_firstn, length_skipn. lia.
Qed.

Lemma averageBins_slice (d : Uint8Array) (startBin endBin : nat) :
  (startBin <= endBin <= List.length d)%nat ->
  averageBins d startBin endBin = Some (average (slice d startBin endBin)).
Proof.
  intros H. unfold averageBins, average.
  rewrite sumLoop_slice by lia.
  rewrite slice_length by lia.
  reflexivity.
Qed.

Lemma sumLoop_constant (d : Uint8Array) (c : Z) :
  forall n i sum,
    (forall j, (i <= j < i + n)%nat -> nth_error d j = Some c) ->
    sumLoop d i n sum = Some (sum + Z.of_nat n * c)%Z.
Proof.
  induction n as [|n IH]; intros i sum H.
  - simpl. f_equal. lia.
  - cbn [sumLoop]. rewrite (H i) by lia.
    rewrite IH by (intros j Hj; apply H; lia).
    f_equal. lia.
Qed.

Lemma averageBins_constant (d : Uint8Array) (startBin endBin : nat) (c : Z) :
  (startBin < endBin)%nat ->
  constantWindow d startBin endBin c ->
  averageBins d startBin endBin = Some (IZR c).
Proof.
  intros Hlt Hc. unfold averageBins.
  rewrite (sumLoop_constant d c) by (intros j Hj; apply Hc; lia).
  f_equal. rewrite Z.add_0_l, mult_IZR, <- INR_IZR_INZ.
  field. apply not_0_INR. lia.
Qed.

Example sumLoop_inside : sumLoop [10; 20; 30; 40]%Z 1 2 0 = Some 50%Z.
Proof. reflexivity. Qed.

Example sumLoop_past_the_end : sumLoop [10; 20; 30; 40]%Z 2 3 0 = None.
Proof. reflexivity. Qed.

Example sumLoop_rig_window : sumLoop (constantFrame 200) 2 (30 - 2) 0 = Some 5600%Z.
Proof. reflexivity. Qed.

Example volume_short_frame : VRMAvatar.volume (repeat 200%Z 16) = None.
Proof. reflexivity. Qed.

(** ** C6 *)

Example getAvatarState_playing_wins :
  App.getAvatarState (playing (constantFrame 0)) true true = App.speaking.
Proof. reflexivity. Qed.

Example getAvatarState_at_rest :
  App.getAvatarState stopped false false = App.idle.
Proof. reflexivity. Qed.

(** C6. For every combination of the three booleans (audio is playing, a
    request is in flight, the user is typing) the derived state is
    speaking when audio is playing, else thinking (awaiting the response)
    when a request is in flight, else typing when the user is typing, else
    idle. *)
Theorem getAvatarState_precedence (audioState : AudioState)
    (isProcessing isUserTyping : bool) :
  App.getAvatarState audioState isProcessing isUserTyping =
    match isPlaying audioState, isProcessing, isUserTyping with
    | true, _, _ => App.speaking
    | false, true, _ => App.thinking
    | false, false, true => App.typing
    | false, false, false => App.idle
    end.
Proof.
  unfold App.getAvatarState.
  destruct (isPlaying audioState), isProcessing, isUserTyping; reflexivity.
Qed.

(** ** The rig driver's volume *)

Lemma constantFrame_window (c : Z) (startBin endBin : nat) :
  (endBin <= frequencyBinCount)%nat ->
  constantWindow (constantFrame c) startBin endBin c.
Proof.
  intros H i Hi. unfold constantFrame.
  apply nth_error_repeat. lia.
Qed.

Lemma constantFrame_wellFormed (c : Z) :
  (0 <= c <= 255)%Z -> wellFormedFrame (constantFrame c).
Proof.
  intros Hc. unfold wellFormedFrame, constantFrame. split.
  - apply repeat_length.
  - apply Forall_forall. intros d Hd. apply repeat_spec in Hd. now subst d.
Qed.

Lemma VRMAvatar_volume_slice (dataArray : Uint8Array) :
  (30 <= List.length dataArray)%nat ->
  VRMAvatar.volume dataArray = Some (spec_voiceEnergy 2 30 255 3.5 dataArray).
Proof.
  intros H. unfold VRMAvatar.volume, spec_voiceEnergy.
  rewrite averageBins_slice by lia.
  replace 1.0 with 1 by lra.
  now rewrite clamp_unit.
Qed.

Lemma VRMAvatar_volume_200 (dataArray : Uint8Array) :
  constantWindow dataArray 2 30 200 -> VRMAvatar.volume dataArray = Some 1.
Proof.
  intros Hc. unfold VRMAvatar.volume.
  rewrite (averageBins_constant dataArray 2 30 200) by (try lia; assumption).
  f_equal. unfold Rmin, Rmax.
  repeat (destruct (Rle_dec _ _)); lra.
Qed.

(** ** The pose controller on partial rigs *)

Lemma rotateBone_absent (humanoid : VRMAvatar.VRMHumanoid)
    (boneName : VRMAvatar.VRMHumanBoneName) (x y z speed : R) :
  VRMAvatar.getRawBoneNode humanoid boneName = None ->
  VRMAvatar.rotateBone humanoid boneName x y z speed = Done humanoid.
Proof.
  intros H. unfold VRMAvatar.rotateBone. now rewrite H.
Qed.

Lemma rotateBone_present (humanoid : VRMAvatar.VRMHumanoid)
    (boneName : VRMAvatar.VRMHumanBoneName) (x y z speed : R)
    (node : THREE.Object3D) :
  VRMAvatar.getRawBoneNode humanoid boneName = Some node ->
  VRMAvatar.rotateBone humanoid boneName x y z speed =
  Done (VRMAvatar.setNodeRotation humanoid boneName node
          {| THREE.x := THREE.MathUtils.lerp (THREE.x (THREE.rotation node)) x speed;
             THREE.y := THREE.MathUtils.lerp (THREE.y (THREE.rotation node)) y speed;
             THREE.z := THREE.MathUtils.lerp (THREE.z (THREE.rotation node)) z speed |}).
Proof.
  intros H. unfold VRMAvatar.rotateBone. now rewrite H.
Qed.

Lemma rotateBone_done (humanoid : VRMAvatar.VRMHumanoid)
    (boneName : VRMAvatar.VRMHumanBoneName) (x y z speed : R) :
  exists h', VRMAvatar.rotateBone humanoid boneName x y z speed = Done h'
             /\ sameBones humanoid h'.
Proof.
  destruct (VRMAvatar.getRawBoneNode humanoid boneName) as [node|] eqn:Hn.
  - eexists. split; [apply rotateBone_present; eassumption|].
    intros b. unfold VRMAvatar.getRawBoneNode, VRMAvatar.setNodeRotation in *.
    destruct (VRMAvatar.VRMHumanBoneName_eq_dec b boneName) as [->|]; [|tauto].
    rewrite Hn. split; discriminate.
  - exists humanoid. split; [now apply rotateBone_absent|]. intros b. tauto.
Qed.

Lemma rotateBones_done (calls : list VRMAvatar.BoneCall) :
  forall humanoid,
  exists h', VRMAvatar.rotateBones humanoid calls = Done h'
             /\ sameBones humanoid h'.
Proof.
  induction calls as [|c rest IH]; intros humanoid; cbn [VRMAvatar.rotateBones].
  - exists humanoid. split; [reflexivity|]. intros b. tauto.
  - destruct (rotateBone_done humanoid (VRMAvatar.boneName c) (VRMAvatar.tx c)
                (VRMAvatar.ty c) (VRMAvatar.tz c) (VRMAvatar.speed c))
      as (h1 & -> & H1).
    destruct (IH h1) as (h2 & H2 & H12).
    exists h2. split; [exact H2|].
    intros b. rewrite (H1 b). apply H12.
Qed.

Lemma rotateBones_all_absent (calls : list VRMAvatar.BoneCall)
    (humanoid : VRMAvatar.VRMHumanoid) :
  (forall c, In c calls ->
     VRMAvatar.getRawBoneNode humanoid (VRMAvatar.boneName c) = None) ->
  VRMAvatar.rotateBones humanoid calls = Done humanoid.
Proof.
  induction calls as [|c rest IH]; intros H; cbn [VRMAvatar.rotateBones].
  - reflexivity.
  - rewrite rotateBone_absent by (apply H; now left).
    apply IH. intros c' Hc'. apply H. now right.
Qed.

Lemma proceduralAnimation_done (avatarState : App.AvatarState) (t : R)
    (vrm : VRMAvatar.VRM) :
  exists h', VRMAvatar.proceduralAnimation avatarState t vrm =
               Done {| VRMAvatar.humanoid := h';
                       VRMAvatar.expressionManager := VRMAvatar.expressionManager vrm |}
             /\ sameBones (VRMAvatar.humanoid vrm) h'.
Proof.
  unfold VRMAvatar.proceduralAnimation.
  destruct (rotateBones_done (VRMAvatar.poseCalls avatarState t) (VRMAvatar.humanoid vrm))
    as (h' & -> & Hs).
  exists h'. split; [reflexivity|exact Hs].
Qed.

(** ** C8 *)

Lemma ticks_S (target factor : R) (n : nat) (current : R) :
  ticks target factor (S n) current =
  THREE.MathUtils.lerp (ticks target factor n current) target factor.
Proof. reflexivity. Qed.

Lemma ticks_shift (target factor : R) (n : nat) (current : R) :
  ticks target factor n (THREE.MathUtils.lerp current target factor) =
  ticks target factor (S n) current.
Proof.
  induction n as [|n IH]; [reflexivity|].
  rewrite ticks_S, IH. reflexivity.
Qed.

Lemma ticks_closed_form (target factor : R) (n : nat) (current : R) :
  ticks target factor n current - target = (1 - factor) ^ n * (current - target).
Proof.
  induction n as [|n IH].
  - unfold ticks. simpl. ring.
  - rewrite ticks_S, lerp_error, IH. simpl. ring.
Qed.

Lemma ticks_distance (target factor : R) (n : nat) (current : R) :
  0 < factor <= 1 ->
  Rabs (ticks target factor n current - target) =
  (1 - factor) ^ n * Rabs (current - target).
Proof.
  intros Hf. rewrite ticks_closed_form, Rabs_mult.
  f_equal. apply Rabs_pos_eq, pow_le. lra.
Qed.

Lemma rotateBoneTicks_present (boneName : VRMAvatar.VRMHumanBoneName)
    (x y z speed : R) (n : nat) :
  forall humanoid node,
    VRMAvatar.getRawBoneNode humanoid boneName = Some node ->
    exists h' node',
      VRMAvatar.rotateBoneTicks n humanoid boneName x y z speed = Done h'
      /\ VRMAvatar.getRawBoneNode h' boneName = Some node'
      /\ THREE.rotation node' =
         {| THREE.x := ticks x speed n (THREE.x (THREE.rotation node));
            THREE.y := ticks y speed n (THREE.y (THREE.rotation node));
            THREE.z := ticks z speed n (THREE.z (THREE.rotation node)) |}.
Proof.
  induction n as [|n IH]; intros humanoid node Hn; cbn [VRMAvatar.rotateBoneTicks].
  - exists humanoid, node. split; [reflexivity|]. split; [exact Hn|].
    unfold ticks. cbn. now destruct (THREE.rotation node).
  - rewrite (rotateBone_present humanoid boneName x y z speed node Hn). cbn [bind].
    set (rot := {| THREE.x := _; THREE.y := _; THREE.z := _ |}).
    set (node1 := {| THREE.position := THREE.position node;
                     THREE.rotation := rot;
                     THREE.scale := THREE.scale node |}).
    assert (H1 : VRMAvatar.getRawBoneNode
                   (VRMAvatar.setNodeRotation humanoid boneName node rot) boneName =
                 Some node1).
    { unfold VRMAvatar.getRawBoneNode, VRMAvatar.setNodeRotation.
      destruct (VRMAvatar.VRMHumanBoneName_eq_dec boneName boneName) as [_|Hne];
        [reflexivity|now elim Hne]. }
    destruct (IH _ node1 H1) as (h' & node' & Hrun & Hn' & Hrot).
    exists h', node'. split; [exact Hrun|]. split; [exact Hn'|].
    rewrite Hrot. subst node1 rot. cbn [THREE.rotation THREE.x THREE.y THREE.z].
    now rewrite !ticks_shift.
Qed.

(** C8. For every tracked value, fixed target and factor in (0,1], each
    tick multiplies the distance to the target by (1 - factor), which lies
    in [0,1); so the distance never grows, strictly shrinks while it is
    not zero, the value never crosses the target, and the distance tends
    to 0.  The three angles of a joint driven by the same [rotateBone]
    statement frame after frame are such tracked values. *)
Theorem lerp_ticks_converge (current target factor : R)
    (Hfactor : 0 < factor <= 1) :
  0 <= 1 - factor < 1
  /\ (forall n, Rabs (ticks target factor (S n) current - target) =
                (1 - factor) * Rabs (ticks target factor n current - target))
  /\ (forall n, Rabs (ticks target factor (S n) current - target) <=
                Rabs (ticks target factor n current - target))
  /\ (forall n, ticks target factor n current <> target ->
                Rabs (ticks target factor (S n) current - target) <
                Rabs (ticks target factor n current - target))
  /\ (forall n, 0 <= (ticks target factor n current - target) * (current - target))
  /\ (forall eps, 0 < eps -> exists N, forall n, (N <= n)%nat ->
                Rabs (ticks target factor n current - target) < eps)
  /\ (forall humanoid boneName node x y z n,
      VRMAvatar.getRawBoneNode humanoid boneName = Some node ->
      exists h' node',
        VRMAvatar.rotateBoneTicks n humanoid boneName x y z factor = Done h'
        /\ VRMAvatar.getRawBoneNode h' boneName = Some node'
        /\ THREE.rotation node' =
           {| THREE.x := ticks x factor n (THREE.x (THREE.rotation node));
              THREE.y := ticks y factor n (THREE.y (THREE.rotation node));
              THREE.z := ticks z factor n (THREE.z (THREE.rotation node)) |}).
Proof.
  assert (Hstep : forall n, Rabs (ticks target factor (S n) current - target) =
            (1 - factor) * Rabs (ticks target factor n current - target)).
  { intros n. rewrite !ticks_distance by assumption. simpl. ring. }
  split; [lra|]. split; [exact Hstep|].
  split; [|split; [|split; [|split]]].
  - intros n. rewrite Hstep.
    pose proof (Rabs_pos (ticks target factor n current - target)). nra.
  - intros n Hne. rewrite Hstep.
    assert (0 < Rabs (ticks target factor n current - target))
      by (apply Rabs_pos_lt; lra).
    nra.
  - intros n. rewrite ticks_closed_form.
    assert (0 <= (1 - factor) ^ n) by (apply pow_le; lra).
    replace ((1 - factor) ^ n * (current - target) * (current - target))
      with ((1 - factor) ^ n * ((current - target) * (current - target))) by ring.
    apply Rmult_le_pos; [assumption|]. apply Rle_0_sqr.
  - intros eps Heps.
    destruct (Req_dec current target) as [->|Hne].
    + exists O. intros n _. rewrite ticks_distance by assumption.
      rewrite Rminus_diag, Rabs_R0, Rmult_0_r. assumption.
    + assert (Hd : 0 < Rabs (current - target)) by (apply Rabs_pos_lt; lra).
      destruct (pow_lt_1_zero (1 - factor)) with (y := eps / Rabs (current - target))
        as [N HN].
      * rewrite Rabs_pos_eq; lra.
      * apply Rdiv_lt_0_compat; assumption.
      * exists N. intros n Hn. rewrite ticks_distance by assumption.
        specialize (HN n Hn).
        rewrite Rabs_pos_eq in HN by (apply pow_le; lra).
        apply (Rmult_lt_compat_r (Rabs (current - target))) in HN; [|assumption].
        replace (eps / Rabs (current - target) * Rabs (current - target))
          with eps in HN by (field; lra).
        exact HN.
  - intros humanoid boneName node x y z n Hn.
    now apply rotateBoneTicks_present.
Qed.

Lemma lerp_ticks_converge_witness :
  0 <= 1 - 0.05 < 1
  /\ (forall n, Rabs (ticks 0.9 0.05 (S n) 0 - 0.9) <=
                Rabs (ticks 0.9 0.05 n 0 - 0.9))
  /\ (forall eps, 0 < eps -> exists N, forall n, (N <= n)%nat ->
                Rabs (ticks 0.9 0.05 n 0 - 0.9) < eps).
Proof.
  destruct (lerp_ticks_converge 0 0.9 0.05) as (Hr & _ & Hmono & _ & _ & Hlim & _).
  - lra.
  - split; [exact Hr|]. split; [exact Hmono|exact Hlim].
Defined.

(** ** The lip-sync step, branch by branch *)

Ltac unfold_lipSync :=
  unfold VRMAvatar.lipSync, VRMAvatar.expressionManager_getValue,
    VRMAvatar.expressionManager_setValue.

Lemma lipSync_no_manager (audioState : AudioState) (frame : VRMAvatar.FrameState)
    (vrm : VRMAvatar.VRM) :
  VRMAvatar.expressionManager vrm = None ->
  VRMAvatar.lipSync audioState frame vrm = Done vrm.
Proof.
  intros H. unfold_lipSync. rewrite H.
  destruct (isPlaying audioState), (analyser audioState); reflexivity.
Qed.

Lemma lipSync_silent (audioState : AudioState) (frame : VRMAvatar.FrameState)
    (vrm : VRMAvatar.VRM) (em : VRMAvatar.VRMExpressionManager) :
  silent audioState ->
  VRMAvatar.expressionManager vrm = Some em ->
  VRMAvatar.lipSync audioState frame vrm =
  Done {| VRMAvatar.humanoid := VRMAvatar.humanoid vrm;
          VRMAvatar.expressionManager :=
            Some (VRMAvatar.setValue
                    (VRMAvatar.setValue em "aa"
                       (THREE.MathUtils.lerp (VRMAvatar.getValue em "aa") 0 0.2))
                    "blink"
                    (if Rgt_dec (VRMAvatar.random frame) 0.992 then 1
                     else THREE.MathUtils.lerp (VRMAvatar.getValue em "blink") 0 0.2)) |}.
Proof.
  intros Hs Hem. unfold_lipSync.
  assert (Hbranch :
    match isPlaying audioState, analyser audioState with
    | true, Some _ => False | _, _ => True end).
  { destruct Hs as [-> | ->]; [exact I|]. now destruct (isPlaying audioState). }
  destruct (isPlaying audioState), (analyser audioState); try contradiction;
    rewrite Hem; cbn; destruct (Rgt_dec (VRMAvatar.random frame) 0.992); reflexivity.
Qed.

Lemma lipSync_playing (audioState : AudioState) (frame : VRMAvatar.FrameState)
    (vrm : VRMAvatar.VRM) (em : VRMAvatar.VRMExpressionManager)
    (node : AnalyserNode) (volume : R) :
  isPlaying audioState = true ->
  analyser audioState = Some node ->
  VRMAvatar.expressionManager vrm = Some em ->
  VRMAvatar.volume (getByteFrequencyData node) = Some volume ->
  VRMAvatar.lipSync audioState frame vrm =
  Done {| VRMAvatar.humanoid := VRMAvatar.humanoid vrm;
          VRMAvatar.expressionManager :=
            Some (if Rgt_dec volume 0.6
                  then VRMAvatar.setValue (VRMAvatar.setValue em "aa" volume) "blink"
                         (THREE.MathUtils.lerp (VRMAvatar.getValue em "blink") 0.5 0.2)
                  else VRMAvatar.setValue em "aa" volume) |}.
Proof.
  intros Hp Ha Hem Hv. unfold_lipSync.
  rewrite Hp, Ha, Hem, Hv. cbn.
  destruct (Rgt_dec volume 0.6); reflexivity.
Qed.

Lemma lipSync_no_TypeError (audioState : AudioState) (frame : VRMAvatar.FrameState)
    (vrm : VRMAvatar.VRM) :
  VRMAvatar.lipSync audioState frame vrm <> TypeError.
Proof.
  destruct (VRMAvatar.expressionManager vrm) as [em|] eqn:Hem.
  - unfold_lipSync. rewrite Hem.
    destruct (isPlaying audioState), (analyser audioState) as [node|]; cbn;
      try (destruct (Rgt_dec (VRMAvatar.random frame) 0.992); discriminate).
    destruct (VRMAvatar.volume (getByteFrequencyData node)) as [v|]; cbn;
      [|discriminate].
    destruct (Rgt_dec v 0.6); discriminate.
  - rewrite lipSync_no_manager by assumption. discriminate.
Qed.

(** ** C1 *)

(** C1. On a frame of at least 30 bins (the application's analyser
    delivers 128), with the analyser present and [isPlaying] true, the
    rig driver's volume is
    clamp((average of the samples of bins [2,30)) / 255 * 3.5, 0, 1), and
    it is the weight the frame gives to the mouth expression; when the
    samples of bins [2,30) are all 200, it is exactly 1. *)
Theorem VRMAvatar_volume_envelope (dataArray : Uint8Array)
    (Hbins : (30 <= List.length dataArray)%nat) :
  VRMAvatar.volume dataArray = Some (spec_voiceEnergy 2 30 255 3.5 dataArray)
  /\ (forall audioState node frame vrm em,
      isPlaying audioState = true ->
      analyser audioState = Some node ->
      getByteFrequencyData node = dataArray ->
      VRMAvatar.expressionManager vrm = Some em ->
      exists em',
        VRMAvatar.lipSync audioState frame vrm =
          Done {| VRMAvatar.humanoid := VRMAvatar.humanoid vrm;
                  VRMAvatar.expressionManager := Some em' |}
        /\ VRMAvatar.getValue em' "aa" = spec_voiceEnergy 2 30 255 3.5 dataArray)
  /\ (constantWindow dataArray 2 30 200 -> VRMAvatar.volume dataArray = Some 1).
Proof.
  split; [now apply VRMAvatar_volume_slice|].
  split; [|apply VRMAvatar_volume_200].
  intros audioState node frame vrm em Hp Ha Hd Hem.
  eexists. split.
  - apply (lipSync_playing audioState frame vrm em node
             (spec_voiceEnergy 2 30 255 3.5 dataArray)); try assumption.
    rewrite Hd. now apply VRMAvatar_volume_slice.
  - destruct (Rgt_dec _ 0.6); reflexivity.
Qed.

Lemma VRMAvatar_volume_envelope_witness :
  VRMAvatar.volume (constantFrame 200) =
    Some (spec_voiceEnergy 2 30 255 3.5 (constantFrame 200))
  /\ VRMAvatar.volume (constantFrame 200) = Some 1.
Proof.
  destruct (VRMAvatar_volume_envelope (constantFrame 200)) as (He & _ & H1).
  - vm_compute. lia.
  - split; [exact He|]. apply H1, constantFrame_window. vm_compute. lia.
Defined.

(** ** C9 *)

(** C9. A [rotateBone] statement that names a joint the rig lacks returns
    the rig unchanged; the pose step of any frame completes, whatever
    joints are missing, and creates none; without an expression manager
    the lip-sync step returns the instance unchanged; and no frame of the
    callback throws. *)
Theorem partial_rig_tolerated :
  (forall humanoid boneName x y z speed,
      VRMAvatar.getRawBoneNode humanoid boneName = None ->
      VRMAvatar.rotateBone humanoid boneName x y z speed = Done humanoid)
  /\ (forall avatarState t vrm,
      exists h', VRMAvatar.proceduralAnimation avatarState t vrm =
                   Done {| VRMAvatar.humanoid := h';
                           VRMAvatar.expressionManager :=
                             VRMAvatar.expressionManager vrm |}
                 /\ sameBones (VRMAvatar.humanoid vrm) h')
  /\ (forall audioState frame vrm,
      VRMAvatar.expressionManager vrm = None ->
      VRMAvatar.lipSync audioState frame vrm = Done vrm)
  /\ (forall update audioState avatarState frame vrm,
      VRMAvatar.useFrame update audioState avatarState frame vrm <> TypeError).
Proof.
  split; [exact rotateBone_absent|].
  split; [exact proceduralAnimation_done|].
  split; [exact lipSync_no_manager|].
  intros update audioState avatarState frame [vrm|]; cbn [VRMAvatar.useFrame];
    [|discriminate].
  destruct (proceduralAnimation_done avatarState (VRMAvatar.elapsedTime frame)
              (update vrm (VRMAvatar.delta frame))) as (h' & -> & _).
  cbn [bind].
  pose proof (lipSync_no_TypeError audioState frame
                {| VRMAvatar.humanoid := h';
                   VRMAvatar.expressionManager :=
                     VRMAvatar.expressionManager (update vrm (VRMAvatar.delta frame)) |})
    as Hl.
  destruct (VRMAvatar.lipSync audioState frame _); cbn; congruence.
Qed.

Lemma partial_rig_tolerated_witness :
  VRMAvatar.rotateBone noBones VRMAvatar.Head 0.1 0.3 (-0.1) 0.05 = Done noBones
  /\ VRMAvatar.lipSync (playing (constantFrame 200)) frame0 bodyOnly = Done bodyOnly.
Proof.
  destruct partial_rig_tolerated as (Hbone & _ & Hface & _).
  split; [apply Hbone|apply Hface]; reflexivity.
Defined.

(** ** C7 *)

(** C7. On a frame of the silent branch (audio not playing, or no
    analyser) of a rig with an expression manager, the blink weight
    becomes 1 when the frame's random sample exceeds 0.992 and
    lerp(blink, 0, 0.2) otherwise; the step reads nothing of the clock:
    two frames with the same sample give the same result. *)
Theorem blink_process (audioState : AudioState) (frame : VRMAvatar.FrameState)
    (vrm : VRMAvatar.VRM) (em : VRMAvatar.VRMExpressionManager)
    (Hsilent : silent audioState)
    (Hem : VRMAvatar.expressionManager vrm = Some em) :
  (exists em',
      VRMAvatar.lipSync audioState frame vrm =
        Done {| VRMAvatar.humanoid := VRMAvatar.humanoid vrm;
                VRMAvatar.expressionManager := Some em' |}
      /\ VRMAvatar.getValue em' "blink" =
         if Rgt_dec (VRMAvatar.random frame) 0.992 then 1
         else THREE.MathUtils.lerp (VRMAvatar.getValue em "blink") 0 0.2)
  /\ (forall frame', VRMAvatar.random frame' = VRMAvatar.random frame ->
      VRMAvatar.lipSync audioState frame' vrm = VRMAvatar.lipSync audioState frame vrm).
Proof.
  split.
  - eexists. split; [apply (lipSync_silent audioState frame vrm em); assumption|].
    cbn. reflexivity.
  - intros frame' Hr.
    rewrite !(lipSync_silent audioState _ vrm em) by assumption.
    now rewrite Hr.
Qed.

Lemma blink_process_witness :
  (exists em',
      VRMAvatar.lipSync stopped frame0 (faceOnly openMouthManager) =
        Done {| VRMAvatar.humanoid := noBones;
                VRMAvatar.expressionManager := Some em' |}
      /\ VRMAvatar.getValue em' "blink" =
         if Rgt_dec 0 0.992 then 1 else THREE.MathUtils.lerp 1 0 0.2)
  /\ (forall frame', VRMAvatar.random frame' = 0 ->
      VRMAvatar.lipSync stopped frame' (faceOnly openMouthManager) =
      VRMAvatar.lipSync stopped frame0 (faceOnly openMouthManager)).
Proof.
  apply (blink_process stopped frame0 (faceOnly openMouthManager) openMouthManager).
  - left. reflexivity.
  - reflexivity.
Defined.

(** ** The morph driver, branch by branch *)

Lemma setInfluence_same (influences : list R) :
  forall index current v,
    nth_error influences index = Some current ->
    nth_error (MMDModel.setInfluence influences index v) index = Some v.
Proof.
  induction influences as [|a rest IH]; intros [|i] current v H; simpl in *;
    try discriminate.
  - reflexivity.
  - now apply (IH i current).
Qed.

Lemma setInfluence_length (influences : list R) :
  forall index v,
    List.length (MMDModel.setInfluence influences index v) = List.length influences.
Proof.
  induction influences as [|a rest IH]; intros [|i] v; simpl; auto.
Qed.

Lemma MMDModel_reset (audioState : AudioState) (influences : list R)
    (index : nat) (current : R) :
  isPlaying audioState = false ->
  nth_error influences index = Some current ->
  MMDModel.useFrame audioState (morphMesh influences index) =
  Done (morphMesh
          (MMDModel.setInfluence influences index
             (THREE.MathUtils.lerp current 0 0.2)) index).
Proof.
  intros Hp Hc. unfold MMDModel.useFrame, MMDModel.lerpInfluence, morphMesh.
  cbn. rewrite Hp, Hc. rewrite orb_true_r. reflexivity.
Qed.

Lemma MMDModel_playing (audioState : AudioState) (node : AnalyserNode)
    (influences : list R) (index : nat) (current value : R) :
  isPlaying audioState = true ->
  analyser audioState = Some node ->
  MMDModel.value (getByteFrequencyData node) = Some value ->
  nth_error influences index = Some current ->
  MMDModel.useFrame audioState (morphMesh influences index) =
  Done (morphMesh
          (MMDModel.setInfluence influences index
             (THREE.MathUtils.lerp current value 0.4)) index).
Proof.
  intros Hp Ha Hv Hc. unfold MMDModel.useFrame, MMDModel.lerpInfluence, morphMesh.
  rewrite Hp, Ha.
  cbn [truthy negb orb deref bind MMDModel.meshRef MMDModel.morphIndex
       MMDModel.morphTargetInfluences].
  rewrite Hv, Hc. reflexivity.
Qed.

Lemma MMDModel_frozen (audioState : AudioState) (st : MMDModel.State) :
  isPlaying audioState = true ->
  analyser audioState = None ->
  MMDModel.useFrame audioState st = Done st.
Proof.
  intros Hp Ha. unfold MMDModel.useFrame. rewrite Hp, Ha. cbn.
  rewrite !orb_true_r, andb_false_r. reflexivity.
Qed.

(** ** Decay of the mouth weight *)

Lemma pow_le_one (x : R) (n : nat) : 0 <= x <= 1 -> 0 <= x ^ n <= 1.
Proof.
  intros Hx. induction n as [|n IH]; simpl; [lra|nra].
Qed.

Lemma decay_21 : (1 - 0.2) ^ 21 < 0.01.
Proof. simpl. lra. Qed.

Lemma decay_20 : 0.01 <= (1 - 0.2) ^ 20.
Proof. simpl. lra. Qed.

Lemma decay_below (n : nat) (current : R) :
  (21 <= n)%nat -> 0 <= current <= 1 ->
  0 <= ticks 0 0.2 n current < 0.01.
Proof.
  intros Hn Hc.
  pose proof (ticks_closed_form 0 0.2 n current) as Hcf.
  rewrite !Rminus_0_r in Hcf. rewrite Hcf.
  replace n with (21 + (n - 21))%nat by lia.
  rewrite pow_add.
  pose proof (pow_le_one (1 - 0.2) (n - 21)) as Hk.
  pose proof decay_21 as H21.
  assert (0 <= (1 - 0.2) ^ 21) by (apply pow_le; lra).
  assert (0 <= (1 - 0.2) ^ (n - 21) <= 1) as Hk' by (apply Hk; lra).
  set (p := (1 - 0.2) ^ 21) in *. set (q := (1 - 0.2) ^ (n - 21)) in *.
  assert (0 <= p * q <= p) by nra.
  split; [nra|]. nra.
Qed.

Section SilentFrames.

Variable update : VRMAvatar.VRM -> R -> VRMAvatar.VRM.

(** The library's update does not touch the expression weights. *)
Hypothesis update_expressions :
  forall vrm delta,
    VRMAvatar.expressionManager (update vrm delta) = VRMAvatar.expressionManager vrm.

Lemma useFrame_silent (audioState : AudioState) (avatarState : App.AvatarState)
    (frame : VRMAvatar.FrameState) (vrm : VRMAvatar.VRM)
    (em : VRMAvatar.VRMExpressionManager) :
  silent audioState ->
  VRMAvatar.expressionManager vrm = Some em ->
  exists vrm' em',
    VRMAvatar.useFrame update audioState avatarState frame (Some vrm) = Done (Some vrm')
    /\ VRMAvatar.expressionManager vrm' = Some em'
    /\ VRMAvatar.getValue em' "aa" =
       THREE.MathUtils.lerp (VRMAvatar.getValue em "aa") 0 0.2.
Proof.
  intros Hs Hem. cbn [VRMAvatar.useFrame].
  destruct (proceduralAnimation_done avatarState (VRMAvatar.elapsedTime frame)
              (update vrm (VRMAvatar.delta frame))) as (h' & -> & _).
  cbn [bind]. rewrite update_expressions, Hem.
  rewrite (lipSync_silent audioState frame _ em) by (assumption || reflexivity).
  cbn [bind]. do 2 eexists. split; [reflexivity|]. split; reflexivity.
Qed.

Lemma useFrames_silent (frames : list (AudioState * App.AvatarState * VRMAvatar.FrameState)) :
  forall vrm em,
    Forall silentFrame frames ->
    VRMAvatar.expressionManager vrm = Some em ->
    exists vrm' em',
      VRMAvatar.useFrames update frames (Some vrm) = Done (Some vrm')
      /\ VRMAvatar.expressionManager vrm' = Some em'
      /\ VRMAvatar.getValue em' "aa" =
         ticks 0 0.2 (List.length frames) (VRMAvatar.getValue em "aa").
Proof.
  induction frames as [|[[audioState avatarState] frame] rest IH];
    intros vrm em Hall Hem.
  - exists vrm, em. repeat split; assumption || reflexivity.
  - inversion Hall as [|? ? Hs Hrest]; subst.
    destruct (useFrame_silent audioState avatarState frame vrm em Hs Hem)
      as (vrm1 & em1 & Hf & Hem1 & Haa).
    destruct (IH vrm1 em1 Hrest Hem1) as (vrm' & em' & Hfs & Hem' & Haa').
    exists vrm', em'. cbn [VRMAvatar.useFrames]. rewrite Hf. cbn [bind].
    repeat split; try assumption.
    rewrite Haa', Haa. cbn [List.length]. apply ticks_shift.
Qed.

End SilentFrames.

Lemma MMDModel_useFrames_reset (audioStates : list AudioState) (index : nat) :
  forall influences current,
    Forall (fun a => isPlaying a = false) audioStates ->
    nth_error influences index = Some current ->
    exists influences',
      MMDModel.useFrames audioStates (morphMesh influences index) =
        Done (morphMesh influences' index)
      /\ nth_error influences' index =
         Some (ticks 0 0.2 (List.length audioStates) current).
Proof.
  induction audioStates as [|a rest IH]; intros influences current Hall Hc.
  - exists influences. split; [reflexivity|exact Hc].
  - inversion Hall as [|? ? Hp Hrest]; subst.
    cbn [MMDModel.useFrames].
    rewrite (MMDModel_reset a influences index current Hp Hc). cbn [bind].
    destruct (IH _ _ Hrest (setInfluence_same influences index current
                              (THREE.MathUtils.lerp current 0 0.2) Hc))
      as (influences' & Hfs & Hn).
    exists influences'. split; [exact Hfs|].
    rewrite Hn. cbn [List.length]. now rewrite ticks_shift.
Qed.

(** ** C2 *)

(** On a frame that is all 200 the rig driver takes a closed mouth (weight
    0) straight to the volume 1, not to lerp(0, 1, 0.4). *)
Lemma VRMAvatar_mouth_assigned :
  exists em',
    VRMAvatar.lipSync (playing (constantFrame 200)) frame0 (faceOnly restManager) =
      Done (faceOnly em')
    /\ VRMAvatar.volume (constantFrame 200) = Some 1
    /\ VRMAvatar.getValue restManager "aa" = 0
    /\ VRMAvatar.getValue em' "aa" = 1
    /\ VRMAvatar.getValue em' "aa" <>
       THREE.MathUtils.lerp (VRMAvatar.getValue restManager "aa") 1 0.4.
Proof.
  assert (Hv : VRMAvatar.volume (constantFrame 200) = Some 1).
  { apply VRMAvatar_volume_200, constantFrame_window. vm_compute. lia. }
  eexists. split.
  - apply (lipSync_playing _ frame0 (faceOnly restManager) restManager
             {| getByteFrequencyData := constantFrame 200 |} 1);
      solve [reflexivity | exact Hv].
  - split; [exact Hv|]. split; [reflexivity|].
    destruct (Rgt_dec 1 0.6); cbn; unfold THREE.MathUtils.lerp; split; lra.
Qed.

(** C2 (amended). On a frame on which audio is playing and the voice
    energy is computable, the morph driver advances the mouth morph by
    lerp(current, value, 0.4), and the rig driver sets the mouth-open
    weight "aa" to the volume itself. *)
Theorem mouth_tracking (audioState : AudioState) (node : AnalyserNode)
    (Hplaying : isPlaying audioState = true)
    (Hanalyser : analyser audioState = Some node) :
  (forall influences index current value,
      MMDModel.value (getByteFrequencyData node) = Some value ->
      nth_error influences index = Some current ->
      MMDModel.useFrame audioState (morphMesh influences index) =
      Done (morphMesh
              (MMDModel.setInfluence influences index
                 (THREE.MathUtils.lerp current value 0.4)) index)
      /\ nth_error (MMDModel.setInfluence influences index
                      (THREE.MathUtils.lerp current value 0.4)) index =
         Some (THREE.MathUtils.lerp current value 0.4))
  /\ (forall frame vrm em volume,
      VRMAvatar.expressionManager vrm = Some em ->
      VRMAvatar.volume (getByteFrequencyData node) = Some volume ->
      exists em',
        VRMAvatar.lipSync audioState frame vrm =
          Done {| VRMAvatar.humanoid := VRMAvatar.humanoid vrm;
                  VRMAvatar.expressionManager := Some em' |}
        /\ VRMAvatar.getValue em' "aa" = volume).
Proof.
  split.
  - intros influences index current value Hv Hc. split.
    + now apply (MMDModel_playing audioState node).
    + now apply (setInfluence_same influences index current).
  - intros frame vrm em volume Hem Hv.
    eexists. split.
    + now apply (lipSync_playing audioState frame vrm em node volume).
    + destruct (Rgt_dec volume 0.6); reflexivity.
Qed.

Lemma mouth_tracking_witness :
  MMDModel.value (constantFrame 50) = Some 1
  /\ MMDModel.useFrame (playing (constantFrame 50)) (morphMesh [0] 0) =
     Done (morphMesh [THREE.MathUtils.lerp 0 1 0.4] 0).
Proof.
  assert (Hv : MMDModel.value (constantFrame 50) = Some 1).
  { unfold MMDModel.value.
    rewrite (averageBins_constant (constantFrame 50) 2 50 50);
      [|lia|apply constantFrame_window; vm_compute; lia].
    f_equal. unfold Rmin, Rmax. repeat (destruct (Rle_dec _ _)); lra. }
  split; [exact Hv|].
  destruct (mouth_tracking (playing (constantFrame 50))
              {| getByteFrequencyData := constantFrame 50 |}
              eq_refl eq_refl) as [Hmorph _].
  apply (Hmorph [0] 0%nat 0 1); [exact Hv|reflexivity].
Defined.

(** ** C5 *)

(** With [isPlaying] set and no analyser, the morph driver leaves an open
    mouth (influence 1) as it is; lerp(1, 0, 0.2) is 0.8. *)
Lemma MMDModel_mouth_frozen :
  analyser playingWithoutAnalyser = None
  /\ MMDModel.useFrame playingWithoutAnalyser (morphMesh [1] 0) =
     Done (morphMesh [1] 0)
  /\ nth_error [1] 0 = Some 1
  /\ 1 <> THREE.MathUtils.lerp 1 0 0.2.
Proof.
  split; [reflexivity|]. split; [now apply MMDModel_frozen|].
  split; [reflexivity|]. unfold THREE.MathUtils.lerp. lra.
Qed.

(** C5 (amended). Whenever [isPlaying] is false, both the rig driver and
    the morph driver move the mouth weight to lerp(mouth, 0, 0.2) on
    every frame; the rig driver does so as well when there is no
    analyser.  Consequently, from any mouth weight in [0,1], 21 or more
    consecutive such frames leave it below 0.01 (and 20 frames from 1 do
    not). *)
Theorem mouth_closes (update : VRMAvatar.VRM -> R -> VRMAvatar.VRM)
    (Hupdate : forall vrm delta,
        VRMAvatar.expressionManager (update vrm delta) =
        VRMAvatar.expressionManager vrm) :
  (forall audioState frame vrm em,
      silent audioState ->
      VRMAvatar.expressionManager vrm = Some em ->
      exists em',
        VRMAvatar.lipSync audioState frame vrm =
          Done {| VRMAvatar.humanoid := VRMAvatar.humanoid vrm;
                  VRMAvatar.expressionManager := Some em' |}
        /\ VRMAvatar.getValue em' "aa" =
           THREE.MathUtils.lerp (VRMAvatar.getValue em "aa") 0 0.2)
  /\ (forall frames vrm em,
      Forall silentFrame frames ->
      VRMAvatar.expressionManager vrm = Some em ->
      0 <= VRMAvatar.getValue em "aa" <= 1 ->
      (21 <= List.length frames)%nat ->
      exists vrm' em',
        VRMAvatar.useFrames update frames (Some vrm) = Done (Some vrm')
        /\ VRMAvatar.expressionManager vrm' = Some em'
        /\ 0 <= VRMAvatar.getValue em' "aa" < 0.01)
  /\ (forall audioState influences index current,
      isPlaying audioState = false ->
      nth_error influences index = Some current ->
      exists influences',
        MMDModel.useFrame audioState (morphMesh influences index) =
          Done (morphMesh influences' index)
        /\ nth_error influences' index = Some (THREE.MathUtils.lerp current 0 0.2))
  /\ (forall audioStates influences index current,
      Forall (fun a => isPlaying a = false) audioStates ->
      nth_error influences index = Some current ->
      0 <= current <= 1 ->
      (21 <= List.length audioStates)%nat ->
      exists influences' final,
        MMDModel.useFrames audioStates (morphMesh influences index) =
          Done (morphMesh influences' index)
        /\ nth_error influences' index = Some final
        /\ 0 <= final < 0.01)
  /\ 0.01 <= ticks 0 0.2 20 1.
Proof.
  split; [|split; [|split; [|split]]].
  - intros audioState frame vrm em Hs Hem.
    eexists. split; [apply (lipSync_silent audioState frame vrm em); assumption|].
    reflexivity.
  - intros frames vrm em Hall Hem Hrange Hlen.
    destruct (useFrames_silent update Hupdate frames vrm em Hall Hem)
      as (vrm' & em' & Hfs & Hem' & Haa).
    exists vrm', em'. split; [exact Hfs|]. split; [exact Hem'|].
    rewrite Haa. now apply decay_below.
  - intros audioState influences index current Hp Hc.
    eexists. split;
      [apply (MMDModel_reset audioState influences index current); assumption|].
    now apply (setInfluence_same influences index current).
  - intros audioStates influences index current Hall Hc Hrange Hlen.
    destruct (MMDModel_useFrames_reset audioStates index influences current Hall Hc)
      as (influences' & Hfs & Hn).
    exists influences', (ticks 0 0.2 (List.length audioStates) current).
    split; [exact Hfs|]. split; [exact Hn|]. now apply decay_below.
  - pose proof (ticks_closed_form 0 0.2 20 1) as Hcf.
    rewrite !Rminus_0_r, Rmult_1_r in Hcf. rewrite Hcf. apply decay_20.
Qed.

Lemma mouth_closes_witness :
  exists vrm' em',
    VRMAvatar.useFrames noUpdate (repeat (stopped, App.idle, frame0) 21)
      (Some (faceOnly openMouthManager)) = Done (Some vrm')
    /\ VRMAvatar.expressionManager vrm' = Some em'
    /\ 0 <= VRMAvatar.getValue em' "aa" < 0.01.
Proof.
  destruct (mouth_closes noUpdate (fun vrm delta => eq_refl)) as (_ & Hframes & _).
  apply (Hframes _ (faceOnly openMouthManager) openMouthManager).
  - apply Forall_forall. intros p Hp. apply repeat_spec in Hp. subst p.
    left. reflexivity.
  - reflexivity.
  - cbn. lra.
  - vm_compute. lia.
Defined.

(** ** The fallback shape driver *)

Lemma Forall_slice (P : Z -> Prop) (d : Uint8Array) (startBin endBin : nat) :
  Forall P d -> Forall P (slice d startBin endBin).
Proof.
  intros H. unfold slice.
  assert (Hskip : forall i l, Forall P l -> Forall P (skipn i l)).
  { induction i as [|i IH]; intros [|a l] Hl; simpl; auto.
    inversion Hl; auto. }
  assert (Hfirst : forall n l, Forall P l -> Forall P (firstn n l)).
  { induction n as [|n IH]; intros [|a l] Hl; simpl; auto.
    inversion Hl; auto. }
  auto.
Qed.

Lemma total_bounds (window : list Z) :
  Forall (fun d => (0 <= d <= 255)%Z) window ->
  (0 <= total window <= 255 * Z.of_nat (List.length window))%Z.
Proof.
  induction 1 as [|a l Ha Hl IH]; unfold total in *; cbn [fold_right List.length]; lia.
Qed.

Lemma average_bounds (d : Uint8Array) (startBin endBin : nat) :
  (startBin < endBin <= List.length d)%nat ->
  Forall (fun d => (0 <= d <= 255)%Z) d ->
  0 <= average (slice d startBin endBin) <= 255.
Proof.
  intros Hlen Hd. unfold average.
  pose proof (total_bounds _ (Forall_slice _ d startBin endBin Hd)) as [Hlo Hhi].
  rewrite slice_length in * by lia.
  set (n := (endBin - startBin)%nat) in *.
  assert (Hn : 0 < INR n) by (apply lt_0_INR; lia).
  apply IZR_le in Hlo, Hhi. rewrite mult_IZR, <- INR_IZR_INZ in Hhi.
  split.
  - apply Rmult_le_pos; [exact Hlo|]. left. now apply Rinv_0_lt_compat.
  - apply (Rmult_le_reg_r (INR n)); [exact Hn|].
    replace (IZR (total (slice d startBin endBin)) / INR n * INR n)
      with (IZR (total (slice d startBin endBin))) by (field; lra).
    exact Hhi.
Qed.

Lemma DefaultAvatar_volume_slice (dataArray : Uint8Array) :
  (30 <= List.length dataArray)%nat ->
  DefaultAvatar.volume dataArray =
  Some (Rmin 1 (average (slice dataArray 2 30) / 100)).
Proof.
  intros H. unfold DefaultAvatar.volume.
  now rewrite averageBins_slice by lia.
Qed.

Lemma DefaultAvatar_volume_bounds (dataArray : Uint8Array) :
  wellFormedFrame dataArray ->
  exists volume, DefaultAvatar.volume dataArray = Some volume /\ 0 <= volume <= 1.
Proof.
  intros [Hlen Hbytes].
  assert (H30 : (30 <= List.length dataArray)%nat) by (rewrite Hlen; vm_compute; lia).
  eexists. split; [now apply DefaultAvatar_volume_slice|].
  pose proof (average_bounds dataArray 2 30 ltac:(lia) Hbytes) as Ha.
  unfold Rmin. destruct (Rle_dec _ _); lra.
Qed.

Lemma targets_scale (baseBlue lighterBlue : THREE.Color) (audioState : AudioState) :
  deliversBytes audioState ->
  exists targetScaleY,
    fst (DefaultAvatar.targets baseBlue lighterBlue audioState) = Some targetScaleY
    /\ 1 <= targetScaleY <= 1.5.
Proof.
  intros Hd. unfold DefaultAvatar.targets.
  destruct (isPlaying audioState); [|exists 1; cbn; split; [reflexivity|lra]].
  destruct (analyser audioState) as [node|] eqn:Ha;
    [|exists 1; cbn; split; [reflexivity|lra]].
  destruct (DefaultAvatar_volume_bounds _ (Hd node Ha)) as (v & -> & Hv).
  eexists. cbn. split; [reflexivity|lra].
Qed.

Lemma targets_silent (baseBlue lighterBlue : THREE.Color) (audioState : AudioState) :
  silent audioState ->
  DefaultAvatar.targets baseBlue lighterBlue audioState = (Some 1, baseBlue).
Proof.
  intros [Hs|Hs]; unfold DefaultAvatar.targets; rewrite Hs;
    [reflexivity|now destruct (isPlaying audioState)].
Qed.

(** The tick on a mounted mesh with a positive smoothed Y scale. *)
Lemma DefaultAvatar_tick (baseBlue lighterBlue : THREE.Color)
    (audioState : AudioState) (elapsedTime : R) (refs : DefaultAvatar.Refs)
    (mesh : THREE.Object3D) (targetScaleY : R) :
  DefaultAvatar.meshRef refs = Some mesh ->
  fst (DefaultAvatar.targets baseBlue lighterBlue audioState) = Some targetScaleY ->
  0 < THREE.MathUtils.lerp (THREE.y (THREE.scale mesh)) targetScaleY 0.2 ->
  exists refs',
    DefaultAvatar.useFrame baseBlue lighterBlue audioState elapsedTime refs = Done refs'
    /\ scaleOf refs' =
       Some (let scale_y :=
               THREE.MathUtils.lerp (THREE.y (THREE.scale mesh)) targetScaleY 0.2 in
             {| THREE.x := THREE.MathUtils.lerp (THREE.x (THREE.scale mesh))
                             (1 / sqrt scale_y) 0.2;
                THREE.y := scale_y;
                THREE.z := THREE.MathUtils.lerp (THREE.z (THREE.scale mesh))
                             (1 / sqrt scale_y) 0.2 |}).
Proof.
  intros Hm Ht Hpos. unfold DefaultAvatar.useFrame. rewrite Hm.
  destruct (DefaultAvatar.targets baseBlue lighterBlue audioState) as [ty col].
  cbn [fst] in Ht. subst ty. cbn [number bind].
  unfold DefaultAvatar.inverseSqrt.
  destruct (Rlt_dec 0 _) as [_|Hn]; [|contradiction].
  cbn [bind]. eexists. split; reflexivity.
Qed.

Lemma lerp_positive (current target : R) :
  0 < current -> 0 < target -> 0 < THREE.MathUtils.lerp current target 0.2.
Proof. intros Hc Ht. rewrite lerp_convex. lra. Qed.

(** ** C3 *)

Lemma upperBand_window : constantWindow upperBand 2 30 0.
Proof.
  intros i Hi. unfold upperBand.
  rewrite nth_error_app1 by (rewrite repeat_length; lia).
  apply nth_error_repeat. lia.
Qed.

Lemma upperBand_average : average (slice upperBand 2 50) = 5100 / 48.
Proof.
  unfold average.
  change (total (slice upperBand 2 50)) with 5100%Z.
  change (List.length (slice upperBand 2 50)) with 48%nat.
  rewrite INR_IZR_INZ. reflexivity.
Qed.

(** On the frame that is silent below bin 30 and full from bin 30 on, the
    fallback driver computes volume 0, whereas the average of bins [2,50)
    is 106.25: whatever the tuning constants, the volume is not the
    envelope of the window [2,50). *)
Lemma DefaultAvatar_window_not_2_50 :
  DefaultAvatar.volume upperBand = Some 0
  /\ average (slice upperBand 2 50) = 5100 / 48
  /\ (forall scaleDivisor sensitivity, 0 < scaleDivisor -> 0 < sensitivity ->
      DefaultAvatar.volume upperBand <>
      Some (spec_voiceEnergy 2 50 scaleDivisor sensitivity upperBand)).
Proof.
  assert (Hv : DefaultAvatar.volume upperBand = Some 0).
  { unfold DefaultAvatar.volume.
    rewrite (averageBins_constant upperBand 2 30 0); [|lia|exact upperBand_window].
    f_equal. unfold Rmin. destruct (Rle_dec _ _); lra. }
  split; [exact Hv|]. split; [exact upperBand_average|].
  intros sd sens Hsd Hsens. rewrite Hv. intros Heq. inversion Heq as [H0].
  unfold spec_voiceEnergy in H0. rewrite upperBand_average in H0.
  assert (Hpos : 0 < 5100 / 48 / sd * sens).
  { apply Rmult_lt_0_compat; [|exact Hsens].
    apply Rdiv_lt_0_compat; [lra|exact Hsd]. }
  revert H0. unfold clamp, Rmin, Rmax.
  repeat (destruct (Rle_dec _ _)); lra.
Qed.

(** C3 (amended). The fallback shape driver computes its voice energy from
    bins [2,30), with divisor 100 and no sensitivity factor; the rig
    driver uses bins [2,30) too, with its own local constants; the window
    [2,50) is the one of the morph driver. *)
Theorem driver_windows (dataArray : Uint8Array)
    (Hbins : (30 <= List.length dataArray)%nat) :
  DefaultAvatar.volume dataArray =
    Some (Rmin 1 (average (slice dataArray 2 30) / 100))
  /\ (Forall (fun d => (0 <= d <= 255)%Z) dataArray ->
      DefaultAvatar.volume dataArray = Some (spec_voiceEnergy 2 30 100 1 dataArray))
  /\ VRMAvatar.volume dataArray = Some (spec_voiceEnergy 2 30 255 3.5 dataArray)
  /\ ((50 <= List.length dataArray)%nat ->
      MMDModel.value dataArray = Some (spec_voiceEnergy 2 50 100 2.0 dataArray)).
Proof.
  split; [now apply DefaultAvatar_volume_slice|].
  split; [|split; [now apply VRMAvatar_volume_slice|]].
  - intros Hbytes. rewrite DefaultAvatar_volume_slice by assumption.
    f_equal. unfold spec_voiceEnergy.
    pose proof (average_bounds dataArray 2 30 ltac:(lia) Hbytes) as Ha.
    unfold clamp, Rmin, Rmax. repeat (destruct (Rle_dec _ _)); lra.
  - intros H50. unfold MMDModel.value, spec_voiceEnergy.
    rewrite averageBins_slice by lia.
    now rewrite clamp_unit.
Qed.

Lemma driver_windows_witness :
  DefaultAvatar.volume upperBand =
    Some (Rmin 1 (average (slice upperBand 2 30) / 100))
  /\ MMDModel.value upperBand = Some (spec_voiceEnergy 2 50 100 2.0 upperBand).
Proof.
  destruct (driver_windows upperBand) as (Hd & _ & _ & Hm).
  - vm_compute. lia.
  - split; [exact Hd|]. apply Hm. vm_compute. lia.
Defined.

(** ** C4 *)

Lemma inverse_sqrt_one (scaleY : R) : 0 < scaleY -> 1 / sqrt scaleY = 1 -> scaleY = 1.
Proof.
  intros Hpos H1.
  pose proof (sqrt_lt_R0 scaleY Hpos) as Hs.
  assert (Hsq : sqrt scaleY = 1).
  { replace (sqrt scaleY) with (1 / (1 / sqrt scaleY)) by (field; lra).
    rewrite H1. lra. }
  rewrite <- (sqrt_sqrt scaleY) by lra. rewrite Hsq. lra.
Qed.

Lemma lerp_reaches (current target : R) :
  THREE.MathUtils.lerp current target 0.2 = target <-> current = target.
Proof. unfold THREE.MathUtils.lerp. split; intros H; lra. Qed.

Lemma DefaultAvatar_volume_255 : DefaultAvatar.volume (constantFrame 255) = Some 1.
Proof.
  unfold DefaultAvatar.volume.
  rewrite (averageBins_constant (constantFrame 255) 2 30 255);
    [|lia|apply constantFrame_window; vm_compute; lia].
  f_equal. unfold Rmin. destruct (Rle_dec _ _); lra.
Qed.

(** The first tick of the mounted box (scale 1, 1, 1) on a frame that is
    all 255: the Y scale becomes 1.1, and the horizontal scales become
    0.8 + 0.2 / sqrt(1.1), which is not 1 / sqrt(1.1). *)
Lemma DefaultAvatar_scale_lags :
  exists refs' s,
    DefaultAvatar.useFrame indigo periwinkle (playing (constantFrame 255)) 0
      mountedRefs = Done refs'
    /\ scaleOf refs' = Some s
    /\ THREE.y s = 1.1
    /\ THREE.x s = 0.8 + 0.2 / sqrt 1.1
    /\ THREE.z s = 0.8 + 0.2 / sqrt 1.1
    /\ THREE.x s <> 1 / sqrt (THREE.y s).
Proof.
  assert (Ht : fst (DefaultAvatar.targets indigo periwinkle
                      (playing (constantFrame 255))) = Some (1 + 1 * 0.5)).
  { unfold DefaultAvatar.targets, playing. cbn [isPlaying analyser getByteFrequencyData].
    rewrite DefaultAvatar_volume_255. reflexivity. }
  assert (HY : THREE.MathUtils.lerp 1 (1 + 1 * 0.5) 0.2 = 1.1)
    by (unfold THREE.MathUtils.lerp; lra).
  destruct (DefaultAvatar_tick indigo periwinkle (playing (constantFrame 255)) 0
              mountedRefs DefaultAvatar.mountedMesh (1 + 1 * 0.5) eq_refl Ht)
    as (refs' & Hf & Hs).
  { cbn. rewrite HY. lra. }
  cbn in Hs. rewrite HY in Hs.
  exists refs'. eexists. split; [exact Hf|]. split; [exact Hs|].
  cbn. unfold THREE.MathUtils.lerp.
  assert (Hpos : 0 < sqrt 1.1) by (apply sqrt_lt_R0; lra).
  split; [reflexivity|]. unfold Rdiv.
  split; [lra|]. split; [lra|].
  intros Heq.
  assert (H1 : 1 / sqrt 1.1 = 1) by (unfold Rdiv; lra).
  apply inverse_sqrt_one in H1; lra.
Qed.

(** C4 (amended). For every tick of the fallback shape driver with current
    scaleY > 0 the tick completes, and immediately after it scaleX and
    scaleZ are lerp(previous scaleX, 1/sqrt(scaleY), 0.2) and
    lerp(previous scaleZ, 1/sqrt(scaleY), 0.2), with scaleY the value
    already smoothed by this tick; each equals 1/sqrt(scaleY) exactly if
    and only if it already did before the tick. *)
Theorem DefaultAvatar_scale_update (baseBlue lighterBlue : THREE.Color)
    (audioState : AudioState) (elapsedTime : R) (refs : DefaultAvatar.Refs)
    (mesh : THREE.Object3D)
    (Hmesh : DefaultAvatar.meshRef refs = Some mesh)
    (Hbytes : deliversBytes audioState)
    (HscaleY : 0 < THREE.y (THREE.scale mesh)) :
  exists refs' s targetScaleY,
    DefaultAvatar.useFrame baseBlue lighterBlue audioState elapsedTime refs = Done refs'
    /\ scaleOf refs' = Some s
    /\ fst (DefaultAvatar.targets baseBlue lighterBlue audioState) = Some targetScaleY
    /\ THREE.y s = THREE.MathUtils.lerp (THREE.y (THREE.scale mesh)) targetScaleY 0.2
    /\ 0 < THREE.y s
    /\ THREE.x s =
       THREE.MathUtils.lerp (THREE.x (THREE.scale mesh)) (1 / sqrt (THREE.y s)) 0.2
    /\ THREE.z s =
       THREE.MathUtils.lerp (THREE.z (THREE.scale mesh)) (1 / sqrt (THREE.y s)) 0.2
    /\ (THREE.x s = 1 / sqrt (THREE.y s) <->
        THREE.x (THREE.scale mesh) = 1 / sqrt (THREE.y s))
    /\ (THREE.z s = 1 / sqrt (THREE.y s) <->
        THREE.z (THREE.scale mesh) = 1 / sqrt (THREE.y s)).
Proof.
  destruct (targets_scale baseBlue lighterBlue audioState Hbytes) as (ty & Ht & Hty).
  assert (Hpos : 0 < THREE.MathUtils.lerp (THREE.y (THREE.scale mesh)) ty 0.2)
    by (apply lerp_positive; lra).
  destruct (DefaultAvatar_tick baseBlue lighterBlue audioState elapsedTime refs mesh ty
              Hmesh Ht Hpos) as (refs' & Hf & Hs).
  exists refs'. eexists. exists ty.
  split; [exact Hf|]. split; [exact Hs|]. split; [exact Ht|].
  cbn [THREE.x THREE.y THREE.z].
  split; [reflexivity|]. split; [exact Hpos|].
  split; [reflexivity|]. split; [reflexivity|].
  split; apply lerp_reaches.
Qed.

Lemma DefaultAvatar_scale_update_witness :
  exists refs' s targetScaleY,
    DefaultAvatar.useFrame indigo periwinkle stopped 0 mountedRefs = Done refs'
    /\ scaleOf refs' = Some s
    /\ fst (DefaultAvatar.targets indigo periwinkle stopped) = Some targetScaleY
    /\ THREE.y s = THREE.MathUtils.lerp 1 targetScaleY 0.2
    /\ 0 < THREE.y s
    /\ THREE.x s = THREE.MathUtils.lerp 1 (1 / sqrt (THREE.y s)) 0.2
    /\ THREE.z s = THREE.MathUtils.lerp 1 (1 / sqrt (THREE.y s)) 0.2
    /\ (THREE.x s = 1 / sqrt (THREE.y s) <-> 1 = 1 / sqrt (THREE.y s))
    /\ (THREE.z s = 1 / sqrt (THREE.y s) <-> 1 = 1 / sqrt (THREE.y s)).
Proof.
  apply (DefaultAvatar_scale_update indigo periwinkle stopped 0 mountedRefs
           DefaultAvatar.mountedMesh).
  - reflexivity.
  - intros node H. discriminate H.
  - cbn. lra.
Defined.

(** ** C10 *)

Lemma scaleOf_mesh (refs : DefaultAvatar.Refs) (s : THREE.Vector3) :
  scaleOf refs = Some s ->
  exists mesh, DefaultAvatar.meshRef refs = Some mesh /\ THREE.scale mesh = s.
Proof.
  unfold scaleOf. destruct (DefaultAvatar.meshRef refs) as [mesh|]; [|discriminate].
  intros H. inversion H. now exists mesh.
Qed.

Lemma DefaultAvatar_tick_equal (baseBlue lighterBlue : THREE.Color)
    (audioState : AudioState) (elapsedTime : R) (refs refs' : DefaultAvatar.Refs)
    (mesh : THREE.Object3D) :
  DefaultAvatar.meshRef refs = Some mesh ->
  THREE.x (THREE.scale mesh) = THREE.z (THREE.scale mesh) ->
  DefaultAvatar.useFrame baseBlue lighterBlue audioState elapsedTime refs = Done refs' ->
  exists s inverseScale,
    scaleOf refs' = Some s
    /\ inverseScale = 1 / sqrt (THREE.y s)
    /\ THREE.x s = THREE.MathUtils.lerp (THREE.x (THREE.scale mesh)) inverseScale 0.2
    /\ THREE.z s = THREE.MathUtils.lerp (THREE.z (THREE.scale mesh)) inverseScale 0.2
    /\ THREE.x s = THREE.z s.
Proof.
  intros Hm Heq. unfold DefaultAvatar.useFrame. rewrite Hm.
  destruct (DefaultAvatar.targets baseBlue lighterBlue audioState) as [[ty|] col];
    cbn [number bind]; [|discriminate].
  unfold DefaultAvatar.inverseSqrt. destruct (Rlt_dec 0 _); cbn [bind]; [|discriminate].
  intros H. inversion H. subst refs'. do 2 eexists.
  split; [reflexivity|]. cbn [THREE.x THREE.y THREE.z].
  split; [reflexivity|]. split; [reflexivity|]. split; [reflexivity|].
  now rewrite Heq.
Qed.

Lemma DefaultAvatar_tick_invariant (baseBlue lighterBlue : THREE.Color)
    (audioState : AudioState) (elapsedTime : R) (refs : DefaultAvatar.Refs)
    (mesh : THREE.Object3D) :
  DefaultAvatar.meshRef refs = Some mesh ->
  deliversBytes audioState ->
  0 < THREE.y (THREE.scale mesh) ->
  THREE.x (THREE.scale mesh) = THREE.z (THREE.scale mesh) ->
  exists refs' mesh',
    DefaultAvatar.useFrame baseBlue lighterBlue audioState elapsedTime refs = Done refs'
    /\ DefaultAvatar.meshRef refs' = Some mesh'
    /\ 0 < THREE.y (THREE.scale mesh')
    /\ THREE.x (THREE.scale mesh') = THREE.z (THREE.scale mesh').
Proof.
  intros Hm Hbytes Hy Heq.
  destruct (targets_scale baseBlue lighterBlue audioState Hbytes) as (ty & Ht & Hty).
  assert (Hpos : 0 < THREE.MathUtils.lerp (THREE.y (THREE.scale mesh)) ty 0.2)
    by (apply lerp_positive; lra).
  destruct (DefaultAvatar_tick baseBlue lighterBlue audioState elapsedTime refs mesh ty
              Hm Ht Hpos) as (refs' & Hf & Hs).
  destruct (scaleOf_mesh refs' _ Hs) as (mesh' & Hm' & Hscale).
  exists refs', mesh'. split; [exact Hf|]. split; [exact Hm'|].
  rewrite Hscale. cbn [THREE.x THREE.y THREE.z].
  split; [exact Hpos|]. now rewrite Heq.
Qed.

(** C10. A tick of the fallback shape driver that starts with
    scaleX = scaleZ ends with scaleX = scaleZ, both having been
    interpolated toward the same inverseScale = 1/sqrt(scaleY) with factor
    0.2; hence over any run of frames from a mesh with scaleX = scaleZ and
    scaleY > 0 (the mounted box has scale 1, 1, 1) every tick completes
    and the equality holds at the end. *)
Theorem DefaultAvatar_scaleX_eq_scaleZ (baseBlue lighterBlue : THREE.Color) :
  (forall audioState elapsedTime refs refs' mesh,
      DefaultAvatar.meshRef refs = Some mesh ->
      THREE.x (THREE.scale mesh) = THREE.z (THREE.scale mesh) ->
      DefaultAvatar.useFrame baseBlue lighterBlue audioState elapsedTime refs = Done refs' ->
      exists s inverseScale,
        scaleOf refs' = Some s
        /\ inverseScale = 1 / sqrt (THREE.y s)
        /\ THREE.x s = THREE.MathUtils.lerp (THREE.x (THREE.scale mesh)) inverseScale 0.2
        /\ THREE.z s = THREE.MathUtils.lerp (THREE.z (THREE.scale mesh)) inverseScale 0.2
        /\ THREE.x s = THREE.z s)
  /\ (forall frames refs mesh,
      DefaultAvatar.meshRef refs = Some mesh ->
      Forall (fun f => deliversBytes (fst f)) frames ->
      0 < THREE.y (THREE.scale mesh) ->
      THREE.x (THREE.scale mesh) = THREE.z (THREE.scale mesh) ->
      exists refs' s,
        DefaultAvatar.useFrames baseBlue lighterBlue frames refs = Done refs'
        /\ scaleOf refs' = Some s
        /\ 0 < THREE.y s
        /\ THREE.x s = THREE.z s).
Proof.
  split; [exact (DefaultAvatar_tick_equal baseBlue lighterBlue)|].
  induction frames as [|[audioState elapsedTime] rest IH];
    intros refs mesh Hm Hall Hy Heq.
  - exists refs, (THREE.scale mesh). cbn. unfold scaleOf. rewrite Hm. auto.
  - inversion Hall as [|? ? Hb Hrest]; subst. cbn [fst] in Hb.
    destruct (DefaultAvatar_tick_invariant baseBlue lighterBlue audioState elapsedTime
                refs mesh Hm Hb Hy Heq) as (refs1 & mesh1 & Hf & Hm1 & Hy1 & Heq1).
    destruct (IH refs1 mesh1 Hm1 Hrest Hy1 Heq1) as (refs' & s & Hfs & Hs & Hys & Heqs).
    exists refs', s. cbn [DefaultAvatar.useFrames]. rewrite Hf. cbn [bind].
    auto.
Qed.

Lemma DefaultAvatar_scaleX_eq_scaleZ_witness :
  exists refs' s,
    DefaultAvatar.useFrames indigo periwinkle
      [(playing (constantFrame 255), 0); (stopped, 1)] mountedRefs = Done refs'
    /\ scaleOf refs' = Some s
    /\ 0 < THREE.y s
    /\ THREE.x s = THREE.z s.
Proof.
  destruct (DefaultAvatar_scaleX_eq_scaleZ indigo periwinkle) as [_ Hrun].
  apply (Hrun _ mountedRefs DefaultAvatar.mountedMesh).
  - reflexivity.
  - apply Forall_cons; [|apply Forall_cons; [|apply Forall_nil]].
    + intros node H. inversion H. apply constantFrame_wellFormed. lia.
    + intros node H. discriminate H.
  - cbn. lra.
  - reflexivity.
Defined.

(** * Further properties of the drivers *)

(** ** The pose step, joint by joint *)

Lemma rotateBone_other (humanoid h' : VRMAvatar.VRMHumanoid)
    (boneName b : VRMAvatar.VRMHumanBoneName) (x y z speed : R) :
  b <> boneName ->
  VRMAvatar.rotateBone humanoid boneName x y z speed = Done h' ->
  VRMAvatar.getRawBoneNode h' b = VRMAvatar.getRawBoneNode humanoid b.
Proof.
  intros Hne. destruct (VRMAvatar.getRawBoneNode humanoid boneName) as [node|] eqn:Hn.
  - rewrite (rotateBone_present humanoid boneName x y z speed node Hn).
    intros H. inversion H. subst h'.
    unfold VRMAvatar.getRawBoneNode, VRMAvatar.setNodeRotation.
    now destruct (VRMAvatar.VRMHumanBoneName_eq_dec b boneName).
  - rewrite (rotateBone_absent humanoid boneName x y z speed Hn).
    intros H. now inversion H.
Qed.

Lemma rotateBone_keeps_placement (humanoid h' : VRMAvatar.VRMHumanoid)
    (boneName b : VRMAvatar.VRMHumanBoneName) (x y z speed : R)
    (node : THREE.Object3D) :
  VRMAvatar.rotateBone humanoid boneName x y z speed = Done h' ->
  VRMAvatar.getRawBoneNode humanoid b = Some node ->
  exists node',
    VRMAvatar.getRawBoneNode h' b = Some node'
    /\ THREE.position node' = THREE.position node
    /\ THREE.scale node' = THREE.scale node.
Proof.
  intros Hr Hb.
  destruct (VRMAvatar.VRMHumanBoneName_eq_dec b boneName) as [->|Hne].
  - rewrite (rotateBone_present humanoid boneName x y z speed node Hb) in Hr.
    inversion Hr. subst h'. eexists. split.
    + unfold VRMAvatar.getRawBoneNode, VRMAvatar.setNodeRotation.
      destruct (VRMAvatar.VRMHumanBoneName_eq_dec boneName boneName) as [_|N];
        [reflexivity|now elim N].
    + split; reflexivity.
  - exists node. rewrite (rotateBone_other humanoid h' boneName b x y z speed Hne Hr).
    auto.
Qed.

Lemma rotateBones_other (calls : list VRMAvatar.BoneCall)
    (b : VRMAvatar.VRMHumanBoneName) :
  ~ In b (namedBones calls) ->
  forall humanoid h',
    VRMAvatar.rotateBones humanoid calls = Done h' ->
    VRMAvatar.getRawBoneNode h' b = VRMAvatar.getRawBoneNode humanoid b.
Proof.
  induction calls as [|c rest IH]; intros Hnot humanoid h' Hrun;
    cbn [VRMAvatar.rotateBones] in Hrun.
  - now inversion Hrun.
  - destruct (rotateBone_done humanoid (VRMAvatar.boneName c) (VRMAvatar.tx c)
                (VRMAvatar.ty c) (VRMAvatar.tz c) (VRMAvatar.speed c))
      as (h1 & H1 & _).
    rewrite H1 in Hrun. cbn [bind] in Hrun.
    rewrite (IH (fun Hin => Hnot (or_intror Hin)) h1 h' Hrun).
    eapply rotateBone_other; [|exact H1].
    intros Heq. apply Hnot. left. now symmetry.
Qed.

Lemma rotateBones_keep_placement (calls : list VRMAvatar.BoneCall)
    (b : VRMAvatar.VRMHumanBoneName) :
  forall humanoid h' node,
    VRMAvatar.rotateBones humanoid calls = Done h' ->
    VRMAvatar.getRawBoneNode humanoid b = Some node ->
    exists node',
      VRMAvatar.getRawBoneNode h' b = Some node'
      /\ THREE.position node' = THREE.position node
      /\ THREE.scale node' = THREE.scale node.
Proof.
  induction calls as [|c rest IH]; intros humanoid h' node Hrun Hb;
    cbn [VRMAvatar.rotateBones] in Hrun.
  - inversion Hrun. subst h'. now exists node.
  - destruct (rotateBone_done humanoid (VRMAvatar.boneName c) (VRMAvatar.tx c)
                (VRMAvatar.ty c) (VRMAvatar.tz c) (VRMAvatar.speed c))
      as (h1 & H1 & _).
    rewrite H1 in Hrun. cbn [bind] in Hrun.
    destruct (rotateBone_keeps_placement _ _ _ b _ _ _ _ node H1 Hb)
      as (node1 & Hb1 & Hp1 & Hs1).
    destruct (IH h1 h' node1 Hrun Hb1) as (node' & Hb' & Hp' & Hs').
    exists node'. split; [exact Hb'|]. split; congruence.
Qed.

Lemma hips_named_in_idle_only (avatarState : App.AvatarState) (t : R) :
  avatarState <> App.idle ->
  ~ In VRMAvatar.Hips (namedBones (VRMAvatar.poseCalls avatarState t)).
Proof.
  intros Hne. destruct avatarState; [| | |now elim Hne];
    cbn; intuition discriminate.
Qed.

(** X1. The pose step of a frame changes nothing but the rotations of the
    joints its branch names: every other joint keeps its node as it is,
    and no node's position or scale is touched.  The hips are named in the
    idle branch only, so in the three other states they keep the rotation
    they had. *)
Theorem pose_step_frame (avatarState : App.AvatarState) (t : R) (vrm : VRMAvatar.VRM) :
  exists h',
    VRMAvatar.proceduralAnimation avatarState t vrm =
      Done {| VRMAvatar.humanoid := h';
              VRMAvatar.expressionManager := VRMAvatar.expressionManager vrm |}
    /\ (forall b, ~ In b (namedBones (VRMAvatar.poseCalls avatarState t)) ->
        VRMAvatar.getRawBoneNode h' b =
        VRMAvatar.getRawBoneNode (VRMAvatar.humanoid vrm) b)
    /\ (forall b node,
        VRMAvatar.getRawBoneNode (VRMAvatar.humanoid vrm) b = Some node ->
        exists node',
          VRMAvatar.getRawBoneNode h' b = Some node'
          /\ THREE.position node' = THREE.position node
          /\ THREE.scale node' = THREE.scale node)
    /\ (avatarState <> App.idle ->
        VRMAvatar.getRawBoneNode h' VRMAvatar.Hips =
        VRMAvatar.getRawBoneNode (VRMAvatar.humanoid vrm) VRMAvatar.Hips).
Proof.
  unfold VRMAvatar.proceduralAnimation.
  destruct (rotateBones_done (VRMAvatar.poseCalls avatarState t) (VRMAvatar.humanoid vrm))
    as (h' & Hrun & _).
  exists h'. rewrite Hrun. cbn [bind]. split; [reflexivity|].
  split; [|split].
  - intros b Hb. exact (rotateBones_other _ b Hb _ h' Hrun).
  - intros b node Hb.
    exact (rotateBones_keep_placement _ b _ h' node Hrun Hb).
  - intros Hne.
    exact (rotateBones_other _ VRMAvatar.Hips
             (hips_named_in_idle_only avatarState t Hne) _ h' Hrun).
Qed.

Lemma pose_step_frame_witness :
  exists h',
    VRMAvatar.proceduralAnimation App.typing 0 (singleBoneVRM VRMAvatar.Hips) =
      Done {| VRMAvatar.humanoid := h'; VRMAvatar.expressionManager := None |}
    /\ VRMAvatar.getRawBoneNode h' VRMAvatar.Hips = Some restNode.
Proof.
  destruct (pose_step_frame App.typing 0 (singleBoneVRM VRMAvatar.Hips))
    as (h' & Hrun & _ & _ & Hhips).
  exists h'. split; [exact Hrun|].
  rewrite Hhips by discriminate. reflexivity.
Defined.

Lemma poseCalls_NoDup (avatarState : App.AvatarState) (t : R) :
  NoDup (namedBones (VRMAvatar.poseCalls avatarState t)).
Proof.
  destruct avatarState; cbn;
    repeat (constructor; [cbn; intuition discriminate|]); constructor.
Qed.

Lemma poseCalls_speed (avatarState : App.AvatarState) (t : R) :
  Forall (fun c => 0 < VRMAvatar.speed c <= 0.1) (VRMAvatar.poseCalls avatarState t).
Proof.
  destruct avatarState; cbn; repeat (constructor; [cbn; lra|]); constructor.
Qed.

Lemma rotateBones_step (calls : list VRMAvatar.BoneCall) :
  NoDup (namedBones calls) ->
  forall humanoid h' c node,
    In c calls ->
    VRMAvatar.getRawBoneNode humanoid (VRMAvatar.boneName c) = Some node ->
    VRMAvatar.rotateBones humanoid calls = Done h' ->
    VRMAvatar.getRawBoneNode h' (VRMAvatar.boneName c) =
    Some {| THREE.position := THREE.position node;
            THREE.rotation := steppedRotation node c;
            THREE.scale := THREE.scale node |}.
Proof.
  induction calls as [|c0 rest IH]; intros Hnd humanoid h' c node Hin Hb Hrun;
    [contradiction|].
  cbn [namedBones map] in Hnd. inversion Hnd as [|? ? Hfresh Hnd']; subst.
  cbn [VRMAvatar.rotateBones] in Hrun.
  destruct (rotateBone_done humanoid (VRMAvatar.boneName c0) (VRMAvatar.tx c0)
              (VRMAvatar.ty c0) (VRMAvatar.tz c0) (VRMAvatar.speed c0))
    as (h1 & H1 & _).
  rewrite H1 in Hrun. cbn [bind] in Hrun.
  destruct Hin as [->|Hin].
  - rewrite (rotateBones_other rest _ Hfresh h1 h' Hrun).
    rewrite (rotateBone_present humanoid _ _ _ _ _ node Hb) in H1.
    inversion H1. subst h1.
    unfold VRMAvatar.getRawBoneNode, VRMAvatar.setNodeRotation.
    destruct (VRMAvatar.VRMHumanBoneName_eq_dec _ _) as [_|N];
      [reflexivity|now elim N].
  - apply (IH Hnd' h1 h' c node Hin); [|exact Hrun].
    assert (Hne : VRMAvatar.boneName c <> VRMAvatar.boneName c0).
    { intros Heq. apply Hfresh. rewrite <- Heq. now apply in_map. }
    rewrite (rotateBone_other _ _ _ _ _ _ _ _ Hne H1). exact Hb.
Qed.

Lemma lerp_step_size (current target factor : R) :
  0 <= factor ->
  Rabs (THREE.MathUtils.lerp current target factor - current) =
  factor * Rabs (target - current).
Proof.
  intros Hf. unfold THREE.MathUtils.lerp.
  replace (current + (target - current) * factor - current)
    with (factor * (target - current)) by ring.
  rewrite Rabs_mult, (Rabs_pos_eq factor) by assumption. reflexivity.
Qed.

(** X2. No branch of the pose step names a joint twice, and every
    statement has a speed in (0, 0.1].  So on each frame every joint the
    rig has and the branch names moves, on each axis, exactly one
    interpolation step from its previous angle toward the statement's
    target: at most a tenth of the remaining distance, whatever state
    change preceded the frame. *)
Theorem pose_step_is_one_lerp (avatarState : App.AvatarState) (t : R)
    (vrm : VRMAvatar.VRM) (c : VRMAvatar.BoneCall) (node : THREE.Object3D)
    (Hcall : In c (VRMAvatar.poseCalls avatarState t))
    (Hnode : VRMAvatar.getRawBoneNode (VRMAvatar.humanoid vrm) (VRMAvatar.boneName c) =
             Some node) :
  exists h' node',
    VRMAvatar.proceduralAnimation avatarState t vrm =
      Done {| VRMAvatar.humanoid := h';
              VRMAvatar.expressionManager := VRMAvatar.expressionManager vrm |}
    /\ VRMAvatar.getRawBoneNode h' (VRMAvatar.boneName c) = Some node'
    /\ THREE.rotation node' = steppedRotation node c
    /\ Rabs (THREE.x (THREE.rotation node') - THREE.x (THREE.rotation node)) <=
       0.1 * Rabs (VRMAvatar.tx c - THREE.x (THREE.rotation node))
    /\ Rabs (THREE.y (THREE.rotation node') - THREE.y (THREE.rotation node)) <=
       0.1 * Rabs (VRMAvatar.ty c - THREE.y (THREE.rotation node))
    /\ Rabs (THREE.z (THREE.rotation node') - THREE.z (THREE.rotation node)) <=
       0.1 * Rabs (VRMAvatar.tz c - THREE.z (THREE.rotation node)).
Proof.
  unfold VRMAvatar.proceduralAnimation.
  destruct (rotateBones_done (VRMAvatar.poseCalls avatarState t) (VRMAvatar.humanoid vrm))
    as (h' & Hrun & _).
  rewrite Hrun. cbn [bind].
  pose proof (rotateBones_step _ (poseCalls_NoDup avatarState t) _ h' c node
                Hcall Hnode Hrun) as Hstep.
  assert (Hs : 0 < VRMAvatar.speed c <= 0.1).
  { pose proof (poseCalls_speed avatarState t) as Hall.
    rewrite Forall_forall in Hall. now apply Hall. }
  exists h'. eexists. split; [reflexivity|]. split; [exact Hstep|].
  cbn [THREE.rotation steppedRotation THREE.x THREE.y THREE.z].
  split; [reflexivity|].
  rewrite !lerp_step_size by lra.
  repeat split; apply Rmult_le_compat_r; try apply Rabs_pos; lra.
Qed.

Lemma pose_step_is_one_lerp_witness :
  exists h' node',
    VRMAvatar.proceduralAnimation App.thinking 0 (singleBoneVRM VRMAvatar.Head) =
      Done {| VRMAvatar.humanoid := h'; VRMAvatar.expressionManager := None |}
    /\ VRMAvatar.getRawBoneNode h' VRMAvatar.Head = Some node'
    /\ THREE.rotation node' =
       steppedRotation restNode (VRMAvatar.rb VRMAvatar.Head 0.1 0.3 (-0.1) 0.05).
Proof.
  destruct (pose_step_is_one_lerp App.thinking 0 (singleBoneVRM VRMAvatar.Head)
              (VRMAvatar.rb VRMAvatar.Head 0.1 0.3 (-0.1) 0.05) restNode)
    as (h' & node' & Hrun & Hn & Hrot & _).
  - left. reflexivity.
  - reflexivity.
  - exists h', node'. auto.
Defined.

(** ** The voice energy as a function of the window sum *)

Lemma averageBins_total (d : Uint8Array) (startBin endBin : nat) :
  (startBin <= endBin <= List.length d)%nat ->
  averageBins d startBin endBin =
  Some (IZR (total (slice d startBin endBin)) / INR (endBin - startBin)).
Proof.
  intros H. rewrite averageBins_slice by assumption.
  unfold average. now rewrite slice_length by lia.
Qed.

Lemma window_total_bounds (d : Uint8Array) (startBin endBin : nat) :
  (endBin <= List.length d)%nat ->
  Forall (fun s => (0 <= s <= 255)%Z) d ->
  (0 <= total (slice d startBin endBin) <= 255 * Z.of_nat (endBin - startBin))%Z.
Proof.
  intros Hlen Hb.
  pose proof (total_bounds _ (Forall_slice _ d startBin endBin Hb)) as H.
  now rewrite slice_length in H by assumption.
Qed.

Lemma VRMAvatar_volume_total (d : Uint8Array) :
  (30 <= List.length d)%nat ->
  Forall (fun s => (0 <= s <= 255)%Z) d ->
  VRMAvatar.volume d = Some (Rmin 1 (IZR (total (slice d 2 30)) / 2040)).
Proof.
  intros Hlen Hb. unfold VRMAvatar.volume.
  rewrite averageBins_total by lia.
  pose proof (window_total_bounds d 2 30 Hlen Hb) as [Hlo _].
  apply IZR_le in Hlo.
  change (INR (30 - 2)) with (INR 28). rewrite INR_IZR_INZ. cbn [Z.of_nat Pos.of_succ_nat Pos.succ].
  f_equal. set (S := IZR (total (slice d 2 30))) in *.
  unfold Rmin, Rmax. repeat (destruct (Rle_dec _ _)); lra.
Qed.

(** X3. On a frame of at least 30 byte samples the rig driver's volume is
    min(1, S / 2040), where S is the sum of the 28 samples of bins
    [2,30): it lies in [0,1], is 1 exactly when S >= 2040 (an average of
    about 72.9 out of 255) and is 0 exactly when the window is silent. *)
Theorem VRMAvatar_volume_saturation (dataArray : Uint8Array)
    (Hbins : (30 <= List.length dataArray)%nat)
    (Hbytes : Forall (fun s => (0 <= s <= 255)%Z) dataArray) :
  exists volume,
    VRMAvatar.volume dataArray = Some volume
    /\ volume = Rmin 1 (IZR (total (slice dataArray 2 30)) / 2040)
    /\ 0 <= volume <= 1
    /\ (volume = 1 <-> (2040 <= total (slice dataArray 2 30))%Z)
    /\ (volume = 0 <-> total (slice dataArray 2 30) = 0%Z).
Proof.
  eexists. split; [now apply VRMAvatar_volume_total|]. split; [reflexivity|].
  pose proof (window_total_bounds dataArray 2 30 Hbins Hbytes) as [Hlo _].
  set (S := total (slice dataArray 2 30)) in *.
  assert (HS : 0 <= IZR S) by now apply IZR_le.
  unfold Rmin. destruct (Rle_dec 1 (IZR S / 2040)) as [H1|H1].
  - split; [lra|]. split.
    + split; [intros _|reflexivity]. apply le_IZR. lra.
    + split; [lra|]. intros H0. rewrite H0 in H1. lra.
  - split; [lra|]. split.
    + split; [lra|]. intros H. apply IZR_le in H. lra.
    + split.
      * intros H0. apply eq_IZR. lra.
      * intros H0. rewrite H0. lra.
Qed.

Lemma VRMAvatar_volume_saturation_witness :
  exists volume,
    VRMAvatar.volume (constantFrame 73) = Some volume
    /\ volume = Rmin 1 (IZR (total (slice (constantFrame 73) 2 30)) / 2040)
    /\ 0 <= volume <= 1
    /\ (volume = 1 <-> (2040 <= total (slice (constantFrame 73) 2 30))%Z)
    /\ (volume = 0 <-> total (slice (constantFrame 73) 2 30) = 0%Z).
Proof.
  apply (VRMAvatar_volume_saturation (constantFrame 73)).
  - vm_compute. lia.
  - apply constantFrame_wellFormed. lia.
Defined.

(** ** The expression weights *)

Lemma lerp_unit (current target factor : R) :
  unitWeight current -> unitWeight target -> 0 <= factor <= 1 ->
  unitWeight (THREE.MathUtils.lerp current target factor).
Proof.
  unfold unitWeight. intros Hc Ht Hf. rewrite lerp_convex. split; nra.
Qed.

Lemma getValue_setValue (em : VRMAvatar.VRMExpressionManager) (name n : string) (w : R) :
  VRMAvatar.getValue (VRMAvatar.setValue em name w) n =
  if String.eqb n name then w else VRMAvatar.getValue em n.
Proof. reflexivity. Qed.

Lemma unitWeights_setValue (em : VRMAvatar.VRMExpressionManager) (name : string) (w : R) :
  unitWeights em -> unitWeight w -> unitWeights (VRMAvatar.setValue em name w).
Proof.
  intros Hem Hw n. rewrite getValue_setValue.
  destruct (String.eqb n name); [exact Hw|apply Hem].
Qed.

Lemma VRMAvatar_volume_unit (d : Uint8Array) :
  wellFormedFrame d ->
  exists v, VRMAvatar.volume d = Some v /\ unitWeight v.
Proof.
  intros [Hlen Hb].
  assert (H30 : (30 <= List.length d)%nat) by (rewrite Hlen; vm_compute; lia).
  eexists. split; [now apply VRMAvatar_volume_total|].
  pose proof (window_total_bounds d 2 30 H30 Hb) as [Hlo _]. apply IZR_le in Hlo.
  unfold unitWeight, Rmin. destruct (Rle_dec _ _); lra.
Qed.

Lemma lipSync_unit (audioState : AudioState) (frame : VRMAvatar.FrameState)
    (vrm : VRMAvatar.VRM) (em : VRMAvatar.VRMExpressionManager) :
  deliversBytes audioState ->
  VRMAvatar.expressionManager vrm = Some em ->
  unitWeights em ->
  exists em',
    VRMAvatar.lipSync audioState frame vrm =
      Done {| VRMAvatar.humanoid := VRMAvatar.humanoid vrm;
              VRMAvatar.expressionManager := Some em' |}
    /\ unitWeights em'.
Proof.
  intros Hb Hem Hu.
  assert (Hhalf : unitWeight 0.5) by (unfold unitWeight; lra).
  assert (Hzero : unitWeight 0) by (unfold unitWeight; lra).
  assert (Hone : unitWeight 1) by (unfold unitWeight; lra).
  destruct (isPlaying audioState) eqn:Hp.
  - destruct (analyser audioState) as [node|] eqn:Ha.
    + destruct (VRMAvatar_volume_unit _ (Hb node Ha)) as (v & Hv & Hvu).
      eexists. split;
        [apply (lipSync_playing audioState frame vrm em node v); assumption|].
      destruct (Rgt_dec v 0.6).
      * apply unitWeights_setValue; [now apply unitWeights_setValue|].
        apply lerp_unit; [apply Hu|exact Hhalf|lra].
      * now apply unitWeights_setValue.
    + eexists. split;
        [apply (lipSync_silent audioState frame vrm em); [now right|assumption]|].
      apply unitWeights_setValue.
      * apply unitWeights_setValue; [exact Hu|]. apply lerp_unit; [apply Hu|exact Hzero|lra].
      * destruct (Rgt_dec _ _); [exact Hone|]. apply lerp_unit; [apply Hu|exact Hzero|lra].
  - eexists. split;
      [apply (lipSync_silent audioState frame vrm em); [now left|assumption]|].
    apply unitWeights_setValue.
    + apply unitWeights_setValue; [exact Hu|]. apply lerp_unit; [apply Hu|exact Hzero|lra].
    + destruct (Rgt_dec _ _); [exact Hone|]. apply lerp_unit; [apply Hu|exact Hzero|lra].
Qed.

(** X4. Whatever the library's update does to the rest of the instance, as
    long as it leaves the expression weights alone: on any run of frames
    whose analyser, when there is one, delivers 128 byte samples, the
    callback completes on every frame and, if all expression weights lie
    in [0,1] before the run, they all lie in [0,1] after it. *)
Theorem expression_weights_stay_unit
    (update : VRMAvatar.VRM -> R -> VRMAvatar.VRM)
    (Hupdate : forall vrm delta,
        VRMAvatar.expressionManager (update vrm delta) =
        VRMAvatar.expressionManager vrm)
    (frames : list (AudioState * App.AvatarState * VRMAvatar.FrameState)) :
  forall vrm em,
    Forall bytesFrame frames ->
    VRMAvatar.expressionManager vrm = Some em ->
    unitWeights em ->
    exists vrm' em',
      VRMAvatar.useFrames update frames (Some vrm) = Done (Some vrm')
      /\ VRMAvatar.expressionManager vrm' = Some em'
      /\ unitWeights em'.
Proof.
  induction frames as [|[[audioState avatarState] frame] rest IH];
    intros vrm em Hall Hem Hu.
  - exists vrm, em. auto.
  - inversion Hall as [|? ? Hb Hrest]; subst. unfold bytesFrame in Hb. cbn [fst] in Hb.
    cbn [VRMAvatar.useFrames VRMAvatar.useFrame].
    destruct (proceduralAnimation_done avatarState (VRMAvatar.elapsedTime frame)
                (update vrm (VRMAvatar.delta frame))) as (h' & -> & _).
    cbn [bind]. rewrite Hupdate, Hem.
    destruct (lipSync_unit audioState frame
                {| VRMAvatar.humanoid := h'; VRMAvatar.expressionManager := Some em |}
                em Hb eq_refl Hu) as (em1 & -> & Hu1).
    cbn [bind VRMAvatar.humanoid].
    apply (IH {| VRMAvatar.humanoid := h'; VRMAvatar.expressionManager := Some em1 |}
              em1 Hrest eq_refl Hu1).
Qed.

Lemma expression_weights_stay_unit_witness :
  exists vrm' em',
    VRMAvatar.useFrames noUpdate
      [(playing (constantFrame 200), App.speaking, frame0); (stopped, App.idle, frame0)]
      (Some (faceOnly restManager)) = Done (Some vrm')
    /\ VRMAvatar.expressionManager vrm' = Some em'
    /\ unitWeights em'.
Proof.
  apply (expression_weights_stay_unit noUpdate (fun vrm delta => eq_refl) _
           (faceOnly restManager) restManager).
  - apply Forall_cons; [|apply Forall_cons; [|apply Forall_nil]].
    + intros node H. inversion H. apply constantFrame_wellFormed. lia.
    + intros node H. discriminate H.
  - reflexivity.
  - intros name. unfold unitWeight. cbn. lra.
Defined.

(** X5. While audio plays, the lip-sync step draws no random sample and
    reads no clock: its result is the same for every frame state.  If the
    volume is at most 0.6 the blink weight is left exactly as it was
    (neither decayed nor triggered); if the volume exceeds 0.6 the blink
    weight moves one fifth of the way toward 0.5. *)
Theorem blink_while_speaking (audioState : AudioState) (node : AnalyserNode)
    (frame : VRMAvatar.FrameState) (vrm : VRMAvatar.VRM)
    (em : VRMAvatar.VRMExpressionManager) (volume : R)
    (Hplaying : isPlaying audioState = true)
    (Hanalyser : analyser audioState = Some node)
    (Hem : VRMAvatar.expressionManager vrm = Some em)
    (Hvolume : VRMAvatar.volume (getByteFrequencyData node) = Some volume) :
  (forall frame',
      VRMAvatar.lipSync audioState frame' vrm = VRMAvatar.lipSync audioState frame vrm)
  /\ exists em',
      VRMAvatar.lipSync audioState frame vrm =
        Done {| VRMAvatar.humanoid := VRMAvatar.humanoid vrm;
                VRMAvatar.expressionManager := Some em' |}
      /\ (volume <= 0.6 ->
          VRMAvatar.getValue em' "blink" = VRMAvatar.getValue em "blink")
      /\ (volume > 0.6 ->
          VRMAvatar.getValue em' "blink" - 0.5 =
          0.8 * (VRMAvatar.getValue em "blink" - 0.5)).
Proof.
  split.
  - intros frame'.
    now rewrite !(lipSync_playing audioState _ vrm em node volume).
  - eexists. split;
      [apply (lipSync_playing audioState frame vrm em node volume); assumption|].
    destruct (Rgt_dec volume 0.6) as [Hloud|Hquiet]; split; intros H; try lra.
    + cbn. unfold THREE.MathUtils.lerp. lra.
    + reflexivity.
Qed.

Lemma blink_while_speaking_witness :
  exists em',
    VRMAvatar.lipSync (playing (constantFrame 200)) frame0 (faceOnly openMouthManager) =
      Done {| VRMAvatar.humanoid := noBones;
              VRMAvatar.expressionManager := Some em' |}
    /\ (1 > 0.6 -> VRMAvatar.getValue em' "blink" - 0.5 = 0.8 * (1 - 0.5)).
Proof.
  destruct (blink_while_speaking (playing (constantFrame 200))
              {| getByteFrequencyData := constantFrame 200 |} frame0
              (faceOnly openMouthManager) openMouthManager 1 eq_refl eq_refl eq_refl)
    as (_ & em' & Hrun & _ & Hloud).
  - apply VRMAvatar_volume_200, constantFrame_window. vm_compute. lia.
  - exists em'. split; [exact Hrun|exact Hloud].
Defined.

Lemma lipSync_rebase (audioState : AudioState) (frame : VRMAvatar.FrameState)
    (h h0 : VRMAvatar.VRMHumanoid) (e : option VRMAvatar.VRMExpressionManager) :
  VRMAvatar.lipSync audioState frame
    {| VRMAvatar.humanoid := h; VRMAvatar.expressionManager := e |} =
  (v <- VRMAvatar.lipSync audioState frame
          {| VRMAvatar.humanoid := h0; VRMAvatar.expressionManager := e |} ;;
   Done {| VRMAvatar.humanoid := h;
           VRMAvatar.expressionManager := VRMAvatar.expressionManager v |}).
Proof.
  unfold_lipSync.
  destruct e as [em|], (isPlaying audioState), (analyser audioState) as [node|];
    cbn; try reflexivity;
    try (destruct (Rgt_dec (VRMAvatar.random frame) 0.992); reflexivity).
  destruct (VRMAvatar.volume (getByteFrequencyData node)) as [v|]; cbn;
    [|reflexivity].
  destruct (Rgt_dec v 0.6); reflexivity.
Qed.

Lemma lipSync_keeps_humanoid (audioState : AudioState) (frame : VRMAvatar.FrameState)
    (vrm vrm' : VRMAvatar.VRM) :
  VRMAvatar.lipSync audioState frame vrm = Done vrm' ->
  VRMAvatar.humanoid vrm' = VRMAvatar.humanoid vrm.
Proof.
  destruct vrm as [h e].
  rewrite (lipSync_rebase audioState frame h h e).
  destruct (VRMAvatar.lipSync audioState frame _) as [v| |]; cbn; try discriminate.
  intros H. inversion H. reflexivity.
Qed.

(** X6. The two animation steps of the callback are independent: the pose
    step writes joint rotations only and the lip-sync step writes
    expression weights only, so running them in either order gives the
    same outcome. *)
Theorem pose_and_lipSync_commute (audioState : AudioState)
    (avatarState : App.AvatarState) (frame : VRMAvatar.FrameState) (t : R)
    (vrm : VRMAvatar.VRM) :
  (vrm1 <- VRMAvatar.proceduralAnimation avatarState t vrm ;;
   VRMAvatar.lipSync audioState frame vrm1) =
  (vrm1 <- VRMAvatar.lipSync audioState frame vrm ;;
   VRMAvatar.proceduralAnimation avatarState t vrm1).
Proof.
  destruct vrm as [h e].
  unfold VRMAvatar.proceduralAnimation at 1. cbn [VRMAvatar.humanoid VRMAvatar.expressionManager].
  destruct (rotateBones_done (VRMAvatar.poseCalls avatarState t) h) as (h' & Hrun & _).
  rewrite Hrun. cbn [bind].
  rewrite (lipSync_rebase audioState frame h' h e).
  destruct (VRMAvatar.lipSync audioState frame
              {| VRMAvatar.humanoid := h; VRMAvatar.expressionManager := e |})
    as [v| |] eqn:Hl; cbn [bind]; try reflexivity.
  unfold VRMAvatar.proceduralAnimation.
  rewrite (lipSync_keeps_humanoid _ _ _ _ Hl). cbn [VRMAvatar.humanoid].
  rewrite Hrun. reflexivity.
Qed.

(** X7. The lip-sync step writes the two expressions "aa" and "blink" and
    nothing else: the rig is returned as it was, an absent expression
    manager stays absent, and the weight of any other expression is
    unchanged, in every branch. *)
Theorem lipSync_writes_aa_and_blink (audioState : AudioState)
    (frame : VRMAvatar.FrameState) (vrm vrm' : VRMAvatar.VRM)
    (Hrun : VRMAvatar.lipSync audioState frame vrm = Done vrm') :
  VRMAvatar.humanoid vrm' = VRMAvatar.humanoid vrm
  /\ (VRMAvatar.expressionManager vrm = None ->
      VRMAvatar.expressionManager vrm' = None)
  /\ (forall em, VRMAvatar.expressionManager vrm = Some em ->
      exists em',
        VRMAvatar.expressionManager vrm' = Some em'
        /\ forall name, name <> "aa"%string -> name <> "blink"%string ->
             VRMAvatar.getValue em' name = VRMAvatar.getValue em name).
Proof.
  split; [now apply (lipSync_keeps_humanoid audioState frame)|]. split.
  - intros Hnone. rewrite lipSync_no_manager in Hrun by assumption.
    inversion Hrun. now subst vrm'.
  - intros em Hem.
    assert (Hother : forall name w, name <> "aa"%string -> name <> "blink"%string ->
              forall w', VRMAvatar.getValue
                           (VRMAvatar.setValue (VRMAvatar.setValue em "aa" w) "blink" w')
                           name = VRMAvatar.getValue em name).
    { intros name w Haa Hblink w'. rewrite !getValue_setValue.
      apply String.eqb_neq in Haa, Hblink. now rewrite Haa, Hblink. }
    destruct (isPlaying audioState) eqn:Hp;
      [destruct (analyser audioState) as [node|] eqn:Ha|].
    + destruct (VRMAvatar.volume (getByteFrequencyData node)) as [v|] eqn:Hv.
      * rewrite (lipSync_playing audioState frame vrm em node v) in Hrun by assumption.
        inversion Hrun. cbn [VRMAvatar.expressionManager].
        eexists. split; [reflexivity|].
        intros name Haa Hblink. destruct (Rgt_dec v 0.6); [now apply Hother|].
        rewrite getValue_setValue. apply String.eqb_neq in Haa. now rewrite Haa.
      * revert Hrun. unfold_lipSync. rewrite Hp, Ha, Hem, Hv. cbn. discriminate.
    + rewrite (lipSync_silent audioState frame vrm em) in Hrun
        by (assumption || now right).
      inversion Hrun. cbn [VRMAvatar.expressionManager].
      eexists. split; [reflexivity|]. intros name Haa Hblink. now apply Hother.
    + rewrite (lipSync_silent audioState frame vrm em) in Hrun
        by (assumption || now left).
      inversion Hrun. cbn [VRMAvatar.expressionManager].
      eexists. split; [reflexivity|]. intros name Haa Hblink. now apply Hother.
Qed.

Lemma lipSync_writes_aa_and_blink_witness :
  exists vrm' em',
    VRMAvatar.lipSync stopped frame0 (faceOnly openMouthManager) = Done vrm'
    /\ VRMAvatar.humanoid vrm' = noBones
    /\ VRMAvatar.expressionManager vrm' = Some em'
    /\ VRMAvatar.getValue em' "happy" = 1.
Proof.
  pose proof (lipSync_silent stopped frame0 (faceOnly openMouthManager)
                openMouthManager (or_introl eq_refl) eq_refl) as Hrun.
  destruct (lipSync_writes_aa_and_blink _ _ _ _ Hrun) as (Hh & _ & Hem).
  destruct (Hem openMouthManager eq_refl) as (em' & Hem' & Hother).
  eexists. exists em'. split; [exact Hrun|]. split; [exact Hh|]. split; [exact Hem'|].
  rewrite Hother by discriminate. reflexivity.
Defined.

(** ** The fallback shape: what a tick does to the whole mesh *)

Lemma DefaultAvatar_tick_full (baseBlue lighterBlue : THREE.Color)
    (audioState : AudioState) (elapsedTime : R) (refs : DefaultAvatar.Refs)
    (mesh : THREE.Object3D) (targetScaleY : R) (targetColor : THREE.Color) :
  DefaultAvatar.meshRef refs = Some mesh ->
  DefaultAvatar.targets baseBlue lighterBlue audioState = (Some targetScaleY, targetColor) ->
  0 < THREE.MathUtils.lerp (THREE.y (THREE.scale mesh)) targetScaleY 0.2 ->
  DefaultAvatar.useFrame baseBlue lighterBlue audioState elapsedTime refs =
  Done {| DefaultAvatar.meshRef := Some (tickedMesh mesh targetScaleY elapsedTime);
          DefaultAvatar.materialRef :=
            tickedMaterial (DefaultAvatar.materialRef refs) targetColor |}.
Proof.
  intros Hm Ht Hpos. unfold DefaultAvatar.useFrame. rewrite Hm, Ht.
  cbn [number bind]. unfold DefaultAvatar.inverseSqrt.
  destruct (Rlt_dec 0 _) as [_|Hn]; [|contradiction].
  cbn [bind]. unfold tickedMesh, tickedMaterial.
  destruct (DefaultAvatar.materialRef refs); reflexivity.
Qed.

Lemma targets_bytes (baseBlue lighterBlue : THREE.Color) (audioState : AudioState) :
  deliversBytes audioState ->
  exists targetScaleY targetColor,
    DefaultAvatar.targets baseBlue lighterBlue audioState = (Some targetScaleY, targetColor)
    /\ 1 <= targetScaleY <= 1.5.
Proof.
  intros Hb.
  destruct (targets_scale baseBlue lighterBlue audioState Hb) as (ty & Ht & Hr).
  destruct (DefaultAvatar.targets baseBlue lighterBlue audioState) as [o col].
  cbn [fst] in Ht. subst o. now exists ty, col.
Qed.

Lemma inverse_sqrt_range (scaleY : R) :
  1 <= scaleY <= 1.5 -> squashLimit <= 1 / sqrt scaleY <= 1.
Proof.
  intros [Hlo Hhi]. unfold squashLimit.
  assert (H1 : 1 <= sqrt scaleY) by (rewrite <- sqrt_1; now apply sqrt_le_1_alt).
  assert (H2 : sqrt scaleY <= sqrt 1.5) by now apply sqrt_le_1_alt.
  unfold Rdiv. rewrite !Rmult_1_l. split.
  - apply Rinv_le_contravar; lra.
  - rewrite <- Rinv_1. apply Rinv_le_contravar; lra.
Qed.

Lemma squashLimit_range : 0 < squashLimit <= 1.
Proof.
  pose proof (inverse_sqrt_range 1.5 ltac:(lra)) as [_ H]. split; [|exact H].
  unfold squashLimit. apply Rdiv_lt_0_compat; [lra|]. apply sqrt_lt_R0. lra.
Qed.

Lemma tickedMesh_in_range (mesh : THREE.Object3D) (targetScaleY elapsedTime : R) :
  scaleInRange (THREE.scale mesh) ->
  1 <= targetScaleY <= 1.5 ->
  scaleInRange (THREE.scale (tickedMesh mesh targetScaleY elapsedTime)).
Proof.
  intros (Hy & Hx & Hz) Ht. unfold scaleInRange, tickedMesh.
  cbn [THREE.scale THREE.x THREE.y THREE.z].
  assert (Hy' : 1 <= THREE.MathUtils.lerp (THREE.y (THREE.scale mesh)) targetScaleY 0.2 <= 1.5)
    by (rewrite lerp_convex; lra).
  pose proof (inverse_sqrt_range _ Hy') as Hi.
  set (scale_y := THREE.MathUtils.lerp (THREE.y (THREE.scale mesh)) targetScaleY 0.2) in *.
  split; [exact Hy'|]. rewrite !lerp_convex. split; lra.
Qed.

(** X8. From a mesh whose scales lie in range (height in [1, 1.5], width
    and depth in [1/sqrt(1.5), 1], as for the mounted unit box), on any
    run of frames whose analyser, when there is one, delivers 128 byte
    samples, every tick of the fallback driver completes and the scales
    are in range again at the end: the box never grows taller than 1.5 nor
    thinner than 1/sqrt(1.5), and no scale reaches 0. *)
Theorem DefaultAvatar_scales_in_range (baseBlue lighterBlue : THREE.Color)
    (frames : list (AudioState * R)) :
  forall refs mesh,
    DefaultAvatar.meshRef refs = Some mesh ->
    Forall bytesTick frames ->
    scaleInRange (THREE.scale mesh) ->
    exists refs' s,
      DefaultAvatar.useFrames baseBlue lighterBlue frames refs = Done refs'
      /\ scaleOf refs' = Some s
      /\ scaleInRange s
      /\ 0 < squashLimit.
Proof.
  induction frames as [|[audioState elapsedTime] rest IH]; intros refs mesh Hm Hall Hr.
  - exists refs, (THREE.scale mesh). cbn. unfold scaleOf. rewrite Hm.
    pose proof squashLimit_range. split; [reflexivity|]. split; [reflexivity|].
    split; [exact Hr|lra].
  - inversion Hall as [|? ? Hb Hrest]; subst. unfold bytesTick in Hb. cbn [fst] in Hb.
    destruct (targets_bytes baseBlue lighterBlue audioState Hb) as (ty & col & Ht & Hty).
    cbn [DefaultAvatar.useFrames].
    rewrite (DefaultAvatar_tick_full baseBlue lighterBlue audioState elapsedTime refs
               mesh ty col Hm Ht)
      by (destruct Hr as (Hy & _); rewrite lerp_convex; lra).
    cbn [bind].
    eapply IH; [reflexivity|exact Hrest|].
    now apply tickedMesh_in_range.
Qed.

Lemma DefaultAvatar_scales_in_range_witness :
  exists refs' s,
    DefaultAvatar.useFrames indigo periwinkle
      [(playing (constantFrame 255), 0); (stopped, 1)] mountedRefs = Done refs'
    /\ scaleOf refs' = Some s
    /\ scaleInRange s
    /\ 0 < squashLimit.
Proof.
  apply (DefaultAvatar_scales_in_range indigo periwinkle _ mountedRefs
           DefaultAvatar.mountedMesh).
  - reflexivity.
  - apply Forall_cons; [|apply Forall_cons; [|apply Forall_nil]].
    + intros node H. inversion H. apply constantFrame_wellFormed. lia.
    + intros node H. discriminate H.
  - pose proof squashLimit_range. unfold scaleInRange. cbn. lra.
Defined.

Lemma DefaultAvatar_volume_total (d : Uint8Array) :
  (30 <= List.length d)%nat ->
  DefaultAvatar.volume d = Some (Rmin 1 (IZR (total (slice d 2 30)) / 2800)).
Proof.
  intros Hlen. unfold DefaultAvatar.volume.
  rewrite averageBins_total by lia.
  change (INR (30 - 2)) with (INR 28). rewrite INR_IZR_INZ.
  cbn [Z.of_nat Pos.of_succ_nat Pos.succ].
  f_equal. f_equal. field.
Qed.

(** X9. With audio playing on a frame of at least 30 byte samples, the
    fallback driver's height target is 1 + min(1, S / 2800) / 2, where S
    is the sum of the samples of bins [2,30): between 1 and 1.5, and 1.5
    exactly when S >= 2800 (an average of 100); the target colour is the
    lighter one exactly when S > 560 (an average above 20). *)
Theorem DefaultAvatar_targets_thresholds (baseBlue lighterBlue : THREE.Color)
    (audioState : AudioState) (node : AnalyserNode)
    (Hplaying : isPlaying audioState = true)
    (Hanalyser : analyser audioState = Some node)
    (Hbins : (30 <= List.length (getByteFrequencyData node))%nat)
    (Hbytes : Forall (fun s => (0 <= s <= 255)%Z) (getByteFrequencyData node)) :
  exists targetScaleY,
    DefaultAvatar.targets baseBlue lighterBlue audioState =
      (Some targetScaleY,
       if (560 <? total (slice (getByteFrequencyData node) 2 30))%Z
       then lighterBlue else baseBlue)
    /\ targetScaleY =
       1 + Rmin 1 (IZR (total (slice (getByteFrequencyData node) 2 30)) / 2800) * 0.5
    /\ 1 <= targetScaleY <= 1.5
    /\ (targetScaleY = 1.5 <->
        (2800 <= total (slice (getByteFrequencyData node) 2 30))%Z).
Proof.
  pose proof (window_total_bounds _ 2 30 Hbins Hbytes) as [Hlo _].
  set (S := total (slice (getByteFrequencyData node) 2 30)) in *.
  assert (HS : 0 <= IZR S) by now apply IZR_le.
  eexists. split; [|split; [reflexivity|]].
  - unfold DefaultAvatar.targets. rewrite Hplaying, Hanalyser.
    rewrite DefaultAvatar_volume_total by assumption. fold S.
    f_equal.
    destruct (Rgt_dec (Rmin 1 (IZR S / 2800)) 0.2) as [Hgt|Hle];
      destruct (Z.ltb_spec 560 S) as [Hz|Hz]; try reflexivity; exfalso.
    + apply IZR_le in Hz. revert Hgt. unfold Rmin. destruct (Rle_dec _ _); lra.
    + apply IZR_lt in Hz. apply Hle. unfold Rmin. destruct (Rle_dec _ _); lra.
  - unfold Rmin. destruct (Rle_dec 1 (IZR S / 2800)) as [H1|H1].
    + split; [lra|]. split; [intros _|lra]. apply le_IZR. lra.
    + split; [lra|]. split; [lra|]. intros H. apply IZR_le in H. lra.
Qed.

Lemma DefaultAvatar_targets_thresholds_witness :
  exists targetScaleY,
    DefaultAvatar.targets indigo periwinkle (playing (constantFrame 21)) =
      (Some targetScaleY,
       if (560 <? total (slice (constantFrame 21) 2 30))%Z then periwinkle else indigo)
    /\ targetScaleY = 1 + Rmin 1 (IZR (total (slice (constantFrame 21) 2 30)) / 2800) * 0.5
    /\ 1 <= targetScaleY <= 1.5
    /\ (targetScaleY = 1.5 <-> (2800 <= total (slice (constantFrame 21) 2 30))%Z).
Proof.
  apply (DefaultAvatar_targets_thresholds indigo periwinkle (playing (constantFrame 21))
           {| getByteFrequencyData := constantFrame 21 |} eq_refl eq_refl).
  - vm_compute. lia.
  - apply constantFrame_wellFormed. lia.
Defined.

Lemma tickedMesh_positive (mesh : THREE.Object3D) (targetScaleY elapsedTime : R) :
  0 < THREE.y (THREE.scale mesh) -> 1 <= targetScaleY ->
  0 < THREE.y (THREE.scale (tickedMesh mesh targetScaleY elapsedTime)).
Proof.
  intros Hy Ht. cbn. rewrite lerp_convex. lra.
Qed.

Lemma float_range (t : R) : 0.3 <= sin (t * 2) * 0.2 + 0.5 <= 0.7.
Proof. pose proof (SIN_bound (t * 2)). lra. Qed.

(** X10. The idle float and the yaw spin of the fallback shape do not
    depend on the audio: over any run of frames that the driver completes
    (the analyser, when there is one, delivers 128 byte samples; the
    height is positive), the yaw grows by exactly 0.01 per frame, the
    other two angles and the horizontal position are untouched, and after
    the last frame the vertical position is sin(2 t) * 0.2 + 0.5 for that
    frame's clock t, hence within [0.3, 0.7]. *)
Theorem DefaultAvatar_float_and_spin (baseBlue lighterBlue : THREE.Color)
    (frames : list (AudioState * R)) :
  forall refs mesh,
    DefaultAvatar.meshRef refs = Some mesh ->
    Forall bytesTick frames ->
    0 < THREE.y (THREE.scale mesh) ->
    exists refs' mesh',
      DefaultAvatar.useFrames baseBlue lighterBlue frames refs = Done refs'
      /\ DefaultAvatar.meshRef refs' = Some mesh'
      /\ THREE.y (THREE.rotation mesh') =
         THREE.y (THREE.rotation mesh) + 0.01 * INR (List.length frames)
      /\ THREE.x (THREE.rotation mesh') = THREE.x (THREE.rotation mesh)
      /\ THREE.z (THREE.rotation mesh') = THREE.z (THREE.rotation mesh)
      /\ THREE.x (THREE.position mesh') = THREE.x (THREE.position mesh)
      /\ THREE.z (THREE.position mesh') = THREE.z (THREE.position mesh)
      /\ (frames <> [] ->
          THREE.y (THREE.position mesh') = sin (lastClock frames * 2) * 0.2 + 0.5
          /\ 0.3 <= THREE.y (THREE.position mesh') <= 0.7).
Proof.
  induction frames as [|[audioState elapsedTime] rest IH]; intros refs mesh Hm Hall Hy.
  - exists refs, mesh. cbn.
    split; [reflexivity|]. split; [exact Hm|]. split; [lra|].
    do 4 (split; [reflexivity|]). intros Hne. now elim Hne.
  - inversion Hall as [|? ? Hb Hrest]; subst. unfold bytesTick in Hb. cbn [fst] in Hb.
    destruct (targets_bytes baseBlue lighterBlue audioState Hb) as (ty & col & Ht & Hty).
    cbn [DefaultAvatar.useFrames].
    rewrite (DefaultAvatar_tick_full baseBlue lighterBlue audioState elapsedTime refs
               mesh ty col Hm Ht) by (rewrite lerp_convex; lra).
    cbn [bind].
    set (refs1 := {| DefaultAvatar.meshRef := _; DefaultAvatar.materialRef := _ |}).
    destruct (IH refs1 (tickedMesh mesh ty elapsedTime) eq_refl Hrest
                (tickedMesh_positive mesh ty elapsedTime Hy (proj1 Hty)))
      as (refs' & mesh' & Hrun & Hm' & Hyaw & Hrx & Hrz & Hpx & Hpz & Hlast).
    exists refs', mesh'. split; [exact Hrun|]. split; [exact Hm'|].
    cbn [tickedMesh THREE.rotation THREE.position THREE.x THREE.y THREE.z] in *.
    split; [rewrite Hyaw; change (List.length ((audioState, elapsedTime) :: rest))
                            with (S (List.length rest)); rewrite S_INR; lra|].
    repeat (split; [assumption|]).
    intros _. destruct rest as [|f2 rest2].
    + cbn in Hrun. inversion Hrun. subst refs'. cbn in Hm'. inversion Hm'. subst mesh'.
      cbn. split; [reflexivity|apply float_range].
    + destruct Hlast as [Hpy Hr]; [discriminate|]. split; [|exact Hr].
      rewrite Hpy. reflexivity.
Qed.

Lemma DefaultAvatar_float_and_spin_witness :
  exists refs' mesh',
    DefaultAvatar.useFrames indigo periwinkle
      [(playing (constantFrame 255), 0); (stopped, 1)] mountedRefs = Done refs'
    /\ DefaultAvatar.meshRef refs' = Some mesh'
    /\ THREE.y (THREE.rotation mesh') = 0 + 0.01 * INR 2
    /\ THREE.y (THREE.position mesh') = sin (1 * 2) * 0.2 + 0.5.
Proof.
  destruct (DefaultAvatar_float_and_spin indigo periwinkle
              [(playing (constantFrame 255), 0); (stopped, 1)] mountedRefs
              DefaultAvatar.mountedMesh)
    as (refs' & mesh' & Hrun & Hm & Hyaw & _ & _ & _ & _ & Hlast).
  - reflexivity.
  - apply Forall_cons; [|apply Forall_cons; [|apply Forall_nil]].
    + intros node H. inversion H. apply constantFrame_wellFormed. lia.
    + intros node H. discriminate H.
  - cbn. lra.
  - exists refs', mesh'. split; [exact Hrun|]. split; [exact Hm|].
    split; [exact Hyaw|]. apply Hlast. discriminate.
Defined.

Lemma Color_lerp_ticks (target c : THREE.Color) (n : nat) :
  Color_ticks target n (THREE.Color_lerp c target 0.1) = Color_ticks target (S n) c.
Proof.
  unfold Color_ticks, THREE.Color_lerp. cbn [THREE.r THREE.g THREE.b].
  now rewrite !ticks_shift.
Qed.

Lemma Color_ticks_0 (target c : THREE.Color) : Color_ticks target 0 c = c.
Proof. destruct c. reflexivity. Qed.

(** X11. In silence (audio not playing, or no analyser) the fallback shape
    relaxes geometrically: over n silent frames from a mesh of positive
    height and a mounted material, every tick completes, the height ends
    at n interpolation steps toward 1 with factor 0.2 (its distance to 1
    is multiplied by 0.8 per frame), and both material colours end at n
    interpolation steps toward the base colour with factor 0.1. *)
Theorem DefaultAvatar_relaxes_in_silence (baseBlue lighterBlue : THREE.Color)
    (frames : list (AudioState * R)) :
  forall refs mesh material,
    DefaultAvatar.meshRef refs = Some mesh ->
    DefaultAvatar.materialRef refs = Some material ->
    Forall silentTick frames ->
    0 < THREE.y (THREE.scale mesh) ->
    exists refs' mesh' material',
      DefaultAvatar.useFrames baseBlue lighterBlue frames refs = Done refs'
      /\ DefaultAvatar.meshRef refs' = Some mesh'
      /\ DefaultAvatar.materialRef refs' = Some material'
      /\ THREE.y (THREE.scale mesh') =
         ticks 1 0.2 (List.length frames) (THREE.y (THREE.scale mesh))
      /\ Rabs (THREE.y (THREE.scale mesh') - 1) =
         (1 - 0.2) ^ List.length frames * Rabs (THREE.y (THREE.scale mesh) - 1)
      /\ DefaultAvatar.color material' =
         Color_ticks baseBlue (List.length frames) (DefaultAvatar.color material)
      /\ DefaultAvatar.emissive material' =
         Color_ticks baseBlue (List.length frames) (DefaultAvatar.emissive material).
Proof.
  induction frames as [|[audioState elapsedTime] rest IH];
    intros refs mesh material Hm Hmat Hall Hy.
  - exists refs, mesh, material. cbn [DefaultAvatar.useFrames List.length].
    rewrite !Color_ticks_0. unfold ticks. cbn [Nat.iter pow].
    repeat split; try assumption; try reflexivity. lra.
  - inversion Hall as [|? ? Hs Hrest]; subst. unfold silentTick in Hs. cbn [fst] in Hs.
    cbn [DefaultAvatar.useFrames].
    rewrite (DefaultAvatar_tick_full baseBlue lighterBlue audioState elapsedTime refs
               mesh 1 baseBlue Hm (targets_silent baseBlue lighterBlue audioState Hs))
      by (rewrite lerp_convex; lra).
    cbn [bind]. rewrite Hmat. cbn [tickedMaterial].
    set (refs1 := {| DefaultAvatar.meshRef := _; DefaultAvatar.materialRef := _ |}).
    destruct (IH refs1 (tickedMesh mesh 1 elapsedTime) _ eq_refl eq_refl Hrest
                (tickedMesh_positive mesh 1 elapsedTime Hy (Rle_refl 1)))
      as (refs' & mesh' & material' & Hrun & Hm' & Hmat' & Hsy & _ & Hc & He).
    exists refs', mesh', material'.
    split; [exact Hrun|]. split; [exact Hm'|]. split; [exact Hmat'|].
    cbn [tickedMesh THREE.scale THREE.y DefaultAvatar.color DefaultAvatar.emissive
         List.length] in *.
    rewrite ticks_shift in Hsy. rewrite Color_lerp_ticks in Hc, He.
    split; [exact Hsy|]. split; [|split; assumption].
    rewrite Hsy. apply ticks_distance. lra.
Qed.

Lemma DefaultAvatar_relaxes_in_silence_witness :
  exists refs' mesh' material',
    DefaultAvatar.useFrames indigo periwinkle [(stopped, 0); (playingWithoutAnalyser, 1)]
      {| DefaultAvatar.meshRef := Some DefaultAvatar.mountedMesh;
         DefaultAvatar.materialRef := Some (mountedMaterial periwinkle) |} = Done refs'
    /\ DefaultAvatar.meshRef refs' = Some mesh'
    /\ DefaultAvatar.materialRef refs' = Some material'
    /\ THREE.y (THREE.scale mesh') = ticks 1 0.2 2 1
    /\ DefaultAvatar.color material' = Color_ticks indigo 2 periwinkle.
Proof.
  destruct (DefaultAvatar_relaxes_in_silence indigo periwinkle
              [(stopped, 0); (playingWithoutAnalyser, 1)]
              {| DefaultAvatar.meshRef := Some DefaultAvatar.mountedMesh;
                 DefaultAvatar.materialRef := Some (mountedMaterial periwinkle) |}
              DefaultAvatar.mountedMesh (mountedMaterial periwinkle))
    as (refs' & mesh' & material' & Hrun & Hm & Hmat & Hy & _ & Hc & _).
  - reflexivity.
  - reflexivity.
  - apply Forall_cons; [left; reflexivity|].
    apply Forall_cons; [right; reflexivity|apply Forall_nil].
  - cbn. lra.
  - exists refs', mesh', material'. auto.
Defined.

(** ** The morph driver: what a frame may change *)






Lemma MMDModel_value_total (d : Uint8Array) :
  (50 <= List.length d)%nat ->
  Forall (fun s => (0 <= s <= 255)%Z) d ->
  MMDModel.value d = Some (Rmin 1 (IZR (total (slice d 2 50)) / 2400)).
Proof.
  intros Hlen Hb. unfold MMDModel.value.
  rewrite averageBins_total by lia.
  pose proof (window_total_bounds d 2 50 Hlen Hb) as [Hlo _].
  apply IZR_le in Hlo.
  change (INR (50 - 2)) with (INR 48). rewrite INR_IZR_INZ.
  cbn [Z.of_nat Pos.of_succ_nat Pos.succ].
  f_equal. set (S := IZR (total (slice d 2 50))) in *.
  unfold Rmin, Rmax. repeat (destruct (Rle_dec _ _)); lra.
Qed.

(** X13. On a frame of at least 50 byte samples the morph driver's value
    is min(1, S / 2400), where S is the sum of the 48 samples of bins
    [2,50): it lies in [0,1] and is 1 exactly when S >= 2400 (an average
    of 50 out of 255). *)
Theorem MMDModel_value_saturation (dataArray : Uint8Array)
    (Hbins : (50 <= List.length dataArray)%nat)
    (Hbytes : Forall (fun s => (0 <= s <= 255)%Z) dataArray) :
  exists value,
    MMDModel.value dataArray = Some value
    /\ value = Rmin 1 (IZR (total (slice dataArray 2 50)) / 2400)
    /\ 0 <= value <= 1
    /\ (value = 1 <-> (2400 <= total (slice dataArray 2 50))%Z).
Proof.
  eexists. split; [now apply MMDModel_value_total|]. split; [reflexivity|].
  pose proof (window_total_bounds dataArray 2 50 Hbins Hbytes) as [Hlo _].
  set (S := total (slice dataArray 2 50)) in *.
  assert (HS : 0 <= IZR S) by now apply IZR_le.
  unfold Rmin. destruct (Rle_dec 1 (IZR S / 2400)) as [H1|H1].
  - split; [lra|]. split; [intros _|reflexivity]. apply le_IZR. lra.
  - split; [lra|]. split; [lra|]. intros H. apply IZR_le in H. lra.
Qed.

Lemma MMDModel_value_saturation_witness :
  exists value,
    MMDModel.value (constantFrame 50) = Some value
    /\ value = Rmin 1 (IZR (total (slice (constantFrame 50) 2 50)) / 2400)
    /\ 0 <= value <= 1
    /\ (value = 1 <-> (2400 <= total (slice (constantFrame 50) 2 50))%Z).
Proof.
  apply (MMDModel_value_saturation (constantFrame 50)).
  - vm_compute. lia.
  - apply constantFrame_wellFormed. lia.
Defined.

Lemma MMDModel_value_unit (d : Uint8Array) :
  wellFormedFrame d -> exists v, MMDModel.value d = Some v /\ unitWeight v.
Proof.
  intros [Hlen Hb].
  assert (H50 : (50 <= List.length d)%nat) by (rewrite Hlen; vm_compute; lia).
  eexists. split; [now apply MMDModel_value_total|].
  pose proof (window_total_bounds d 2 50 H50 Hb) as [Hlo _]. apply IZR_le in Hlo.
  unfold unitWeight, Rmin. destruct (Rle_dec _ _); lra.
Qed.

(** X14. With the mouth morph inside the influence array and its weight
    in [0,1], on any run of frames whose analyser, when there is one,
    delivers 128 byte samples, the morph driver completes every frame and
    the mouth weight is in [0,1] at the end. *)
Theorem MMDModel_mouth_stays_unit (audioStates : list AudioState) (index : nat) :
  forall influences current,
    Forall deliversBytes audioStates ->
    nth_error influences index = Some current ->
    unitWeight current ->
    exists influences' final,
      MMDModel.useFrames audioStates (morphMesh influences index) =
        Done (morphMesh influences' index)
      /\ List.length influences' = List.length influences
      /\ nth_error influences' index = Some final
      /\ unitWeight final.
Proof.
  induction audioStates as [|a rest IH]; intros influences current Hall Hc Hu.
  - exists influences, current. auto.
  - inversion Hall as [|? ? Hb Hrest]; subst. cbn [MMDModel.useFrames].
    assert (Hstep : exists target factor,
              MMDModel.useFrame a (morphMesh influences index) =
                Done (morphMesh (MMDModel.setInfluence influences index
                                   (THREE.MathUtils.lerp current target factor)) index)
              /\ unitWeight target /\ 0 <= factor <= 1).
    { destruct (isPlaying a) eqn:Hp.
      - destruct (analyser a) as [node|] eqn:Ha.
        + destruct (MMDModel_value_unit _ (Hb node Ha)) as (v & Hv & Hvu).
          exists v, 0.4. split; [now apply (MMDModel_playing a node)|].
          split; [exact Hvu|lra].
        + exists current, 1. split; [|split; [exact Hu|lra]].
          rewrite (MMDModel_frozen a _ Hp Ha). f_equal. f_equal.
          rewrite lerp_fixed.
          clear - Hc. revert index Hc.
          induction influences as [|x l IHl]; intros [|i] Hc; simpl in *;
            try discriminate.
          * now inversion Hc.
          * f_equal. now apply IHl.
      - exists 0, 0.2. split; [now apply MMDModel_reset|].
        split; [unfold unitWeight; lra|lra]. }
    destruct Hstep as (target & factor & -> & Ht & Hf). cbn [bind].
    destruct (IH _ _ Hrest
                (setInfluence_same influences index current
                   (THREE.MathUtils.lerp current target factor) Hc)
                (lerp_unit current target factor Hu Ht Hf))
      as (influences' & final & Hrun & Hlen & Hn & Hfu).
    exists influences', final. split; [exact Hrun|].
    split; [now rewrite Hlen, setInfluence_length|]. auto.
Qed.

Lemma MMDModel_mouth_stays_unit_witness :
  exists influences' final,
    MMDModel.useFrames [playing (constantFrame 50); playingWithoutAnalyser; stopped]
      (morphMesh [0; 0.5] 0) = Done (morphMesh influences' 0)
    /\ List.length influences' = 2%nat
    /\ nth_error influences' 0 = Some final
    /\ unitWeight final.
Proof.
  apply (MMDModel_mouth_stays_unit _ 0 [0; 0.5] 0).
  - apply Forall_cons; [|apply Forall_cons; [|apply Forall_cons; [|apply Forall_nil]]].
    + intros node H. inversion H. apply constantFrame_wellFormed. lia.
    + intros node H. discriminate H.
    + intros node H. discriminate H.
  - reflexivity.
  - unfold unitWeight. lra.
Defined.

(** * The services *)

Lemma orElse_nonempty (v : option string) (fallback : string) :
  fallback <> ""%string -> orElse v fallback <> ""%string.
Proof.
  intros Hf. unfold orElse. destruct v as [s|]; [|exact Hf].
  destruct (String.eqb_spec s ""); assumption.
Qed.

Lemma truthyString_orElse (v : option string) (fallback : string) :
  fallback <> ""%string -> truthyString (Some (orElse v fallback)) = true.
Proof.
  intros Hf. unfold truthyString.
  apply negb_true_iff, String.eqb_neq. now apply orElse_nonempty.
Qed.

(** X15. Whatever the environment defines, the configured keys are never
    empty, so the missing-key branches of the OpenAI/ElevenLabs service
    are dead: [generateTextResponse] and [generateSpeech] always issue
    their request and return what the exchange comes to.  With nothing
    configured the request carries the placeholder key. *)
Theorem missing_key_branches_are_dead (env : config.ProcessEnv) :
  (forall fetch messages userPrompt,
      apiService.generateTextResponse (config.OPENAI_API_KEY env) fetch messages userPrompt =
      match fetch (apiService.chatRequest (config.OPENAI_API_KEY env) messages userPrompt) with
      | Fulfilled response =>
          if negb (apiService.ok response) then
            Rejected (ErrorObject
                        (orElse (apiService.error_message response) "OpenAI API Error"))
          else
            Fulfilled (orElse (apiService.choice_content response)
                         "I couldn't think of a response.")
      | Rejected error => Rejected error
      end)
  /\ (forall fetch text,
      apiService.generateSpeech (config.ELEVENLABS_API_KEY env)
        (config.ELEVENLABS_VOICE_ID env) fetch text =
      match fetch (apiService.speechRequest (config.ELEVENLABS_API_KEY env)
                     (config.ELEVENLABS_VOICE_ID env) text) with
      | Fulfilled response =>
          if negb (apiService.speech_ok response) then
            Rejected (ErrorObject
                        (orElse (apiService.detail_message response) "ElevenLabs API Error"))
          else apiService.arrayBuffer response
      | Rejected error => Rejected error
      end)
  /\ (env "OPENAI_API_KEY"%string = None ->
      forall messages userPrompt,
        apiService.authorization
          (apiService.chatRequest (config.OPENAI_API_KEY env) messages userPrompt) =
        "Bearer YOUR_OPENAI_API_KEY_HERE"%string).
Proof.
  split; [|split].
  - intros fetch messages userPrompt. unfold apiService.generateTextResponse.
    unfold config.OPENAI_API_KEY. now rewrite truthyString_orElse.
  - intros fetch text. unfold apiService.generateSpeech.
    unfold config.ELEVENLABS_API_KEY at 1. now rewrite truthyString_orElse.
  - intros Hnone messages userPrompt. unfold config.OPENAI_API_KEY.
    rewrite Hnone. reflexivity.
Qed.

Lemma missing_key_branches_are_dead_witness :
  apiService.authorization
    (apiService.chatRequest (config.OPENAI_API_KEY (fun _ => None)) [] "hello") =
  "Bearer YOUR_OPENAI_API_KEY_HERE"%string.
Proof.
  destruct (missing_key_branches_are_dead (fun _ => None)) as (_ & _ & H).
  apply H. reflexivity.
Defined.

(** X16. A reply of either text service is never the empty string, and
    neither is the message of the error raised on a response that is not
    ok: an empty or missing content is replaced by a fixed sentence. *)
Theorem replies_are_never_empty :
  (forall key fetch messages userPrompt reply,
      apiService.generateTextResponse key fetch messages userPrompt = Fulfilled reply ->
      reply <> ""%string)
  /\ (forall key fetch messages userPrompt response,
      truthyString (Some key) = true ->
      fetch (apiService.chatRequest key messages userPrompt) = Fulfilled response ->
      apiService.ok response = false ->
      exists message,
        apiService.generateTextResponse key fetch messages userPrompt =
          Rejected (ErrorObject message)
        /\ message <> ""%string)
  /\ (forall sendMessage messages prompt reply,
      geminiService.generateTextResponse sendMessage messages prompt = Fulfilled reply ->
      reply <> ""%string).
Proof.
  split; [|split].
  - intros key fetch messages userPrompt reply.
    unfold apiService.generateTextResponse.
    destruct (truthyString (Some key)); cbn [negb].
    + destruct (fetch _) as [response|e]; [|discriminate].
      destruct (apiService.ok response); cbn [negb]; [|discriminate].
      intros H. inversion H. now apply orElse_nonempty.
    + intros H. inversion H. discriminate.
  - intros key fetch messages userPrompt response Hk Hf Hok.
    unfold apiService.generateTextResponse. rewrite Hk, Hf, Hok. cbn [negb].
    eexists. split; [reflexivity|]. now apply orElse_nonempty.
  - intros sendMessage messages prompt reply.
    unfold geminiService.generateTextResponse.
    destruct (sendMessage _ _) as [text|e]; [|discriminate].
    intros H. inversion H. now apply orElse_nonempty.
Qed.

Lemma replies_are_never_empty_witness :
  apiService.generateTextResponse "k"
    (fun _ => Fulfilled {| apiService.ok := true;
                           apiService.error_message := None;
                           apiService.choice_content := Some ""%string |})
    [] "hi" = Fulfilled "I couldn't think of a response."%string
  /\ "I couldn't think of a response."%string <> ""%string.
Proof.
  split; [reflexivity|].
  destruct replies_are_never_empty as (Hreply & _ & _).
  apply (Hreply "k"%string
           (fun _ => Fulfilled {| apiService.ok := true;
                                  apiService.error_message := None;
                                  apiService.choice_content := Some ""%string |})
           [] "hi"%string).
  reflexivity.
Defined.

(** ** The byte copy of the Gemini speech service *)

Lemma Uint8Array_set_app (pre rest : Uint8Array) (b v : Z) :
  geminiService.Uint8Array_set (pre ++ b :: rest) (List.length pre) v =
  pre ++ (v mod 256)%Z :: rest.
Proof.
  induction pre as [|a pre IH]; cbn; [reflexivity|]. now rewrite IH.
Qed.

Lemma firstn_S_nth (l : list Z) (i : nat) :
  (i < List.length l)%nat -> firstn (S i) l = firstn i l ++ [nth i l 0%Z].
Proof.
  revert i. induction l as [|a l IH]; intros [|i] Hi; cbn in *; try lia.
  - reflexivity.
  - f_equal. apply IH. lia.
Qed.

Lemma decodeLoop_copies (binaryString : list Z) :
  forall n i,
    (i + n = List.length binaryString)%nat ->
    geminiService.decodeLoop binaryString
      (map (fun c => (c mod 256)%Z) (firstn i binaryString) ++ repeat 0%Z n) i n =
    map (fun c => (c mod 256)%Z) binaryString.
Proof.
  induction n as [|n IH]; intros i Hlen; cbn [geminiService.decodeLoop repeat].
  - rewrite app_nil_r, firstn_all2 by lia. reflexivity.
  - replace i with (List.length (map (fun c => (c mod 256)%Z) (firstn i binaryString)))
      at 2 by (rewrite length_map, length_firstn; lia).
    rewrite Uint8Array_set_app.
    rewrite <- (IH (S i)) by lia.
    f_equal. rewrite firstn_S_nth by lia.
    rewrite map_app, <- app_assoc. reflexivity.
Qed.

(** X17. The decoding loop of the Gemini speech service copies the binary
    string unit by unit: the byte array has the length of the string and
    holds each code unit modulo 256; on what a base64 decoder returns
    (code units below 256) it is the string's code units unchanged. *)
Theorem decodeBinaryString_copies (binaryString : list Z) :
  geminiService.decodeBinaryString binaryString =
    map (fun c => (c mod 256)%Z) binaryString
  /\ List.length (geminiService.decodeBinaryString binaryString) =
     List.length binaryString
  /\ (Forall (fun c => (0 <= c < 256)%Z) binaryString ->
      geminiService.decodeBinaryString binaryString = binaryString).
Proof.
  assert (H : geminiService.decodeBinaryString binaryString =
              map (fun c => (c mod 256)%Z) binaryString).
  { unfold geminiService.decodeBinaryString.
    apply (decodeLoop_copies binaryString (List.length binaryString) 0). lia. }
  split; [exact H|]. split; [rewrite H; apply length_map|].
  intros Hall. rewrite H. clear H.
  induction Hall as [|c l Hc Hl IH]; cbn; [reflexivity|].
  rewrite IH. f_equal. apply Z.mod_small. exact Hc.
Qed.

Lemma decodeBinaryString_copies_witness :
  geminiService.decodeBinaryString [73; 68; 51]%Z = [73; 68; 51]%Z.
Proof.
  destruct (decodeBinaryString_copies [73; 68; 51]%Z) as (_ & _ & H).
  apply H. repeat constructor; lia.
Defined.

(** ** The conversation sent to the text services *)

Lemma removelast_snoc (A : Type) (l : list A) (a : A) : removelast (l ++ [a]) = l.
Proof. rewrite removelast_app by discriminate. cbn. apply app_nil_r. Qed.

(** The Gemini text service sends as history every message but the last,
    in order, each with its role and text. *)
Lemma gemini_history_drops_last (previous : list types.Message) (last : types.Message) :
  geminiService.history (previous ++ [last]) =
    map (fun m => {| geminiService.role := types.role m;
                     geminiService.parts := [types.text m] |}) previous
  /\ List.length (geminiService.history (previous ++ [last])) = List.length previous
  /\ geminiService.history [] = [].
Proof.
  unfold geminiService.history, geminiService.historyMessages.
  rewrite removelast_snoc. split; [reflexivity|]. split; [apply length_map|reflexivity].
Qed.

(** * The chat panel *)

Lemma endsWith_substring_app (prefix search : string) :
  substring (String.length prefix) (String.length search) (String.append prefix search) =
  search.
Proof.
  induction prefix as [|c prefix IH]; cbn.
  - induction search as [|d search IH]; cbn; [reflexivity|]. now rewrite IH.
  - exact IH.
Qed.

Lemma substring_all (s : string) : substring 0 (String.length s) s = s.
Proof. induction s as [|c s IH]; cbn; [reflexivity|]. now rewrite IH. Qed.

Lemma substring_split (s : string) :
  forall k, (k <= String.length s)%nat ->
    s = String.append (substring 0 k s) (substring k (String.length s - k) s).
Proof.
  induction s as [|c s IH]; intros [|k] Hk.
  - reflexivity.
  - cbn in Hk. lia.
  - rewrite Nat.sub_0_r, substring_all. reflexivity.
  - cbn in Hk. cbn. f_equal. apply IH. lia.
Qed.

Lemma string_length_append (a b : string) :
  String.length (String.append a b) = (String.length a + String.length b)%nat.
Proof. induction a as [|c a IH]; cbn; [reflexivity|]. now rewrite IH. Qed.

Lemma endsWith_spec (str search : string) :
  endsWith str search = true <-> exists prefix, str = String.append prefix search.
Proof.
  unfold endsWith. split.
  - intros H. apply andb_true_iff in H. destruct H as [Hle Heq].
    apply Nat.leb_le in Hle. apply String.eqb_eq in Heq.
    exists (substring 0 (String.length str - String.length search) str).
    pose proof (substring_split str (String.length str - String.length search)
                  ltac:(lia)) as Hsplit.
    replace (String.length str - (String.length str - String.length search))%nat
      with (String.length search) in Hsplit by lia.
    now rewrite Heq in Hsplit.
  - intros [prefix ->]. rewrite string_length_append.
    apply andb_true_iff. split; [apply Nat.leb_le; lia|].
    apply String.eqb_eq.
    replace (String.length prefix + String.length search - String.length search)%nat
      with (String.length prefix) by lia.
    apply endsWith_substring_app.
Qed.

(** X18. A chosen file is passed to the parent exactly when its name ends
    with ".vrm", in lower case: only the first file of the selection is
    looked at, any other name raises the alert instead (so "avatar.VRM"
    is refused), and an empty or missing selection does nothing. *)
Theorem handleFileChange_accepts_vrm (files : option (list ChatInterface.File)) :
  (forall file rest, files = Some (file :: rest) ->
      ((exists prefix, ChatInterface.name file = String.append prefix ".vrm") ->
       ChatInterface.handleFileChange files = [ChatInterface.onModelUpload file])
      /\ (~ (exists prefix, ChatInterface.name file = String.append prefix ".vrm") ->
          ChatInterface.handleFileChange files =
          [ChatInterface.alert "Please select a valid .vrm file"]))
  /\ (files = None \/ files = Some [] -> ChatInterface.handleFileChange files = [])
  /\ ChatInterface.handleFileChange
       (Some [{| ChatInterface.name := "avatar.VRM" |}]) =
     [ChatInterface.alert "Please select a valid .vrm file"].
Proof.
  split; [|split].
  - intros file rest ->. cbn [ChatInterface.handleFileChange].
    destruct (endsWith (ChatInterface.name file) ".vrm") eqn:He.
    + split; [reflexivity|]. intros Hn. elim Hn. now apply endsWith_spec.
    + split; [|reflexivity]. intros Hp. apply endsWith_spec in Hp. congruence.
  - intros [-> | ->]; reflexivity.
  - reflexivity.
Qed.

Lemma handleFileChange_accepts_vrm_witness :
  ChatInterface.handleFileChange
    (Some [{| ChatInterface.name := "vivian.vrm" |}; {| ChatInterface.name := "b.txt" |}]) =
  [ChatInterface.onModelUpload {| ChatInterface.name := "vivian.vrm" |}].
Proof.
  destruct (handleFileChange_accepts_vrm
              (Some [{| ChatInterface.name := "vivian.vrm" |};
                     {| ChatInterface.name := "b.txt" |}])) as (H & _ & _).
  destruct (H _ _ eq_refl) as [Hyes _].
  apply Hyes. exists "vivian"%string. reflexivity.
Defined.

(** ** The typing indicator *)

Lemma remove_single (h : nat) : remove Nat.eq_dec h [h] = [].
Proof. cbn. destruct (Nat.eq_dec h h) as [_|N]; [reflexivity|now elim N]. Qed.

Lemma clearTypingTimeout_disarms (page : ChatInterface.Page) :
  typingInvariant page ->
  ChatInterface.armed
    (ChatInterface.performAll
       (ChatInterface.clearTypingTimeout (ChatInterface.chat page)) page) = [].
Proof.
  intros ([Hnone | (h & Harmed & Href & Hh)] & _ & _);
    unfold ChatInterface.clearTypingTimeout.
  - destruct (ChatInterface.typingTimeoutRef (ChatInterface.chat page)) as [[|h]|];
      cbn; rewrite ?Hnone; reflexivity.
  - rewrite Href. destruct h as [|h]; [lia|]. cbn. rewrite Harmed. apply remove_single.
Qed.

Lemma performAll_app (calls calls' : list ChatInterface.Call) (page : ChatInterface.Page) :
  ChatInterface.performAll (calls ++ calls') page =
  ChatInterface.performAll calls' (ChatInterface.performAll calls page).
Proof. apply fold_left_app. Qed.

Lemma clearTypingTimeout_keeps (page : ChatInterface.Page) (st : ChatInterface.State) :
  let page' := ChatInterface.performAll (ChatInterface.clearTypingTimeout st) page in
  ChatInterface.chat page' = ChatInterface.chat page
  /\ ChatInterface.nextHandle page' = ChatInterface.nextHandle page
  /\ ChatInterface.isUserTyping page' = ChatInterface.isUserTyping page
  /\ ChatInterface.sent page' = ChatInterface.sent page.
Proof.
  unfold ChatInterface.clearTypingTimeout.
  destruct (ChatInterface.typingTimeoutRef st) as [[|h]|]; cbn; auto.
Qed.

Lemma step_change (trim : string -> string) (page : ChatInterface.Page) (value : string) :
  typingInvariant page ->
  let page' := ChatInterface.step trim page (ChatInterface.change value) in
  ChatInterface.armed page' = [ChatInterface.nextHandle page]
  /\ ChatInterface.chat page' =
     {| ChatInterface.input := value;
        ChatInterface.typingTimeoutRef := Some (ChatInterface.nextHandle page) |}
  /\ ChatInterface.nextHandle page' = S (ChatInterface.nextHandle page)
  /\ ChatInterface.isUserTyping page' = true
  /\ ChatInterface.sent page' = ChatInterface.sent page.
Proof.
  intros Hinv. cbn [ChatInterface.step ChatInterface.handleInputChange].
  rewrite !performAll_app.
  set (p1 := ChatInterface.performAll [ChatInterface.onUserTyping true] _).
  assert (Hinv1 : typingInvariant
            {| ChatInterface.chat := ChatInterface.chat page;
               ChatInterface.armed := ChatInterface.armed p1;
               ChatInterface.nextHandle := ChatInterface.nextHandle p1;
               ChatInterface.isUserTyping := false;
               ChatInterface.sent := ChatInterface.sent p1 |}).
  { destruct Hinv as (H1 & _ & H3). split; [exact H1|]. split; [discriminate|exact H3]. }
  pose proof (clearTypingTimeout_disarms _ Hinv1) as Hd.
  pose proof (clearTypingTimeout_keeps p1 (ChatInterface.chat page)) as (Hc & Hn & Ht & Hs).
  cbn [ChatInterface.chat] in Hd.
  assert (Harm : ChatInterface.armed
            (ChatInterface.performAll
               (ChatInterface.clearTypingTimeout (ChatInterface.chat page)) p1) = []).
  { revert Hd. unfold ChatInterface.clearTypingTimeout.
    destruct (ChatInterface.typingTimeoutRef (ChatInterface.chat page)) as [[|h]|];
      cbn; auto. }
  cbn [ChatInterface.performAll fold_left ChatInterface.perform].
  fold (ChatInterface.performAll
          (ChatInterface.clearTypingTimeout (ChatInterface.chat page)) p1).
  cbn [ChatInterface.armed ChatInterface.chat ChatInterface.nextHandle
       ChatInterface.isUserTyping ChatInterface.sent].
  rewrite Harm, Hc, Ht, Hs. subst p1. cbn. auto.
Qed.

Lemma step_submit_sends (trim : string -> string) (page : ChatInterface.Page) :
  typingInvariant page ->
  trim (ChatInterface.input (ChatInterface.chat page)) <> ""%string ->
  let page' := ChatInterface.step trim page (ChatInterface.submit false) in
  ChatInterface.armed page' = []
  /\ ChatInterface.input (ChatInterface.chat page') = ""%string
  /\ ChatInterface.nextHandle page' = ChatInterface.nextHandle page
  /\ ChatInterface.isUserTyping page' = false
  /\ ChatInterface.sent page' =
     ChatInterface.sent page ++ [ChatInterface.input (ChatInterface.chat page)].
Proof.
  intros Hinv Hne. cbn [ChatInterface.step]. unfold ChatInterface.handleSubmit.
  assert (Ht : truthyString (Some (trim (ChatInterface.input (ChatInterface.chat page)))) = true)
    by (cbn; now apply negb_true_iff, String.eqb_neq).
  rewrite Ht. cbn [andb negb]. rewrite !performAll_app.
  set (p0 := ChatInterface.performAll [ChatInterface.preventDefault] _).
  assert (Hinv0 : typingInvariant
            {| ChatInterface.chat := ChatInterface.chat page;
               ChatInterface.armed := ChatInterface.armed p0;
               ChatInterface.nextHandle := ChatInterface.nextHandle p0;
               ChatInterface.isUserTyping := ChatInterface.isUserTyping p0;
               ChatInterface.sent := ChatInterface.sent p0 |}) by exact Hinv.
  pose proof (clearTypingTimeout_disarms _ Hinv0) as Hd.
  pose proof (clearTypingTimeout_keeps p0 (ChatInterface.chat page)) as (Hc & Hn & Hty & Hs).
  cbn [ChatInterface.chat] in Hd.
  assert (Harm : ChatInterface.armed
            (ChatInterface.performAll
               (ChatInterface.clearTypingTimeout (ChatInterface.chat page)) p0) = []).
  { revert Hd. unfold ChatInterface.clearTypingTimeout.
    destruct (ChatInterface.typingTimeoutRef (ChatInterface.chat page)) as [[|h]|];
      cbn; auto. }
  cbn [ChatInterface.performAll fold_left ChatInterface.perform].
  fold (ChatInterface.performAll
          (ChatInterface.clearTypingTimeout (ChatInterface.chat page)) p0).
  cbn [ChatInterface.armed ChatInterface.chat ChatInterface.nextHandle
       ChatInterface.isUserTyping ChatInterface.sent].
  rewrite Harm, Hc, Hn, Hs. subst p0. cbn. auto.
Qed.

Lemma step_submit_ignored (trim : string -> string) (page : ChatInterface.Page)
    (isProcessing : bool) :
  trim (ChatInterface.input (ChatInterface.chat page)) = ""%string \/ isProcessing = true ->
  ChatInterface.step trim page (ChatInterface.submit isProcessing) = page.
Proof.
  intros H. cbn [ChatInterface.step]. unfold ChatInterface.handleSubmit.
  assert (Hc : truthyString (Some (trim (ChatInterface.input (ChatInterface.chat page))))
               && negb isProcessing = false).
  { destruct H as [-> | ->]; [reflexivity|apply andb_false_r]. }
  rewrite Hc. cbn. now destruct page.
Qed.

Lemma step_timeoutFires (trim : string -> string) (page : ChatInterface.Page) (handle : nat) :
  typingInvariant page ->
  In handle (ChatInterface.armed page) ->
  let page' := ChatInterface.step trim page (ChatInterface.timeoutFires handle) in
  ChatInterface.armed page' = []
  /\ ChatInterface.chat page' = ChatInterface.chat page
  /\ ChatInterface.nextHandle page' = ChatInterface.nextHandle page
  /\ ChatInterface.isUserTyping page' = false
  /\ ChatInterface.sent page' = ChatInterface.sent page.
Proof.
  intros ([Hnone | (h & Harmed & _)] & _) Hin; [rewrite Hnone in Hin; contradiction|].
  cbn [ChatInterface.step].
  destruct (in_dec Nat.eq_dec handle (ChatInterface.armed page)) as [_|N];
    [|contradiction].
  rewrite Harmed in Hin |- *. destruct Hin as [<-|[]]. cbn.
  destruct (Nat.eq_dec h h) as [_|N]; [auto|now elim N].
Qed.

Lemma step_invariant (trim : string -> string) (page : ChatInterface.Page)
    (event : ChatInterface.Event) :
  typingInvariant page -> typingInvariant (ChatInterface.step trim page event).
Proof.
  intros Hinv. destruct event as [value|isProcessing|handle].
  - destruct (step_change trim page value Hinv) as (Ha & Hc & Hn & Ht & _).
    destruct Hinv as (_ & _ & H3).
    split; [right; exists (ChatInterface.nextHandle page); rewrite Ha, Hc, Hn;
            cbn; repeat split; lia|].
    split; [rewrite Ha; discriminate|rewrite Hn; lia].
  - destruct (String.eqb_spec
                (trim (ChatInterface.input (ChatInterface.chat page))) "") as [He|Hne];
      [rewrite step_submit_ignored by (now left); exact Hinv|].
    destruct isProcessing;
      [rewrite step_submit_ignored by (now right); exact Hinv|].
    destruct (step_submit_sends trim page Hinv Hne) as (Ha & _ & Hn & Ht & _).
    destruct Hinv as (_ & _ & H3).
    split; [now left|]. split; [rewrite Ht; discriminate|rewrite Hn; exact H3].
  - destruct (in_dec Nat.eq_dec handle (ChatInterface.armed page)) as [Hin|Hnot].
    + destruct (step_timeoutFires trim page handle Hinv Hin) as (Ha & _ & Hn & Ht & _).
      destruct Hinv as (_ & _ & H3).
      split; [now left|]. split; [rewrite Ht; discriminate|rewrite Hn; exact H3].
    + cbn [ChatInterface.step].
      destruct (in_dec Nat.eq_dec handle (ChatInterface.armed page)); [contradiction|].
      exact Hinv.
Qed.

Lemma run_invariant (trim : string -> string) (events : list ChatInterface.Event) :
  forall page, typingInvariant page -> typingInvariant (ChatInterface.run trim events page).
Proof.
  induction events as [|e rest IH]; intros page Hinv; [exact Hinv|].
  cbn. apply IH. now apply step_invariant.
Qed.

Lemma initialPage_invariant : typingInvariant ChatInterface.initialPage.
Proof. split; [now left|]. split; [discriminate|cbn; lia]. Qed.

(** X19. After any sequence of keystrokes, submissions and timeouts, at
    most one typing timeout is armed, and it is the one of the latest
    keystroke (the one the ref holds); the typing indicator is on only
    while that timeout is armed, and the firing of an armed timeout turns
    it off and leaves none armed.  So the indicator never stays on. *)
Theorem typing_indicator (trim : string -> string) (events : list ChatInterface.Event) :
  let page := ChatInterface.run trim events ChatInterface.initialPage in
  (List.length (ChatInterface.armed page) <= 1)%nat
  /\ (forall handle, In handle (ChatInterface.armed page) ->
      ChatInterface.typingTimeoutRef (ChatInterface.chat page) = Some handle)
  /\ (ChatInterface.isUserTyping page = true -> ChatInterface.armed page <> [])
  /\ (forall handle, In handle (ChatInterface.armed page) ->
      let page' := ChatInterface.step trim page (ChatInterface.timeoutFires handle) in
      ChatInterface.isUserTyping page' = false /\ ChatInterface.armed page' = [])
  /\ (forall value,
      let page' := ChatInterface.step trim page (ChatInterface.change value) in
      ChatInterface.isUserTyping page' = true
      /\ exists handle, ChatInterface.armed page' = [handle]
                        /\ ~ In handle (ChatInterface.armed page)).
Proof.
  intros page.
  pose proof (run_invariant trim events _ initialPage_invariant) as Hinv.
  fold page in Hinv.
  split; [|split; [|split; [|split]]].
  - destruct Hinv as ([-> | (h & -> & _)] & _); cbn; lia.
  - intros handle Hin. destruct Hinv as ([Hn | (h & Ha & Href & _)] & _).
    + rewrite Hn in Hin. contradiction.
    + rewrite Ha in Hin. destruct Hin as [<-|[]]. exact Href.
  - apply Hinv.
  - intros handle Hin.
    destruct (step_timeoutFires trim page handle Hinv Hin) as (Ha & _ & _ & Ht & _).
    auto.
  - intros value.
    destruct (step_change trim page value Hinv) as (Ha & _ & _ & Ht & _).
    split; [exact Ht|]. exists (ChatInterface.nextHandle page). split; [exact Ha|].
    destruct Hinv as ([Hn | (h & Harm & _ & Hh)] & _).
    + rewrite Hn. intros [].
    + rewrite Harm. intros [Heq|[]]. lia.
Qed.

(** X20. From any page reached by keystrokes, submissions and timeouts: a
    submission whose input trims to the empty string, or made while a
    request is processing, changes nothing and sends nothing; any other
    submission sends the input as typed (not trimmed), empties the input,
    turns the typing indicator off and leaves no timeout armed. *)
Theorem handleSubmit_behaviour (trim : string -> string)
    (events : list ChatInterface.Event) :
  let page := ChatInterface.run trim events ChatInterface.initialPage in
  (forall isProcessing,
      trim (ChatInterface.input (ChatInterface.chat page)) = ""%string
      \/ isProcessing = true ->
      ChatInterface.step trim page (ChatInterface.submit isProcessing) = page)
  /\ (trim (ChatInterface.input (ChatInterface.chat page)) <> ""%string ->
      let page' := ChatInterface.step trim page (ChatInterface.submit false) in
      ChatInterface.sent page' =
        ChatInterface.sent page ++ [ChatInterface.input (ChatInterface.chat page)]
      /\ ChatInterface.input (ChatInterface.chat page') = ""%string
      /\ ChatInterface.isUserTyping page' = false
      /\ ChatInterface.armed page' = []).
Proof.
  intros page.
  pose proof (run_invariant trim events _ initialPage_invariant) as Hinv.
  fold page in Hinv. split.
  - intros isProcessing H. now apply step_submit_ignored.
  - intros Hne.
    destruct (step_submit_sends trim page Hinv Hne) as (Ha & Hi & _ & Ht & Hs). auto.
Qed.

Lemma typing_indicator_witness :
  let page := ChatInterface.run (fun s => s)
                [ChatInterface.change "h"; ChatInterface.change "hi"]
                ChatInterface.initialPage in
  let page' := ChatInterface.step (fun s => s) page (ChatInterface.timeoutFires 2) in
  ChatInterface.isUserTyping page' = false /\ ChatInterface.armed page' = [].
Proof.
  destruct (typing_indicator (fun s => s)
              [ChatInterface.change "h"; ChatInterface.change "hi"])
    as (_ & _ & _ & Hfire & _).
  apply Hfire. cbn. left. reflexivity.
Defined.

Lemma handleSubmit_behaviour_witness :
  let page := ChatInterface.run (fun s => s) [ChatInterface.change "hi "]
                ChatInterface.initialPage in
  let page' := ChatInterface.step (fun s => s) page (ChatInterface.submit false) in
  ChatInterface.sent page' = ChatInterface.sent page ++ ["hi "%string]
  /\ ChatInterface.input (ChatInterface.chat page') = ""%string
  /\ ChatInterface.isUserTyping page' = false
  /\ ChatInterface.armed page' = [].
Proof.
  destruct (handleSubmit_behaviour (fun s => s) [ChatInterface.change "hi "])
    as (_ & Hsend).
  apply Hsend. cbn. discriminate.
Defined.

(** * The App component *)

Ltac audio_solve :=
  unfold audioInvariant; cbn; repeat split; intros;
  try assumption; try congruence; try tauto; auto.

Lemma initAudioContext_invariant (browser : AppComponent.Browser) (st : AppComponent.State) :
  audioInvariant st ->
  audioInvariant (AppComponent.initAudioContext browser st)
  /\ AppComponent.analyserRef (AppComponent.initAudioContext browser st) <> None.
Proof.
  intros (Ha & Hc & Hiff & Hp & Hs). unfold AppComponent.initAudioContext.
  destruct (AppComponent.audioContextRef st) as [ctx|] eqn:Hctx.
  - assert (Hn : AppComponent.analyserRef st <> None) by (intros Hnone; apply Hiff in Hnone; discriminate).
    destruct (AppComponent.contextSuspended browser); cbn;
      (split; [|exact Hn]); unfold audioInvariant; cbn; rewrite ?Hctx; audio_solve.
  - cbn. split; [|discriminate]. audio_solve.
Qed.

Lemma suspended_has_analyser (st : AppComponent.State) (i : nat)
    (k : AppComponent.Continuation) :
  audioInvariant st ->
  nth_error (AppComponent.suspended st) i = Some k ->
  AppComponent.analyserRef st <> None /\ AppComponent.audioContextRef st <> None.
Proof.
  intros (Ha & Hc & Hiff & Hp & Hs) Hk.
  assert (Hn : AppComponent.analyserRef st <> None).
  { apply Hs. intros He. rewrite He in Hk. now destruct i. }
  split; [exact Hn|]. intros Hnone. now apply Hn, Hiff.
Qed.

Lemma step_audioInvariant (st : AppComponent.State) (event : AppComponent.Event) :
  audioInvariant st -> audioInvariant (AppComponent.step st event).
Proof.
  intros Hinv. destruct event as [b|b text|t|url| |i r|i r|i r s|]; cbn [AppComponent.step].
  - now apply initAudioContext_invariant.
  - unfold AppComponent.handleSendMessage_begin.
    destruct (initAudioContext_invariant b st Hinv) as ((Ha & Hc & Hiff & Hp & Hs) & Hn).
    audio_solve.
  - exact Hinv.
  - exact Hinv.
  - exact Hinv.
  - destruct (nth_error (AppComponent.suspended st) i) as [[nm tx|rt|ab]|] eqn:Hk;
      try exact Hinv.
    destruct (suspended_has_analyser st i _ Hinv Hk) as [Hn Hx].
    destruct Hinv as (Ha & Hc & Hiff & Hp & Hs).
    destruct r as [responseText|e]; audio_solve.
  - destruct (nth_error (AppComponent.suspended st) i) as [[nm tx|rt|ab]|] eqn:Hk;
      try exact Hinv.
    destruct (suspended_has_analyser st i _ Hinv Hk) as [Hn Hx].
    destruct Hinv as (Ha & Hc & Hiff & Hp & Hs).
    destruct r as [audioData|e]; [|audio_solve].
    unfold AppComponent.afterSpeech, AppComponent.playAudio_begin. cbn.
    destruct (AppComponent.audioContextRef st) eqn:E1; [|now elim Hx].
    destruct (AppComponent.analyserRef st) eqn:E2; [|now elim Hn].
    cbn. destruct (AppComponent.sourceRef st) eqn:E3;
      unfold audioInvariant; cbn; rewrite ?E1, ?E2; repeat split; intros;
        try assumption; try congruence; auto.
  - destruct (nth_error (AppComponent.suspended st) i) as [[nm tx|rt|ab]|] eqn:Hk;
      try exact Hinv.
    destruct (suspended_has_analyser st i _ Hinv Hk) as [Hn Hx].
    destruct Hinv as (Ha & Hc & Hiff & Hp & Hs).
    destruct r as [buffer|e]; audio_solve.
  - destruct Hinv as (Ha & Hc & Hiff & Hp & Hs). audio_solve.
Qed.

Lemma run_audioInvariant (events : list AppComponent.Event) :
  forall st, audioInvariant st -> audioInvariant (AppComponent.run events st).
Proof.
  induction events as [|e rest IH]; intros st Hinv; [exact Hinv|].
  cbn. apply IH. now apply step_audioInvariant.
Qed.

Lemma initialState_audioInvariant : audioInvariant AppComponent.initialState.
Proof.
  unfold audioInvariant. cbn. repeat split; auto; discriminate.
Qed.

(** X21. In every state the App component reaches, whatever the order of
    clicks, sends, settlements and playback ends: audio is marked as
    playing only when the state holds an analyser (so the avatar state
    'speaking' always comes with frequency data, and the pair "playing
    without analyser" never reaches the drivers), the analyser of the
    state is the one of the ref, and while a call of [handleSendMessage]
    is suspended both audio refs are set, so [playAudio] never returns
    without playing for want of an audio context. *)
Theorem speaking_has_an_analyser (events : list AppComponent.Event) :
  let st := AppComponent.run events AppComponent.initialState in
  (App.getAvatarState (AppComponent.audioState st) (AppComponent.isProcessing st)
     (AppComponent.isUserTyping st) = App.speaking ->
   exists node, analyser (AppComponent.audioState st) = Some node)
  /\ analyser (AppComponent.audioState st) = AppComponent.analyserRef st
  /\ (AppComponent.suspended st <> [] -> AppComponent.playAudio_begin st <> None).
Proof.
  intros st.
  pose proof (run_audioInvariant events _ initialState_audioInvariant) as Hinv.
  fold st in Hinv. destruct Hinv as (Ha & Hc & Hiff & Hp & Hs).
  split; [|split; [exact Ha|]].
  - unfold App.getAvatarState.
    destruct (isPlaying (AppComponent.audioState st)) eqn:Hplay.
    + intros _. specialize (Hp eq_refl). rewrite Ha.
      destruct (AppComponent.analyserRef st) as [node|]; [now exists node|now elim Hp].
    + destruct (AppComponent.isProcessing st), (AppComponent.isUserTyping st);
        discriminate.
  - intros Hne. specialize (Hs Hne). unfold AppComponent.playAudio_begin.
    destruct (AppComponent.analyserRef st) as [node|] eqn:Hn; [|now elim Hs].
    destruct (AppComponent.audioContextRef st) as [ctx|] eqn:Hctx.
    + cbn. destruct (AppComponent.sourceRef st); discriminate.
    + destruct Hiff as [Hiff _]. specialize (Hiff eq_refl). discriminate.
Qed.

Lemma speaking_has_an_analyser_witness :
  let st := AppComponent.run
              (turn sampleBrowser "hi" (Fulfilled "yo"%string) (Fulfilled []) (Fulfilled 0%nat) 7%nat)
              AppComponent.initialState in
  exists node, analyser (AppComponent.audioState st) = Some node.
Proof.
  destruct (speaking_has_an_analyser
              (turn sampleBrowser "hi" (Fulfilled "yo"%string) (Fulfilled [])
                 (Fulfilled 0%nat) 7%nat)) as (Hspeak & _ & _).
  apply Hspeak. reflexivity.
Defined.

(** ** The transcript *)

Lemma step_messages (st : AppComponent.State) (event : AppComponent.Event) :
  exists suffix,
    AppComponent.messages (AppComponent.step st event) =
      AppComponent.messages st ++ suffix
    /\ (List.length suffix <= 1)%nat
    /\ userMessages suffix =
       map AppComponent.userMessage (sentTexts [event]).
Proof.
  destruct event as [b|b text|t|url| |i r|i r|i r s|]; cbn [AppComponent.step].
  - exists []. rewrite app_nil_r. unfold AppComponent.initAudioContext.
    destruct (AppComponent.audioContextRef st);
      [destruct (AppComponent.contextSuspended b)|]; cbn; auto.
  - exists [AppComponent.userMessage text]. cbn. auto.
  - exists []. rewrite app_nil_r. cbn. auto.
  - exists []. rewrite app_nil_r. cbn. auto.
  - exists []. rewrite app_nil_r. cbn. auto.
  - destruct (nth_error (AppComponent.suspended st) i) as [[nm tx|rt|ab]|];
      try solve [exists []; rewrite app_nil_r; cbn; auto].
    destruct r as [responseText|e]; eexists; cbn; split; try reflexivity; cbn; auto.
  - destruct (nth_error (AppComponent.suspended st) i) as [[nm tx|rt|ab]|];
      try solve [exists []; rewrite app_nil_r; cbn; auto].
    destruct r as [audioData|e];
      [|eexists; cbn; split; try reflexivity; cbn; auto].
    exists []. rewrite app_nil_r. unfold AppComponent.afterSpeech, AppComponent.playAudio_begin.
    cbn. destruct (negb _ || negb _); [cbn; auto|].
    destruct (AppComponent.sourceRef st); cbn; auto.
  - destruct (nth_error (AppComponent.suspended st) i) as [[nm tx|rt|ab]|];
      try solve [exists []; rewrite app_nil_r; cbn; auto].
    destruct r as [buffer|e];
      [exists []; rewrite app_nil_r; cbn; auto
      |eexists; cbn; split; try reflexivity; cbn; auto].
  - exists []. rewrite app_nil_r. cbn. auto.
Qed.

Lemma userMessages_app (a b : list types.Message) :
  userMessages (a ++ b) = userMessages a ++ userMessages b.
Proof. apply filter_app. Qed.

(** X22. The transcript only grows: every event appends at most one
    message to it and never drops or rewrites one, so the transcript
    before a sequence of events is a prefix of the transcript after it;
    and the messages of the user in the transcript are exactly the texts
    sent, in the order they were sent (replies and error notices are all
    messages of the model). *)
Theorem transcript_only_grows (events : list AppComponent.Event) :
  forall st,
    exists suffix,
      AppComponent.messages (AppComponent.run events st) =
        AppComponent.messages st ++ suffix
      /\ (List.length suffix <= List.length events)%nat
      /\ userMessages suffix = map AppComponent.userMessage (sentTexts events).
Proof.
  induction events as [|e rest IH]; intros st.
  - exists []. rewrite app_nil_r. cbn. auto.
  - destruct (step_messages st e) as (s1 & H1 & Hl1 & Hu1).
    destruct (IH (AppComponent.step st e)) as (s2 & H2 & Hl2 & Hu2).
    exists (s1 ++ s2). cbn [AppComponent.run fold_left].
    fold (AppComponent.run rest (AppComponent.step st e)).
    rewrite H2, H1, <- app_assoc. split; [reflexivity|].
    split; [rewrite length_app; cbn; lia|].
    rewrite userMessages_app, Hu1, Hu2.
    change (e :: rest) with ([e] ++ rest). unfold sentTexts at 3.
    rewrite flat_map_app, map_app. reflexivity.
Qed.

(** ** One turn of the conversation *)

(** X23. From a reached state with no call suspended, a turn (a message
    is sent; the reply, the speech and the decoding settle, each either
    way) ends with no call suspended and [isProcessing] false, and has
    appended the user's message followed by: the error notice if the
    reply failed; else the reply, followed by the error notice if the
    speech failed, or by the playback notice if the decoding failed.
    Audio is marked as playing after the turn exactly when all three
    succeeded or it was playing before. *)
Theorem turn_outcome (st : AppComponent.State) (browser : AppComponent.Browser)
    (text : string) (reply : Settled string)
    (speech : Settled AppComponent.ArrayBuffer)
    (decoded : Settled AppComponent.AudioBuffer)
    (source : AppComponent.AudioBufferSourceNode)
    (Hinv : audioInvariant st)
    (Hidle : AppComponent.suspended st = []) :
  let st' := AppComponent.run (turn browser text reply speech decoded source) st in
  AppComponent.messages st' =
    AppComponent.messages st ++ AppComponent.userMessage text
      :: turnReplies reply speech decoded
  /\ AppComponent.isProcessing st' = false
  /\ AppComponent.suspended st' = []
  /\ isPlaying (AppComponent.audioState st') =
     match reply, speech, decoded with
     | Fulfilled _, Fulfilled _, Fulfilled _ => true
     | _, _, _ => isPlaying (AppComponent.audioState st)
     end.
Proof.
  destruct Hinv as (Ha & Hc & Hiff & Hp & Hs).
  assert (Hrefs : (AppComponent.audioContextRef st = None
                   /\ AppComponent.analyserRef st = None)
                  \/ (exists ctx node, AppComponent.audioContextRef st = Some ctx
                                       /\ AppComponent.analyserRef st = Some node)).
  { destruct (AppComponent.audioContextRef st) as [ctx|] eqn:E1.
    - right. destruct (AppComponent.analyserRef st) as [node|] eqn:E2.
      + now exists ctx, node.
      + destruct Hiff as [_ Hiff]. specialize (Hiff eq_refl). discriminate.
    - left. split; [reflexivity|]. now apply Hiff. }
  clear Ha Hc Hiff Hp Hs.
  destruct st as [m u ms ip iut acr ar sr aus aac asrc sus cs].
  cbn in Hidle, Hrefs. subst sus.
  destruct browser as [newContext newNode suspended].
  destruct Hrefs as [[E1 E2] | (ctx & node & E1 & E2)]; subst acr ar;
    [|destruct suspended];
    (destruct reply as [responseText|e1];
       [destruct speech as [audioData|e2];
          [destruct sr as [previous|]; destruct decoded as [buffer|e3]|]|]);
    cbn; rewrite <- ?app_assoc; auto.
Qed.

Lemma turn_outcome_witness :
  let st' := AppComponent.run
               (turn sampleBrowser "hi" (Fulfilled "yo"%string)
                  (Rejected (ErrorObject "quota")) (Fulfilled 0%nat) 7%nat)
               AppComponent.initialState in
  AppComponent.messages st' =
    [AppComponent.userMessage "hi"; AppComponent.modelMessage "yo";
     AppComponent.modelMessage "Sorry, I encountered an error. quota"]
  /\ AppComponent.isProcessing st' = false.
Proof.
  destruct (turn_outcome AppComponent.initialState sampleBrowser "hi"
              (Fulfilled "yo"%string) (Rejected (ErrorObject "quota"))
              (Fulfilled 0%nat) 7%nat initialState_audioInvariant eq_refl)
    as (Hm & Hp & _).
  split; [exact Hm|exact Hp].
Defined.

(** ** The model URL and the avatar that is rendered *)

Lemma append_nonempty (a b : string) : b <> ""%string -> String.append a b <> ""%string.
Proof. intros Hb. destruct a; cbn; [exact Hb|discriminate]. Qed.

Lemma step_modelUrl (st : AppComponent.State) (event : AppComponent.Event) :
  (exists prefix, AppComponent.modelUrl st = Some (String.append prefix "#model.vrm")) ->
  exists prefix,
    AppComponent.modelUrl (AppComponent.step st event) =
    Some (String.append prefix "#model.vrm").
Proof.
  intros Hurl. destruct event as [b|b text|t|url| |i r|i r|i r s|]; cbn [AppComponent.step].
  - unfold AppComponent.initAudioContext.
    destruct (AppComponent.audioContextRef st);
      [destruct (AppComponent.contextSuspended b)|]; exact Hurl.
  - unfold AppComponent.handleSendMessage_begin, AppComponent.initAudioContext.
    destruct (AppComponent.audioContextRef st);
      [destruct (AppComponent.contextSuspended b)|]; exact Hurl.
  - exact Hurl.
  - now exists url.
  - exact Hurl.
  - destruct (nth_error (AppComponent.suspended st) i) as [[nm tx|rt|ab]|]; try exact Hurl.
    destruct r; exact Hurl.
  - destruct (nth_error (AppComponent.suspended st) i) as [[nm tx|rt|ab]|]; try exact Hurl.
    destruct r; [|exact Hurl].
    unfold AppComponent.afterSpeech, AppComponent.playAudio_begin. cbn.
    destruct (negb _ || negb _); [exact Hurl|].
    destruct (AppComponent.sourceRef st); exact Hurl.
  - destruct (nth_error (AppComponent.suspended st) i) as [[nm tx|rt|ab]|]; try exact Hurl.
    destruct r; exact Hurl.
  - exact Hurl.
Qed.

(** X24. In every state the App component reaches, the model URL is a
    string that ends with "#model.vrm" (the bundled model at first, then
    the object URL of each upload with that fragment appended); being
    non-empty it makes the scene render the rig avatar with that URL: the
    fallback shape is never rendered by this application. *)
Theorem scene_renders_the_rig (events : list AppComponent.Event) :
  let st := AppComponent.run events AppComponent.initialState in
  exists url,
    AppComponent.modelUrl st = Some url
    /\ endsWith url "#model.vrm" = true
    /\ AppComponent.render st =
       Scene.VRMAvatar url (AppComponent.audioState st)
         (App.getAvatarState (AppComponent.audioState st)
            (AppComponent.isProcessing st) (AppComponent.isUserTyping st)).
Proof.
  intros st.
  assert (Hurl : exists prefix,
             AppComponent.modelUrl st = Some (String.append prefix "#model.vrm")).
  { subst st. generalize AppComponent.initialState,
      (ex_intro (fun prefix => AppComponent.modelUrl AppComponent.initialState =
                               Some (String.append prefix "#model.vrm"))
         "/models/vivian.vrm"%string eq_refl).
    induction events as [|e rest IH]; intros st0 H0; [exact H0|].
    cbn. apply IH. now apply step_modelUrl. }
  destruct Hurl as (prefix & Hurl).
  exists (String.append prefix "#model.vrm"). split; [exact Hurl|].
  split; [apply endsWith_spec; now exists prefix|].
  unfold AppComponent.render, Scene.avatar. rewrite Hurl.
  assert (Ht : truthyString (Some (String.append prefix "#model.vrm")) = true).
  { cbn. apply negb_true_iff, String.eqb_neq, append_nonempty. discriminate. }
  now rewrite Ht.
Qed.

(** ** What the text services are asked *)

(** X25. [handleSendMessage] appends the user's message to the transcript
    and passes that transcript together with the same text as prompt.
    The OpenAI service appends the prompt once more: its request is the
    system message, the earlier transcript, and then the user's text
    twice.  The Gemini service drops the last message of what it is
    given, so its history is the earlier transcript and the text goes out
    once, as the prompt. *)
Theorem prompt_is_sent_twice_to_openai (browser : AppComponent.Browser) (text : string)
    (st : AppComponent.State) (key : string) :
  let st' := AppComponent.handleSendMessage_begin browser text st in
  let newMessages := AppComponent.messages st ++ [AppComponent.userMessage text] in
  AppComponent.messages st' = newMessages
  /\ AppComponent.suspended st' =
     AppComponent.suspended st ++ [AppComponent.awaitingText newMessages text]
  /\ apiService.messages (apiService.chatRequest key newMessages text) =
     apiService.systemMessage
       :: map apiService.toApiMessage (AppComponent.messages st)
       ++ [{| apiService.role := "user"; apiService.content := text |};
           {| apiService.role := "user"; apiService.content := text |}]
  /\ geminiService.chat_history (geminiService.chatSession newMessages) =
     map (fun m => {| geminiService.role := types.role m;
                      geminiService.parts := [types.text m] |})
       (AppComponent.messages st).
Proof.
  cbn zeta. split; [|split; [|split]].
  - unfold AppComponent.handleSendMessage_begin. reflexivity.
  - unfold AppComponent.handleSendMessage_begin, AppComponent.initAudioContext.
    destruct (AppComponent.audioContextRef st);
      [destruct (AppComponent.contextSuspended browser)|]; reflexivity.
  - cbn. unfold apiService.apiMessages. rewrite map_app, <- app_assoc. reflexivity.
  - cbn. unfold geminiService.history, geminiService.historyMessages.
    now rewrite removelast_snoc.
Qed.

(** * The application *)

Lemma single_suspended (ks : list AppComponent.Continuation) (i : nat)
    (k : AppComponent.Continuation) :
  (List.length ks <= 1)%nat -> nth_error ks i = Some k -> ks = [k] /\ i = 0%nat.
Proof.
  destruct ks as [|k0 [|k1 rest]]; cbn; intros Hlen Hn; try lia.
  - now destruct i.
  - destruct i as [|i]; cbn in Hn; [now inversion Hn|now destruct i].
Qed.

Ltac flight_solve :=
  unfold oneFlight; cbn -[userMessages];
  rewrite ?userMessages_app; cbn; rewrite ?app_nil_r;
  intuition (try lia; try congruence).

Lemma settle_oneFlight (st : AppComponent.State) (event : AppComponent.Event) :
  match event with
  | AppComponent.onSendMessage _ _ | AppComponent.onUserTyping _
  | AppComponent.onModelUpload _ => False
  | _ => True
  end ->
  oneFlight st ->
  let st' := AppComponent.step st event in
  oneFlight st'
  /\ AppComponent.isUserTyping st' = AppComponent.isUserTyping st
  /\ userMessages (AppComponent.messages st') = userMessages (AppComponent.messages st).
Proof.
  intros Hev [Hlen Hiff].
  destruct st as [m u ms ip iut acr ar sr aus aac asrc sus cs].
  cbn in Hlen, Hiff.
  destruct event as [b|b text|t|url| |i r|i r|i r s|]; try contradiction;
    cbn [AppComponent.step AppComponent.suspended].
  - unfold AppComponent.initAudioContext. cbn [AppComponent.audioContextRef].
    destruct acr; [destruct (AppComponent.contextSuspended b)|]; flight_solve.
  - flight_solve.
  - destruct (nth_error sus i) as [[nm tx|rt|ab]|] eqn:Hk; try solve [flight_solve].
    destruct (single_suspended _ _ _ Hlen Hk) as [-> ->].
    destruct r as [responseText|e]; flight_solve.
  - destruct (nth_error sus i) as [[nm tx|rt|ab]|] eqn:Hk; try solve [flight_solve].
    destruct (single_suspended _ _ _ Hlen Hk) as [-> ->].
    destruct r as [audioData|e]; [|flight_solve].
    destruct acr, ar, sr; flight_solve.
  - destruct (nth_error sus i) as [[nm tx|rt|ab]|] eqn:Hk; try solve [flight_solve].
    destruct (single_suspended _ _ _ Hlen Hk) as [-> ->].
    destruct r as [buffer|e]; flight_solve.
  - flight_solve.
Qed.

Lemma dispatchAll_app (browser : AppComponent.Browser) (blobUrl : string)
    (calls calls' : list ChatInterface.Call) (st : AppComponent.State) :
  Application.dispatchAll browser blobUrl (calls ++ calls') st =
  Application.dispatchAll browser blobUrl calls'
    (Application.dispatchAll browser blobUrl calls st).
Proof. apply fold_left_app. Qed.

Lemma dispatchAll_clear (browser : AppComponent.Browser) (blobUrl : string)
    (chat : ChatInterface.State) (st : AppComponent.State) :
  Application.dispatchAll browser blobUrl (ChatInterface.clearTypingTimeout chat) st = st.
Proof.
  unfold ChatInterface.clearTypingTimeout.
  destruct (ChatInterface.typingTimeoutRef chat) as [[|h]|]; reflexivity.
Qed.

Lemma step_worldInvariant (trim : string -> string) (idle : AppComponent.Browser)
    (w : Application.World) (event : Application.Event) :
  worldInvariant w -> worldInvariant (Application.step trim idle w event).
Proof.
  intros (Hpage & Htyping & Hlen & Hiff & Hsent).
  assert (Henv : forall e,
            match e with
            | AppComponent.onSendMessage _ _ | AppComponent.onUserTyping _
            | AppComponent.onModelUpload _ => False
            | _ => True
            end ->
            worldInvariant {| Application.app := AppComponent.step (Application.app w) e;
                              Application.page := Application.page w |}).
  { intros e He.
    destruct (settle_oneFlight (Application.app w) e He (conj Hlen Hiff))
      as ((Hl & Hi) & Ht & Hm).
    unfold worldInvariant. cbn [Application.app Application.page].
    rewrite Ht, Hm. auto. }
  destruct event as [value|browser|handle|files blobUrl|b| |i r|i r|i r s|];
    cbn [Application.step]; try (apply Henv; exact I).
  - (* keystroke *)
    destruct (step_change trim (Application.page w) value Hpage) as (Ha & Hc & Hn & Ht & Hs).
    unfold worldInvariant. cbn [Application.app Application.page].
    split; [now apply step_invariant|].
    rewrite Ht, Hs.
    cbn [ChatInterface.handleInputChange snd].
    rewrite !dispatchAll_app, dispatchAll_clear.
    cbn. auto.
  - (* submit *)
    unfold worldInvariant. cbn [Application.app Application.page].
    split; [now apply step_invariant|].
    destruct (String.eqb_spec
                (trim (ChatInterface.input (ChatInterface.chat (Application.page w)))) "")
      as [He|Hne].
    { rewrite step_submit_ignored by (now left).
      unfold ChatInterface.handleSubmit. cbn [truthyString]. rewrite He. cbn. auto. }
    destruct (AppComponent.isProcessing (Application.app w)) eqn:Hp.
    { rewrite step_submit_ignored by (now right).
      unfold ChatInterface.handleSubmit. rewrite andb_false_r. cbn.
      rewrite Hp. auto. }
    destruct (step_submit_sends trim (Application.page w) Hpage Hne)
      as (Ha & Hi & Hn & Ht & Hs).
    rewrite Ht, Hs.
    unfold ChatInterface.handleSubmit.
    assert (Htr : truthyString
                    (Some (trim (ChatInterface.input
                                   (ChatInterface.chat (Application.page w))))) = true)
      by (cbn; now apply negb_true_iff, String.eqb_neq).
    rewrite Htr. cbn [andb negb snd].
    rewrite !dispatchAll_app, dispatchAll_clear.
    assert (Hnone : AppComponent.suspended (Application.app w) = []).
    { destruct (AppComponent.suspended (Application.app w)) eqn:E; [reflexivity|].
      assert (Hx : false = true) by (apply Hiff; discriminate). discriminate. }
    revert Htyping Hlen Hiff Hsent Hp Hnone.
    generalize (ChatInterface.input (ChatInterface.chat (Application.page w))) as text.
    generalize (ChatInterface.sent (Application.page w)) as sent.
    destruct (Application.app w) as [m u ms ip iut acr ar sr aus aac asrc sus cs].
    destruct browser as [newContext newNode suspended].
    cbn -[userMessages]. intros sent text Htyping Hlen Hiff Hsent Hp Hnone. subst ip sus.
    destruct acr; [destruct suspended|]; cbn -[userMessages];
      rewrite userMessages_app, Hsent, map_app; cbn;
      intuition (try lia; try congruence).
  - (* timeoutFires *)
    unfold worldInvariant. cbn [Application.app Application.page].
    split; [now apply step_invariant|].
    destruct (in_dec Nat.eq_dec handle (ChatInterface.armed (Application.page w)))
      as [Hin|Hnot].
    + destruct (step_timeoutFires trim (Application.page w) handle Hpage Hin)
        as (Ha & Hc & Hn & Ht & Hs).
      rewrite Ht, Hs. cbn. auto.
    + cbn [ChatInterface.step].
      destruct (in_dec Nat.eq_dec handle (ChatInterface.armed (Application.page w)));
        [contradiction|]. cbn. auto.
  - (* fileChosen *)
    unfold worldInvariant. cbn [Application.app Application.page].
    split; [exact Hpage|].
    destruct files as [[|file rest]|]; cbn; auto.
    destruct (endsWith (ChatInterface.name file) ".vrm"); cbn; auto.
Qed.

Lemma run_worldInvariant (trim : string -> string) (idle : AppComponent.Browser)
    (events : list Application.Event) :
  forall w, worldInvariant w -> worldInvariant (Application.run trim idle events w).
Proof.
  induction events as [|e rest IH]; intros w Hinv; [exact Hinv|].
  cbn. apply IH. now apply step_worldInvariant.
Qed.

Lemma initialWorld_invariant : worldInvariant Application.initialWorld.
Proof.
  unfold worldInvariant. cbn.
  split; [exact initialPage_invariant|].
  intuition (try lia; try congruence).
Qed.

(** X26. In the application, where messages are sent through the chat
    panel only: at most one call of [handleSendMessage] is ever suspended,
    and [isProcessing] is true exactly while one is, so the input is
    disabled from the submission to the end of the reply flow and never
    longer; the App's typing flag is the panel's; and the messages of the
    user in the transcript are exactly the inputs the panel submitted, in
    order. *)
Theorem one_request_at_a_time (trim : string -> string) (idle : AppComponent.Browser)
    (events : list Application.Event) :
  let w := Application.run trim idle events Application.initialWorld in
  (List.length (AppComponent.suspended (Application.app w)) <= 1)%nat
  /\ (AppComponent.isProcessing (Application.app w) = true <->
      AppComponent.suspended (Application.app w) <> [])
  /\ AppComponent.isUserTyping (Application.app w) =
     ChatInterface.isUserTyping (Application.page w)
  /\ userMessages (AppComponent.messages (Application.app w)) =
     map AppComponent.userMessage (ChatInterface.sent (Application.page w)).
Proof.
  intros w.
  destruct (run_worldInvariant trim idle events _ initialWorld_invariant)
    as (_ & Ht & Hl & Hi & Hs).
  auto.
Qed.

(** X27. In the application the avatar state follows the system: it is
    'typing' only while a typing timeout is armed (so it leaves that
    state when the timeout fires, at the latest), and, when no audio is
    playing, it is 'thinking' exactly while a call of [handleSendMessage]
    is suspended. *)
Theorem avatar_state_follows_the_system (trim : string -> string)
    (idle : AppComponent.Browser) (events : list Application.Event) :
  let w := Application.run trim idle events Application.initialWorld in
  let avatarState :=
    App.getAvatarState (AppComponent.audioState (Application.app w))
      (AppComponent.isProcessing (Application.app w))
      (AppComponent.isUserTyping (Application.app w)) in
  (avatarState = App.typing -> ChatInterface.armed (Application.page w) <> [])
  /\ (isPlaying (AppComponent.audioState (Application.app w)) = false ->
      (avatarState = App.thinking <->
       AppComponent.suspended (Application.app w) <> [])).
Proof.
  intros w avatarState.
  destruct (run_worldInvariant trim idle events _ initialWorld_invariant)
    as ((_ & Harmed & _) & Ht & Hl & Hi & Hs).
  fold w in Harmed, Ht, Hl, Hi, Hs. subst avatarState. unfold App.getAvatarState.
  split.
  - destruct (isPlaying _); [discriminate|].
    destruct (AppComponent.isProcessing _); [discriminate|].
    destruct (AppComponent.isUserTyping (Application.app w)) eqn:Hty; [|discriminate].
    intros _. apply Harmed. now rewrite <- Ht.
  - intros ->. rewrite <- Hi.
    destruct (AppComponent.isProcessing _).
    + split; auto.
    + destruct (AppComponent.isUserTyping _); split; intros H; discriminate.
Qed.

Lemma one_request_at_a_time_witness :
  let w := Application.run (fun s => s) sampleBrowser
             [Application.keystroke "hi"; Application.submit sampleBrowser]
             Application.initialWorld in
  AppComponent.suspended (Application.app w) <> []
  /\ ChatInterface.sent (Application.page w) = ["hi"%string].
Proof.
  destruct (one_request_at_a_time (fun s => s) sampleBrowser
              [Application.keystroke "hi"; Application.submit sampleBrowser])
    as (_ & Hiff & _ & _).
  split; [apply Hiff; reflexivity|reflexivity].
Defined.

Lemma avatar_state_follows_the_system_witness :
  let w := Application.run (fun s => s) sampleBrowser [Application.keystroke "h"]
             Application.initialWorld in
  App.getAvatarState (AppComponent.audioState (Application.app w))
    (AppComponent.isProcessing (Application.app w))
    (AppComponent.isUserTyping (Application.app w)) = App.typing
  /\ ChatInterface.armed (Application.page w) <> [].
Proof.
  destruct (avatar_state_follows_the_system (fun s => s) sampleBrowser
              [Application.keystroke "h"]) as (Htyping & _).
  split; [reflexivity|apply Htyping; reflexivity].
Defined.

(** * The pose targets *)

Lemma poseCalls_targets (avatarState : App.AvatarState) (t : R) :
  Forall (fun c => angleInRange (VRMAvatar.tx c) /\ angleInRange (VRMAvatar.ty c)
                   /\ angleInRange (VRMAvatar.tz c))
    (VRMAvatar.poseCalls avatarState t).
Proof.
  pose proof (SIN_bound (t * 12)). pose proof (COS_bound (t * 3)).
  pose proof (SIN_bound (t * 5)). pose proof (SIN_bound (t * 2.0)).
  pose proof (SIN_bound (t * 0.5)).
  unfold angleInRange.
  destruct avatarState; cbn;
    repeat (constructor; [cbn; repeat split; lra|]); constructor.
Qed.

Lemma lerp_in_range (current target factor : R) :
  angleInRange current -> angleInRange target -> 0 <= factor <= 1 ->
  angleInRange (THREE.MathUtils.lerp current target factor).
Proof.
  unfold angleInRange. intros Hc Ht Hf. rewrite lerp_convex. split; nra.
Qed.

Lemma rotateBone_in_range (humanoid h' : VRMAvatar.VRMHumanoid)
    (boneName : VRMAvatar.VRMHumanBoneName) (x y z speed : R) :
  rigInRange humanoid ->
  angleInRange x -> angleInRange y -> angleInRange z -> 0 <= speed <= 1 ->
  VRMAvatar.rotateBone humanoid boneName x y z speed = Done h' ->
  rigInRange h'.
Proof.
  intros Hrig Hx Hy Hz Hs Hrun b node' Hb.
  destruct (VRMAvatar.VRMHumanBoneName_eq_dec b boneName) as [->|Hne].
  - destruct (VRMAvatar.getRawBoneNode humanoid boneName) as [node|] eqn:Hn.
    + rewrite (rotateBone_present humanoid boneName x y z speed node Hn) in Hrun.
      inversion Hrun. subst h'.
      unfold VRMAvatar.getRawBoneNode, VRMAvatar.setNodeRotation in Hb.
      destruct (VRMAvatar.VRMHumanBoneName_eq_dec boneName boneName) as [_|N];
        [|now elim N].
      inversion Hb. cbn.
      destruct (Hrig boneName node Hn) as (Rx & Ry & Rz).
      repeat split; now apply lerp_in_range.
    + rewrite (rotateBone_absent humanoid boneName x y z speed Hn) in Hrun.
      inversion Hrun. subst h'. now apply (Hrig boneName).
  - rewrite (rotateBone_other humanoid h' boneName b x y z speed Hne Hrun) in Hb.
    now apply (Hrig b).
Qed.

(** X28. Every pose target, in every state and at every time, lies
    between -2 and 1.5 radians, and every statement interpolates with a
    factor of at most 0.1; so the pose step keeps the joint angles of a
    rig within [-2, 1.5] once they are: no joint drifts or winds up,
    however long the animation runs and however the state changes. *)
Theorem pose_keeps_angles_in_range (avatarState : App.AvatarState) (t : R)
    (vrm : VRMAvatar.VRM)
    (Hrig : rigInRange (VRMAvatar.humanoid vrm)) :
  exists h',
    VRMAvatar.proceduralAnimation avatarState t vrm =
      Done {| VRMAvatar.humanoid := h';
              VRMAvatar.expressionManager := VRMAvatar.expressionManager vrm |}
    /\ rigInRange h'.
Proof.
  unfold VRMAvatar.proceduralAnimation.
  pose proof (poseCalls_targets avatarState t) as Ht.
  pose proof (poseCalls_speed avatarState t) as Hs.
  revert Ht Hs. generalize (VRMAvatar.poseCalls avatarState t) as calls.
  generalize dependent (VRMAvatar.humanoid vrm).
  intros h Hrig calls. revert h Hrig.
  induction calls as [|c rest IH]; intros h Hrig Ht Hs; cbn [VRMAvatar.rotateBones].
  - exists h. split; [reflexivity|exact Hrig].
  - inversion Ht as [|? ? (Hx & Hy & Hz) Ht']; subst.
    inversion Hs as [|? ? Hsp Hs']; subst.
    destruct (rotateBone_done h (VRMAvatar.boneName c) (VRMAvatar.tx c)
                (VRMAvatar.ty c) (VRMAvatar.tz c) (VRMAvatar.speed c))
      as (h1 & H1 & _).
    rewrite H1. cbn [bind].
    apply IH; try assumption.
    assert (Hfactor : 0 <= VRMAvatar.speed c <= 1) by lra.
    exact (rotateBone_in_range h h1 _ _ _ _ _ Hrig Hx Hy Hz Hfactor H1).
Qed.

Lemma pose_keeps_angles_in_range_witness :
  exists h',
    VRMAvatar.proceduralAnimation App.speaking 1 (singleBoneVRM VRMAvatar.RightLowerArm) =
      Done {| VRMAvatar.humanoid := h'; VRMAvatar.expressionManager := None |}
    /\ rigInRange h'.
Proof.
  apply (pose_keeps_angles_in_range App.speaking 1 (singleBoneVRM VRMAvatar.RightLowerArm)).
  intros b node Hb. cbn in Hb. unfold singleBone in Hb.
  destruct (VRMAvatar.VRMHumanBoneName_eq_dec b VRMAvatar.RightLowerArm);
    [|discriminate].
  inversion Hb. unfold rotationInRange, angleInRange. cbn. lra.
Defined.
